(** * RadProc client scripts: a shallow embedding of [config.js], [index.js]
    and [main.js]

    The development follows the page scripts of the repository:
    - [interfaz/static/js/config.js]: the list editor ([parseToArrayLoose],
      [openEditor], [applyEditor]) and the normalisation run when the
      settings form is submitted;
    - [interfaz/static/js/index.js] (the consolidated version): the
      selection guard, the fetch-based submit handler and the reset handler,
      then the pickers, the log helpers and the submit handler of the first
      revision;
    - the layout script [main.js]: the mode switch and
      [abrirConfiguraciones].

    JavaScript strings are sequences of UTF-16 code units; they are modelled
    as [list N].  The built-ins the scripts rely on ([String.prototype.trim],
    [split], [JSON.parse], [JSON.stringify], [String(x)], the two regular
    expressions) are modelled after ECMA-262. *)

From Stdlib Require Import NArith List String Ascii Bool Lia DecimalString.
From stdpp Require Import base option list strings gmap.

Set Warnings "-register-all".
Local Open Scope N_scope.

(* ===================================================================== *)
(** ** JavaScript strings *)
(* ===================================================================== *)

Module JsString.

(** A string is its sequence of UTF-16 code units. *)
Abbreviation jsstring := (list N).

(** Literals: [js] reads an ASCII Rocq string as code units. [jsq] does the
    same and turns every backquote into a double quote (U+0022), so that JSON
    text can be written down readably. *)
Definition js (s : string) : jsstring :=
  map N_of_ascii (list_ascii_of_string s).

Definition jsq (s : string) : jsstring :=
  map (fun c => if c =? 96 then 34 else c) (js s).

Fixpoint str_eqb (a b : jsstring) : bool :=
  match a, b with
  | [], [] => true
  | x :: a', y :: b' => (x =? y) && str_eqb a' b'
  | _, _ => false
  end.

(** ECMA-262 WhiteSpace and LineTerminator code points, the set removed by
    [String.prototype.trim]. *)
Definition isTrimSpace (c : N) : bool :=
  ((9 <=? c) && (c <=? 13)) || (c =? 32) || (c =? 160) || (c =? 5760)
  || ((8192 <=? c) && (c <=? 8202)) || (c =? 8232) || (c =? 8233)
  || (c =? 8239) || (c =? 8287) || (c =? 12288) || (c =? 65279).

Fixpoint trimStart (s : jsstring) : jsstring :=
  match s with
  | c :: r => if isTrimSpace c then trimStart r else s
  | [] => []
  end.

Definition trimEnd (s : jsstring) : jsstring := rev (trimStart (rev s)).

(** [s.trim()] *)
Definition trim (s : jsstring) : jsstring := trimEnd (trimStart s).

(** [s.split(sep)] with a comma as [sep]: always at least one piece. *)
Fixpoint split_comma (s : jsstring) : list jsstring :=
  match s with
  | [] => [[]]
  | c :: r =>
      if c =? 44 then [] :: split_comma r
      else match split_comma r with
           | h :: t => (c :: h) :: t
           | [] => [[c]]
           end
  end.

(** [s.startsWith] and [s.endsWith] on the two square brackets. *)
Definition startsWithLBracket (s : jsstring) : bool :=
  match s with c :: _ => c =? 91 | [] => false end.

Definition endsWithRBracket (s : jsstring) : bool :=
  match rev s with c :: _ => c =? 93 | [] => false end.

(** [s.slice(1, -1)] *)
Definition slice_1_m1 (s : jsstring) : jsstring := removelast (tl s).

(** [Boolean(s)] on a string: non-empty. *)
Definition truthy (s : jsstring) : bool :=
  match s with [] => false | _ => true end.

Definition isQuoteChar (c : N) : bool := (c =? 39) || (c =? 34).

(** [s.replace(re, empty)] with the global pattern of line 82, a single or
    double quote at the start or at the end: the replace removes a quote
    character at index 0 if there is one, and then a quote character at the
    last index if there is one left to match there. *)
Definition stripQuotes (s : jsstring) : jsstring :=
  let s1 := match s with
            | c :: r => if isQuoteChar c then r else s
            | [] => []
            end in
  match rev s1 with
  | c :: r => if isQuoteChar c then rev r else s1
  | [] => s1
  end.

(** [a.join(sep)] *)
Fixpoint join (sep : jsstring) (l : list jsstring) : jsstring :=
  match l with
  | [] => []
  | [x] => x
  | x :: r => x ++ sep ++ join sep r
  end.

(** ASCII part of [String.prototype.toLowerCase]. Code units outside A-Z are
    left as they are; no code unit outside ASCII lower-cases to one of the
    letters of spectralon, target or cielo, so membership in that vocabulary
    is decided as by the full Unicode mapping. *)
Definition lowerChar (c : N) : N :=
  if (65 <=? c) && (c <=? 90) then c + 32 else c.

Definition toLowerCase (s : jsstring) : jsstring := map lowerChar s.

(** [s.includes(w)] *)
Fixpoint startsWith (w s : jsstring) : bool :=
  match w, s with
  | [], _ => true
  | a :: w', b :: s' => (a =? b) && startsWith w' s'
  | _ :: _, [] => false
  end.

Fixpoint includes (w s : jsstring) : bool :=
  startsWith w s || match s with [] => false | _ :: r => includes w r end.

End JsString.

Export JsString.

(* ===================================================================== *)
(** ** JSON text: [JSON.parse], [String(x)], [JSON.stringify] *)
(* ===================================================================== *)

Module Json.

(** Outcome of a built-in that may throw. [OutOfFuel] is an artefact of the
    fuel-indexed recursion; [JSON_parse_has_fuel] shows it never comes out of
    [JSON_parse]. *)
Inductive result (A : Type) : Type :=
| Ok (a : A)
| SyntaxError
| OutOfFuel.
Arguments Ok {A} a.
Arguments SyntaxError {A}.
Arguments OutOfFuel {A}.

(** *** Lexical grammar (ECMA-404 / ECMA-262 25.5.1) *)

Inductive token : Type :=
| TLBrace | TRBrace | TLBrack | TRBrack | TColon | TComma
| TStr (s : jsstring)
| TNum (lexeme : jsstring)
| TTrue | TFalse | TNull.

(** JSON whitespace: tab, line feed, carriage return, space. *)
Definition isJsonSpace (c : N) : bool :=
  (c =? 9) || (c =? 10) || (c =? 13) || (c =? 32).

Definition isDigit (c : N) : bool := (48 <=? c) && (c <=? 57).

Definition hexVal (c : N) : option N :=
  if (48 <=? c) && (c <=? 57) then Some (c - 48)
  else if (97 <=? c) && (c <=? 102) then Some (c - 87)
  else if (65 <=? c) && (c <=? 70) then Some (c - 55)
  else None.

Definition hex4 (a b c d : N) : option N :=
  match hexVal a, hexVal b, hexVal c, hexVal d with
  | Some x, Some y, Some z, Some w => Some (4096 * x + 256 * y + 16 * z + w)
  | _, _, _, _ => None
  end.

(** The single-character escapes: quote, backslash, slash, b f n r t. *)
Definition simpleEscape (e : N) : option N :=
  if e =? 34 then Some 34
  else if e =? 92 then Some 92
  else if e =? 47 then Some 47
  else if e =? 98 then Some 8
  else if e =? 102 then Some 12
  else if e =? 110 then Some 10
  else if e =? 114 then Some 13
  else if e =? 116 then Some 9
  else None.

Definition consFst (c : N) (r : option (jsstring * jsstring))
  : option (jsstring * jsstring) :=
  match r with
  | Some (v, rest) => Some (c :: v, rest)
  | None => None
  end.

(** Characters of a string literal after its opening quote, up to and
    including the closing quote; returns the string value and what follows. *)
Fixpoint lexString (s : jsstring) : option (jsstring * jsstring) :=
  match s with
  | [] => None
  | c :: r =>
      if c =? 34 then Some ([], r)
      else if c =? 92 then
        match r with
        | [] => None
        | e :: r1 =>
            if e =? 117 then
              match r1 with
              | h1 :: h2 :: h3 :: h4 :: r2 =>
                  match hex4 h1 h2 h3 h4 with
                  | Some v => consFst v (lexString r2)
                  | None => None
                  end
              | _ => None
              end
            else
              match simpleEscape e with
              | Some v => consFst v (lexString r1)
              | None => None
              end
        end
      else if c <? 32 then None
      else consFst c (lexString r)
  end.

Fixpoint takeDigits (s : jsstring) : jsstring * jsstring :=
  match s with
  | c :: r =>
      if isDigit c then let (ds, rest) := takeDigits r in (c :: ds, rest)
      else ([], s)
  | [] => ([], [])
  end.

(** int: a single 0, or a non-zero digit followed by digits. *)
Definition lexInt (s : jsstring) : option (jsstring * jsstring) :=
  match s with
  | c :: r =>
      if c =? 48 then Some ([48], r)
      else if isDigit c then let (ds, rest) := takeDigits r in Some (c :: ds, rest)
      else None
  | [] => None
  end.

(** frac: a dot followed by at least one digit (optional as a whole). *)
Definition lexFrac (s : jsstring) : option (jsstring * jsstring) :=
  match s with
  | c :: r =>
      if c =? 46 then
        match takeDigits r with
        | ([], _) => None
        | (ds, rest) => Some (46 :: ds, rest)
        end
      else Some ([], s)
  | [] => Some ([], [])
  end.

(** exp: e or E, an optional sign, at least one digit (optional as a whole). *)
Definition lexExp (s : jsstring) : option (jsstring * jsstring) :=
  match s with
  | c :: r =>
      if (c =? 101) || (c =? 69) then
        let (sign, r1) :=
          match r with
          | g :: r' => if (g =? 43) || (g =? 45) then ([g], r') else ([], r)
          | [] => ([], r)
          end in
        match takeDigits r1 with
        | ([], _) => None
        | (ds, rest) => Some (c :: sign ++ ds, rest)
        end
      else Some ([], s)
  | [] => Some ([], [])
  end.

Definition lexNumber (s : jsstring) : option (jsstring * jsstring) :=
  let (sign, s1) :=
    match s with
    | c :: r => if c =? 45 then ([45], r) else ([], s)
    | [] => ([], s)
    end in
  match lexInt s1 with
  | None => None
  | Some (i, s2) =>
      match lexFrac s2 with
      | None => None
      | Some (f, s3) =>
          match lexExp s3 with
          | None => None
          | Some (e, s4) => Some (sign ++ i ++ f ++ e, s4)
          end
      end
  end.

Fixpoint dropPrefix (p s : jsstring) : option jsstring :=
  match p, s with
  | [], _ => Some s
  | a :: p', b :: s' => if a =? b then dropPrefix p' s' else None
  | _ :: _, [] => None
  end.

Definition consTok (t : token) (r : result (list token)) : result (list token) :=
  match r with
  | Ok ts => Ok (t :: ts)
  | SyntaxError => SyntaxError
  | OutOfFuel => OutOfFuel
  end.

Fixpoint tokenize (fuel : nat) (s : jsstring) : result (list token) :=
  match fuel with
  | O => OutOfFuel
  | S fuel' =>
      match s with
      | [] => Ok []
      | c :: r =>
          if isJsonSpace c then tokenize fuel' r
          else if c =? 123 then consTok TLBrace (tokenize fuel' r)
          else if c =? 125 then consTok TRBrace (tokenize fuel' r)
          else if c =? 91 then consTok TLBrack (tokenize fuel' r)
          else if c =? 93 then consTok TRBrack (tokenize fuel' r)
          else if c =? 58 then consTok TColon (tokenize fuel' r)
          else if c =? 44 then consTok TComma (tokenize fuel' r)
          else if c =? 34 then
            match lexString r with
            | Some (v, rest) => consTok (TStr v) (tokenize fuel' rest)
            | None => SyntaxError
            end
          else if (c =? 45) || isDigit c then
            match lexNumber s with
            | Some (l, rest) => consTok (TNum l) (tokenize fuel' rest)
            | None => SyntaxError
            end
          else if c =? 116 then
            match dropPrefix (js "true") s with
            | Some rest => consTok TTrue (tokenize fuel' rest)
            | None => SyntaxError
            end
          else if c =? 102 then
            match dropPrefix (js "false") s with
            | Some rest => consTok TFalse (tokenize fuel' rest)
            | None => SyntaxError
            end
          else if c =? 110 then
            match dropPrefix (js "null") s with
            | Some rest => consTok TNull (tokenize fuel' rest)
            | None => SyntaxError
            end
          else SyntaxError
      end
  end.

(** *** Values and the syntactic grammar *)

(** A number keeps the text it was written with; its conversion by
    [String(x)] is a parameter of the development (see [String_]). *)
Inductive JSValue : Type :=
| JNull
| JBool (b : bool)
| JNum (lexeme : jsstring)
| JStr (s : jsstring)
| JArr (elems : list JSValue)
| JObj (members : list (jsstring * JSValue)).

Definition consVal (v : JSValue) (r : result (list JSValue * list token))
  : result (list JSValue * list token) :=
  match r with
  | Ok (vs, rest) => Ok (v :: vs, rest)
  | SyntaxError => SyntaxError
  | OutOfFuel => OutOfFuel
  end.

Definition consMem (kv : jsstring * JSValue)
  (r : result (list (jsstring * JSValue) * list token))
  : result (list (jsstring * JSValue) * list token) :=
  match r with
  | Ok (ms, rest) => Ok (kv :: ms, rest)
  | SyntaxError => SyntaxError
  | OutOfFuel => OutOfFuel
  end.

Fixpoint parseValue (fuel : nat) (ts : list token)
  : result (JSValue * list token) :=
  match fuel with
  | O => OutOfFuel
  | S fuel' =>
      match ts with
      | TStr s :: r => Ok (JStr s, r)
      | TNum l :: r => Ok (JNum l, r)
      | TTrue :: r => Ok (JBool true, r)
      | TFalse :: r => Ok (JBool false, r)
      | TNull :: r => Ok (JNull, r)
      | TLBrack :: TRBrack :: r => Ok (JArr [], r)
      | TLBrack :: r =>
          match parseElements fuel' r with
          | Ok (vs, rest) => Ok (JArr vs, rest)
          | SyntaxError => SyntaxError
          | OutOfFuel => OutOfFuel
          end
      | TLBrace :: TRBrace :: r => Ok (JObj [], r)
      | TLBrace :: r =>
          match parseMembers fuel' r with
          | Ok (ms, rest) => Ok (JObj ms, rest)
          | SyntaxError => SyntaxError
          | OutOfFuel => OutOfFuel
          end
      | _ => SyntaxError
      end
  end
with parseElements (fuel : nat) (ts : list token)
  : result (list JSValue * list token) :=
  match fuel with
  | O => OutOfFuel
  | S fuel' =>
      match parseValue fuel' ts with
      | Ok (v, TComma :: r) => consVal v (parseElements fuel' r)
      | Ok (v, TRBrack :: r) => Ok ([v], r)
      | Ok _ => SyntaxError
      | SyntaxError => SyntaxError
      | OutOfFuel => OutOfFuel
      end
  end
with parseMembers (fuel : nat) (ts : list token)
  : result (list (jsstring * JSValue) * list token) :=
  match fuel with
  | O => OutOfFuel
  | S fuel' =>
      match ts with
      | TStr k :: TColon :: r =>
          match parseValue fuel' r with
          | Ok (v, TComma :: r') => consMem (k, v) (parseMembers fuel' r')
          | Ok (v, TRBrace :: r') => Ok ([(k, v)], r')
          | Ok _ => SyntaxError
          | SyntaxError => SyntaxError
          | OutOfFuel => OutOfFuel
          end
      | _ => SyntaxError
      end
  end.

(** [JSON.parse(text)]: one value, nothing but whitespace around it. *)
Definition JSON_parse (text : jsstring) : result JSValue :=
  match tokenize (S (length text)) text with
  | Ok ts =>
      match parseValue (2 * length ts + 2) ts with
      | Ok (v, []) => Ok v
      | Ok (_, _ :: _) => SyntaxError
      | SyntaxError => SyntaxError
      | OutOfFuel => OutOfFuel
      end
  | SyntaxError => SyntaxError
  | OutOfFuel => OutOfFuel
  end.

(** *** [String(x)] on a parsed value (ECMA-262 ToString) *)

Section Coercion.

(** [Number::toString] applied to the number a JSON number literal denotes.
    It is floating-point formatting and stays a parameter. *)
Variable Number_toString : jsstring -> jsstring.

Definition bindCat (sep : jsstring) (a b : option jsstring) (last : bool)
  : option jsstring :=
  match a, b with
  | Some x, Some y => Some (if last then x else x ++ sep ++ y)
  | _, _ => None
  end.

(** [String(v)]; [None] is a thrown TypeError. An array is joined with
    commas, null elements giving the empty string. A plain object gives
    [object Object] through [Object.prototype.toString], unless it has an own
    [toString] member: a parsed member is never callable, the inherited
    [valueOf] returns the object itself, and OrdinaryToPrimitive throws. *)
Fixpoint String_ (v : JSValue) : option jsstring :=
  match v with
  | JNull => Some (js "null")
  | JBool true => Some (js "true")
  | JBool false => Some (js "false")
  | JNum l => Some (Number_toString l)
  | JStr s => Some s
  | JArr vs =>
      (fix joinElems (l : list JSValue) : option jsstring :=
         match l with
         | [] => Some []
         | x :: r =>
             bindCat (js ",")
               (match x with JNull => Some [] | _ => String_ x end)
               (joinElems r)
               (match r with [] => true | _ => false end)
         end) vs
  | JObj ms =>
      if existsb (fun kv => str_eqb (fst kv) (js "toString")) ms then None
      else Some (js "[object Object]")
  end.

(** [arr.map(String)]; [None] when one of the conversions throws. *)
Fixpoint mapString (vs : list JSValue) : option (list jsstring) :=
  match vs with
  | [] => Some []
  | v :: r =>
      match String_ v, mapString r with
      | Some s, Some l => Some (s :: l)
      | _, _ => None
      end
  end.

End Coercion.

(** *** [JSON.stringify] on an array of strings *)

Definition hexDigit (d : N) : N := if d <? 10 then 48 + d else 87 + d.

(** UnicodeEscape: backslash, u and four lower-case hexadecimal digits. *)
Definition unicodeEscape (c : N) : jsstring :=
  [92; 117; hexDigit (c / 4096); hexDigit ((c / 256) mod 16);
   hexDigit ((c / 16) mod 16); hexDigit (c mod 16)].

Definition isHighSurrogate (c : N) : bool := (55296 <=? c) && (c <=? 56319).
Definition isLowSurrogate (c : N) : bool := (56320 <=? c) && (c <=? 57343).

(** The escape of one code point that is not part of a surrogate pair. *)
Definition quoteChar (c : N) : jsstring :=
  if c =? 8 then [92; 98]
  else if c =? 9 then [92; 116]
  else if c =? 10 then [92; 110]
  else if c =? 12 then [92; 102]
  else if c =? 13 then [92; 114]
  else if c =? 34 then [92; 34]
  else if c =? 92 then [92; 92]
  else if (c <? 32) || isHighSurrogate c || isLowSurrogate c
       then unicodeEscape c
  else [c].

(** QuoteJSONString without the enclosing quotes: a high surrogate followed
    by a low one is a code point above U+FFFF and is copied; every other
    surrogate is alone and is escaped. *)
Fixpoint quoteChars (s : jsstring) : jsstring :=
  match s with
  | [] => []
  | c :: r =>
      if isHighSurrogate c then
        match r with
        | d :: r' =>
            if isLowSurrogate d then c :: d :: quoteChars r'
            else quoteChar c ++ quoteChars r
        | [] => quoteChar c
        end
      else quoteChar c ++ quoteChars r
  end.

Definition quoteJSONString (s : jsstring) : jsstring :=
  34 :: quoteChars s ++ [34].

(** [JSON.stringify(arr)] for an array of strings. *)
Definition JSON_stringify (arr : list jsstring) : jsstring :=
  91 :: join [44] (map quoteJSONString arr) ++ [93].

(** [JSON.stringify(arr, null, 2)]: one element per line, indented by two
    spaces; the empty array stays on one line. *)
Definition JSON_stringify_indent2 (arr : list jsstring) : jsstring :=
  match arr with
  | [] => [91; 93]
  | _ => [91; 10; 32; 32] ++ join [44; 10; 32; 32] (map quoteJSONString arr)
         ++ [10; 93]
  end.

(** Tokens of a non-empty array body: the strings, separated by commas. *)
Fixpoint stringToks (arr : list jsstring) : list token :=
  match arr with
  | [] => []
  | [x] => [TStr x]
  | x :: r => TStr x :: TComma :: stringToks r
  end.

(** The texts [JSON.stringify] produces for an array of strings, with or
    without indentation: [pre], [sep] and [post] are the whitespace after the
    opening bracket, after each comma and before the closing bracket. *)
Definition arrayText (pre sep post : jsstring) (arr : list jsstring) : jsstring :=
  91 :: pre ++ join (44 :: sep) (map quoteJSONString arr) ++ post ++ [93].

End Json.

Export Json.

(* ===================================================================== *)
(** ** config.js: the list editor *)
(* ===================================================================== *)

Module Config.

Section WithNumberFormat.

Variable Number_toString : jsstring -> jsstring.

(** The strict attempt of [parseToArrayLoose]: the body of its [try] block.
    [Some l] when it returns [l]; [None] when control reaches the
    comma-separated fallback, because [JSON.parse] threw, the value is not an
    array, or [map(String)] threw. *)
Definition strictArray (text : jsstring) : option (list jsstring) :=
  match JSON_parse text with
  | Ok (JArr vs) => mapString Number_toString vs
  | _ => None
  end.

(** The comma-separated fallback of [parseToArrayLoose] (lines 79-82):
    [t], then [parts], then the returned array. *)
Definition looseText (text : jsstring) : jsstring :=
  let t := trim text in
  if startsWithLBracket t && endsWithRBracket t then slice_1_m1 t else t.

Definition looseParts (text : jsstring) : list jsstring :=
  List.filter truthy (map trim (split_comma (looseText text))).

Definition looseFallback (text : jsstring) : list jsstring :=
  map stripQuotes (looseParts text).

(** The fallback as the specification words it, to be compared with
    [looseFallback]: strip one layer of bracket characters if present, split
    on commas, trim each token, strip a single layer of surrounding quote
    characters from each token, drop empty tokens. *)
Definition specFallback (text : jsstring) : list jsstring :=
  let t := if startsWithLBracket text && endsWithRBracket text
           then slice_1_m1 text else text in
  List.filter truthy (map stripQuotes (map trim (split_comma t))).

Definition parseToArrayLoose (text : jsstring) : list jsstring :=
  match strictArray text with
  | Some l => l
  | None => looseFallback text
  end.

(** *** The settings page *)

(** [#editorFeedback]: its class attribute and its text. *)
Record Feedback := {
  fb_class : string;
  fb_text : jsstring;
}.

(** The elements the editor works on. [fields] gives the value of the
    element with a given id and has no entry where [getElementById] finds
    nothing; [editor], [feedback] and [modal] are [None] when the element
    (or Bootstrap) is missing; [modal] holds whether the dialog is shown.
    The help text and the title are display only and are left out. *)
Record Page := {
  fields : gmap string jsstring;
  editor : option jsstring;
  feedback : option Feedback;
  modal : option bool;
  currentField : option string;
}.

(** How a handler ends: normally, or with the TypeError of a property
    access on [null]; either way with the page as it is then. *)
Inductive Outcome :=
| Done (p : Page)
| TypeError (p : Page).

Definition msg_vacio : jsstring :=
  js "Ingres" ++ [225] ++ js " al menos un valor (coma-separado o JSON).".
Definition msg_dominio : jsstring :=
  jsq "Solo se permiten valores: `spectralon`, `target`, `cielo`.".

Definition allowed : list jsstring :=
  [js "spectralon"; js "target"; js "cielo"].

(** [allowed.includes(v.toLowerCase())] *)
Definition isAllowed (v : jsstring) : bool :=
  existsb (str_eqb (toLowerCase v)) allowed.

(** The id [getElementById] is asked for: [null] is converted to text. *)
Definition idOf (f : option string) : string :=
  match f with Some id => id | None => "null"%string end.

(** [openEditor(field)] (lines 102-113) *)
Definition openEditor (field : string) (p : Page) : Outcome :=
  match fields p !! field, modal p, editor p with
  | Some v, Some _, Some _ =>
      let shown := JSON_stringify_indent2 (parseToArrayLoose v) in
      match feedback p with
      | None =>
          TypeError {| fields := fields p; editor := Some shown;
                       feedback := None; modal := modal p;
                       currentField := Some field |}
      | Some _ =>
          Done {| fields := fields p; editor := Some shown;
                  feedback := Some {| fb_class := "mt-2 small"; fb_text := [] |};
                  modal := Some true;
                  currentField := Some field |}
      end
  | _, _, _ => Done p
  end.

(** The two rejecting branches of [applyEditor]: the inline error. *)
Definition reject (msg : jsstring) (p : Page) : Outcome :=
  match feedback p with
  | None => TypeError p
  | Some _ =>
      Done {| fields := fields p; editor := editor p;
              feedback := Some {| fb_class := "mt-2 small text-danger";
                                  fb_text := msg |};
              modal := modal p; currentField := currentField p |}
  end.

(** [applyEditor()] (lines 115-134) *)
Definition applyEditor (p : Page) : Outcome :=
  match editor p with
  | None => TypeError p
  | Some text =>
      let arr := parseToArrayLoose text in
      match arr with
      | [] => reject msg_vacio p
      | _ =>
          if bool_decide (currentField p = Some "meas_order"%string)
             && negb (forallb isAllowed arr)
          then reject msg_dominio p
          else
            let id := idOf (currentField p) in
            Done {| fields := match fields p !! id with
                              | Some _ => <[id := JSON_stringify arr]> (fields p)
                              | None => fields p
                              end;
                    editor := editor p; feedback := feedback p;
                    modal := match modal p with
                             | Some _ => Some false
                             | None => None
                             end;
                    currentField := currentField p |}
      end
  end.

(** The value the submit handler stores into one list field (lines 161-168):
    the first [try] block, then the shared permissive parse. *)
Definition normalizeField (v : jsstring) : jsstring :=
  match JSON_parse v with
  | Ok (JArr vs) =>
      match mapString Number_toString vs with
      | Some l => JSON_stringify l
      | None => JSON_stringify (parseToArrayLoose v)
      end
  | _ => JSON_stringify (parseToArrayLoose v)
  end.

Definition listFields : list string := ["meas_order"; "target_list"]%string.

(** The submit handler of the settings form (lines 157-170). *)
Definition submitConfig (p : Page) : Page :=
  {| fields :=
       foldl (fun m id =>
                match m !! id with
                | Some v => <[id := normalizeField v]> m
                | None => m
                end) (fields p) listFields;
     editor := editor p; feedback := feedback p; modal := modal p;
     currentField := currentField p |}.

End WithNumberFormat.

End Config.


(* ===================================================================== *)
(** ** index.js: selection guard, submission and reset *)
(* ===================================================================== *)

(** [index.js] holds two revisions of the page script one after the other;
    the consolidated one (from line 247 on) is the one embedded here. *)

Module Index.

(** *** The page *)

(** [#tipo-medicion]: its value and whether its class list has the two
    derived classes. *)
Record Select := {
  sel_value : jsstring;
  sel_agua : bool;
  sel_suelo : bool;
}.

(** The file input named zipfile: the names of the chosen files. *)
Record FileInput := {
  fi_files : list jsstring;
  fi_disabled : bool;
}.

(** The submit control. *)
Record Button := {
  btn_disabled : bool;
  btn_text : jsstring;
}.

(** What [#nombre-carpeta-datos] shows: the three spans the script writes
    into it, or the markup the server rendered. *)
Inductive Label :=
| LabelMuted                      (* text-muted: no file selected *)
| LabelSuccess (nombre : jsstring) (* text-success: file selected *)
| LabelWarning (msg : jsstring)    (* text-warning: a file is required *)
| LabelRendered.

(** [#nombre-spectralon] *)
Record SpectralonLabel := {
  sp_text : jsstring;
  sp_muted : bool;
  sp_data_default : option jsstring;
}.

(** Every element the script looks up may be missing from the page, in which
    case the lookup gives [null]; [#form-datos] is present, the submit
    handler being bound to it. *)
Record Dom := {
  tipoSelect : option Select;
  hiddenMedicion : option jsstring;
  inputArchivo : option FileInput;
  btnProcesar : option Button;
  formDatos_busy : bool;            (* class opacity-75 on the form *)
  nombreSpan : option Label;
  logArea : option jsstring;        (* value of #log-area *)
  inputSpectralon : option (list jsstring);
  nombreSpectralon : option SpectralonLabel;
  sessionStorage : gmap string jsstring;
}.

Definition set_tipoSelect (x : option Select) (d : Dom) : Dom :=
  {| tipoSelect := x; hiddenMedicion := hiddenMedicion d;
     inputArchivo := inputArchivo d; btnProcesar := btnProcesar d;
     formDatos_busy := formDatos_busy d; nombreSpan := nombreSpan d;
     logArea := logArea d; inputSpectralon := inputSpectralon d;
     nombreSpectralon := nombreSpectralon d;
     sessionStorage := sessionStorage d |}.

Definition set_hiddenMedicion (x : option jsstring) (d : Dom) : Dom :=
  {| tipoSelect := tipoSelect d; hiddenMedicion := x;
     inputArchivo := inputArchivo d; btnProcesar := btnProcesar d;
     formDatos_busy := formDatos_busy d; nombreSpan := nombreSpan d;
     logArea := logArea d; inputSpectralon := inputSpectralon d;
     nombreSpectralon := nombreSpectralon d;
     sessionStorage := sessionStorage d |}.

Definition set_inputArchivo (x : option FileInput) (d : Dom) : Dom :=
  {| tipoSelect := tipoSelect d; hiddenMedicion := hiddenMedicion d;
     inputArchivo := x; btnProcesar := btnProcesar d;
     formDatos_busy := formDatos_busy d; nombreSpan := nombreSpan d;
     logArea := logArea d; inputSpectralon := inputSpectralon d;
     nombreSpectralon := nombreSpectralon d;
     sessionStorage := sessionStorage d |}.

Definition set_btnProcesar (x : option Button) (d : Dom) : Dom :=
  {| tipoSelect := tipoSelect d; hiddenMedicion := hiddenMedicion d;
     inputArchivo := inputArchivo d; btnProcesar := x;
     formDatos_busy := formDatos_busy d; nombreSpan := nombreSpan d;
     logArea := logArea d; inputSpectralon := inputSpectralon d;
     nombreSpectralon := nombreSpectralon d;
     sessionStorage := sessionStorage d |}.

Definition set_busy (x : bool) (d : Dom) : Dom :=
  {| tipoSelect := tipoSelect d; hiddenMedicion := hiddenMedicion d;
     inputArchivo := inputArchivo d; btnProcesar := btnProcesar d;
     formDatos_busy := x; nombreSpan := nombreSpan d;
     logArea := logArea d; inputSpectralon := inputSpectralon d;
     nombreSpectralon := nombreSpectralon d;
     sessionStorage := sessionStorage d |}.

Definition set_nombreSpan (x : option Label) (d : Dom) : Dom :=
  {| tipoSelect := tipoSelect d; hiddenMedicion := hiddenMedicion d;
     inputArchivo := inputArchivo d; btnProcesar := btnProcesar d;
     formDatos_busy := formDatos_busy d; nombreSpan := x;
     logArea := logArea d; inputSpectralon := inputSpectralon d;
     nombreSpectralon := nombreSpectralon d;
     sessionStorage := sessionStorage d |}.

Definition set_logArea (x : option jsstring) (d : Dom) : Dom :=
  {| tipoSelect := tipoSelect d; hiddenMedicion := hiddenMedicion d;
     inputArchivo := inputArchivo d; btnProcesar := btnProcesar d;
     formDatos_busy := formDatos_busy d; nombreSpan := nombreSpan d;
     logArea := x; inputSpectralon := inputSpectralon d;
     nombreSpectralon := nombreSpectralon d;
     sessionStorage := sessionStorage d |}.

Definition set_spectralon (x : option (list jsstring))
  (y : option SpectralonLabel) (d : Dom) : Dom :=
  {| tipoSelect := tipoSelect d; hiddenMedicion := hiddenMedicion d;
     inputArchivo := inputArchivo d; btnProcesar := btnProcesar d;
     formDatos_busy := formDatos_busy d; nombreSpan := nombreSpan d;
     logArea := logArea d; inputSpectralon := x;
     nombreSpectralon := y;
     sessionStorage := sessionStorage d |}.

Definition set_sessionStorage (x : gmap string jsstring) (d : Dom) : Dom :=
  {| tipoSelect := tipoSelect d; hiddenMedicion := hiddenMedicion d;
     inputArchivo := inputArchivo d; btnProcesar := btnProcesar d;
     formDatos_busy := formDatos_busy d; nombreSpan := nombreSpan d;
     logArea := logArea d; inputSpectralon := inputSpectralon d;
     nombreSpectralon := nombreSpectralon d;
     sessionStorage := x |}.

(** The six statements of the reset handler's [try] block. *)
Inductive ResetStep :=
| ClearStorage      (* sessionStorage.clear() *)
| ResetTipo         (* measurement-type control *)
| ClearPicker       (* inputArchivo.value emptied *)
| ResetLabel        (* status label *)
| ClearLog          (* logArea.value emptied *)
| ResetSpectralon.  (* secondary picker and its label *)

(** *** What a handler does to the world outside the page *)

Inductive Event :=
| EPreventDefault
| EToast (msg : jsstring)              (* mostrarToast(msg) *)
| EAlert (msg : jsstring)              (* alert(msg) *)
| ESetProcesando (isOn : bool)         (* a call of setProcesando *)
| EAppendLog (msg : jsstring)          (* a call of appendLog *)
| EFetch                               (* the POST to formDatos.action *)
| EDownload (filename blob : jsstring) (* a.click() with a.download set *)
| EPlayDoneSound
| EConsoleWarn (msg err : jsstring)
| EReset (step : ResetStep).           (* a reset statement was executed *)

(** Globals of other scripts that may or may not be there, and the clock. *)
Record Env := {
  has_mostrarToast : bool;    (* typeof mostrarToast === 'function' *)
  has_playDoneSound : bool;   (* typeof playDoneSound === 'function' *)
  timestamp : jsstring;       (* new Date().toLocaleString('es-AR', ...) *)
}.

(** *** Commands: page state, trace and completion *)

Inductive Completion :=
| Normal
| Returned                      (* a [return] statement was executed *)
| Thrown (err : jsstring).      (* an exception is propagating *)

Definition State : Type := Dom * list Event.
Definition Cmd : Type := State → State * Completion.

Definition skip : Cmd := fun s => (s, Normal).
Definition return_ : Cmd := fun s => (s, Returned).
Definition throw (err : jsstring) : Cmd := fun s => (s, Thrown err).
Definition emit (e : Event) : Cmd := fun s => ((s.1, s.2 ++ [e]), Normal).
Definition update (f : Dom → Dom) : Cmd := fun s => ((f s.1, s.2), Normal).
Definition withDom (k : Dom → Cmd) : Cmd := fun s => k s.1 s.

Definition seq (c1 c2 : Cmd) : Cmd :=
  fun s => match c1 s with
           | (s1, Normal) => c2 s1
           | r => r
           end.

(** [try { body } catch (err) { handler } finally { final }]: the handler
    runs on a throw of the body; the final block runs on every exit of the
    body or of the handler, and its own abrupt completion would take over. *)
Definition try_catch_finally (body : Cmd) (handler : jsstring → Cmd)
  (final : Cmd) : Cmd :=
  fun s =>
    let (s1, c1) := match body s with
                    | (s', Thrown err) => handler err s'
                    | r => r
                    end in
    match final s1 with
    | (s2, Normal) => (s2, c1)
    | r => r
    end.

(** [try { body } catch (err) { handler }] *)
Definition try_catch (body : Cmd) (handler : jsstring → Cmd) : Cmd :=
  fun s => match body s with
           | (s', Thrown err) => handler err s'
           | r => r
           end.

Declare Scope cmd_scope.
Delimit Scope cmd_scope with cmd.
Bind Scope cmd_scope with Cmd.
Notation "c1 ;; c2" := (seq c1 c2)
  (at level 100, c2 at level 200, right associativity) : cmd_scope.
Local Open Scope cmd_scope.

(** *** Messages *)

Definition warning_sign : jsstring := [9888; 65039].
Definition info_sign : jsstring := [8505; 65039].

Definition msg_falta_tipo : jsstring :=
  warning_sign ++ js " Selecciona un tipo de medici" ++ [243]
  ++ js "n antes de procesar.".
Definition msg_falta_zip : jsstring :=
  warning_sign ++ js " Debes seleccionar un archivo ZIP antes de procesar.".
Definition msg_label_zip : jsstring := js "Debes seleccionar un archivo ZIP.".
Definition msg_label_recargar : jsstring :=
  js "Debes volver a cargar el archivo ZIP antes de procesar.".
Definition msg_config : jsstring :=
  info_sign ++ js " Modificaste Configuraciones. Por favor, vuelve a cargar el archivo ZIP antes de procesar.".
Definition msg_cambio_tipo : jsstring :=
  info_sign ++ js " Cambiaste el tipo de medici" ++ [243]
  ++ js "n. Verifica que el ZIP corresponda al tipo seleccionado.".
Definition msg_iniciando : jsstring :=
  [9203] ++ js " Iniciando procesamiento" ++ [8230].
Definition msg_completado : jsstring :=
  [9989] ++ js " Procesamiento completado. Descarga iniciada.".
Definition msg_error_cliente (err : jsstring) : jsstring :=
  [10060] ++ js " Error de red o del cliente: " ++ err.
Definition label_procesando : jsstring := js "Procesando" ++ [8230].
Definition label_procesar : jsstring := js "Procesar y descargar".
Definition default_filename : jsstring := js "resultados.zip".
Definition default_spectralon : jsstring := js "SRT-99-120.txt (por defecto)".
Definition msg_limpieza : jsstring :=
  js "No se pudo limpiar completamente el estado local:".

(** Decimal text of an HTTP status. *)
Definition decimal (n : N) : jsstring :=
  js (NilZero.string_of_uint (N.to_uint n)).

(** The template of line 444, trimmed. *)
Definition msg_error_servidor (status : N) (txt : jsstring) : jsstring :=
  trim ([10060] ++ js " Error del servidor (" ++ decimal status ++ js "). "
        ++ txt).

(** *** Helpers of the page script *)

Definition hayTipo (d : Dom) : bool :=
  match tipoSelect d with
  | Some sel => truthy (sel_value sel)
  | None => false
  end.

Definition tieneArchivo (d : Dom) : bool :=
  match inputArchivo d with
  | Some fi => match fi_files fi with [] => false | _ => true end
  | None => false
  end.

(** The toast of the layout script when it is loaded, [alert] otherwise. *)
Definition warnEvent (env : Env) (msg : jsstring) : Event :=
  if has_mostrarToast env then EToast msg else EAlert msg.

Definition warn (env : Env) (msg : jsstring) : Cmd :=
  emit (warnEvent env msg).

Definition setProcesando (isOn : bool) : Cmd :=
  emit (ESetProcesando isOn);;
  update (fun d =>
    match btnProcesar d with
    | None => d
    | Some _ =>
        if isOn
        then set_busy true
               (set_btnProcesar
                  (Some {| btn_disabled := true; btn_text := label_procesando |}) d)
        else set_busy false
               (set_btnProcesar
                  (Some {| btn_disabled := false; btn_text := label_procesar |}) d)
    end).

Definition setNombreArchivoOk (nombre : jsstring) : Cmd :=
  update (fun d =>
    match nombreSpan d with
    | None => d
    | Some _ =>
        if truthy nombre then set_nombreSpan (Some (LabelSuccess nombre)) d
        else set_nombreSpan (Some LabelMuted) d
    end).

Definition setNombreArchivoRequerido (msg : jsstring) : Cmd :=
  update (fun d =>
    match nombreSpan d with
    | None => d
    | Some _ => set_nombreSpan (Some (LabelWarning msg)) d
    end).

Definition habilitarCargaSiHayTipo : Cmd :=
  update (fun d =>
    let h := hayTipo d in
    let d1 := match inputArchivo d with
              | Some fi =>
                  set_inputArchivo
                    (Some {| fi_files := fi_files fi; fi_disabled := negb h |}) d
              | None => d
              end in
    match btnProcesar d1 with
    | Some b =>
        set_btnProcesar
          (Some {| btn_disabled := negb h; btn_text := btn_text b |}) d1
    | None => d1
    end).

Definition aplicarColorSelect : Cmd :=
  update (fun d =>
    match tipoSelect d with
    | None => d
    | Some sel =>
        let v := toLowerCase (sel_value sel) in
        set_tipoSelect
          (Some {| sel_value := sel_value sel;
                   sel_agua := str_eqb v (js "agua");
                   sel_suelo := str_eqb v (js "suelo") |}) d
    end).

(** [appendLog(msg)] of the log helpers at the end of the file. *)
Definition appendLog (env : Env) (msg : jsstring) : Cmd :=
  emit (EAppendLog msg);;
  update (fun d =>
    match logArea d with
    | None => d
    | Some v =>
        set_logArea
          (Some ((if truthy v then v ++ [10] else [])
                 ++ [91] ++ timestamp env ++ [93; 32] ++ msg)) d
    end).

Definition storage_is (key : string) (v : jsstring) (d : Dom) : bool :=
  match sessionStorage d !! key with
  | Some x => str_eqb x v
  | None => false
  end.

(** *** Initial state (lines 311-329) *)

Definition init (env : Env) : Cmd :=
  update (fun d =>
    match hiddenMedicion d, tipoSelect d with
    | Some _, Some sel => set_hiddenMedicion (Some (sel_value sel)) d
    | _, _ => d
    end);;
  aplicarColorSelect;;
  habilitarCargaSiHayTipo;;
  withDom (fun d =>
    if storage_is "fue_config_con_zip" (js "1") d then
      update (fun d =>
        set_sessionStorage
          (delete "zip_name"
             (delete "archivo_seleccionado"
                (delete "fue_config_con_zip" (sessionStorage d)))) d);;
      warn env msg_config;;
      setNombreArchivoRequerido msg_label_recargar
    else setNombreArchivoOk []).

(** *** Change of the measurement type (lines 332-348) *)

(** The handler itself; the control already holds the new value. *)
Definition onTipoChange (env : Env) : Cmd :=
  withDom (fun d =>
    let valor := match tipoSelect d with
                 | Some sel => sel_value sel
                 | None => []
                 end in
    update (fun d =>
      match hiddenMedicion d with
      | Some _ => set_hiddenMedicion (Some valor) d
      | None => d
      end);;
    aplicarColorSelect;;
    habilitarCargaSiHayTipo;;
    withDom (fun d =>
      if storage_is "archivo_seleccionado" (js "1") d
      then warn env msg_cambio_tipo
      else skip)).

(** The user picks the option with value [v]: the browser stores it in the
    control and dispatches the change event. Without the control there is
    nothing to pick from. *)
Definition userSelectsTipo (env : Env) (v : jsstring) : Cmd :=
  withDom (fun d =>
    match tipoSelect d with
    | None => skip
    | Some sel =>
        update (set_tipoSelect
                  (Some {| sel_value := v; sel_agua := sel_agua sel;
                           sel_suelo := sel_suelo sel |}));;
        onTipoChange env
    end).

(** *** The exchange, as the handler observes it *)

Inductive Settled (A : Type) : Type :=
| Fulfilled (a : A)
| Rejected (err : jsstring).
Arguments Fulfilled {A} a.
Arguments Rejected {A} err.

Record Response := {
  resp_ok : bool;
  resp_status : N;
  resp_text : Settled jsstring;       (* resp.text() *)
  resp_blob : Settled jsstring;       (* resp.blob() *)
  resp_content_disposition : option jsstring;  (* headers.get(...) *)
}.

(** Everything outside the script that decides which way a submission goes:
    how [fetch] settles, and whether the download steps or the completion
    sound throw. *)
Record Exchange := {
  fetch_result : Settled Response;
  download_error : option jsstring;
  sound_error : option jsstring;
}.

(** *** The filename pattern of line 451

    [dispo.match(re)] where [re] is, case-insensitively, the word filename,
    an equals sign, a double quote, a captured non-empty run of characters
    other than the double quote, and a double quote. *)

(** The pattern letters, matched without regard to ASCII case. *)
Fixpoint dropPrefixCI (p s : jsstring) : option jsstring :=
  match p, s with
  | [], _ => Some s
  | a :: p', b :: s' => if a =? lowerChar b then dropPrefixCI p' s' else None
  | _ :: _, [] => None
  end.

Fixpoint spanNotQuote (s : jsstring) : jsstring * jsstring :=
  match s with
  | c :: r =>
      if c =? 34 then ([], s)
      else let (v, rest) := spanNotQuote r in (c :: v, rest)
  | [] => ([], [])
  end.

(** A match starting at the first code unit of [s]: the keyword and the
    opening quote, then the longest run without a quote, which must be
    non-empty and followed by a quote. The capture is that run. *)
Definition matchAt (s : jsstring) : option jsstring :=
  match dropPrefixCI (jsq "filename=`") s with
  | None => None
  | Some r =>
      match spanNotQuote r with
      | ([], _) => None
      | (v, 34 :: _) => Some v
      | (_, _) => None
      end
  end.

(** The leftmost match, [m[1]]; [None] when [match] returns [null]. *)
Fixpoint matchFilename (s : jsstring) : option jsstring :=
  match matchAt s with
  | Some v => Some v
  | None =>
      match s with
      | [] => None
      | _ :: r => matchFilename r
      end
  end.

Definition filenameOf (r : Response) : jsstring :=
  let dispo := match resp_content_disposition r with
               | Some h => h
               | None => []
               end in
  match matchFilename dispo with
  | Some v => v
  | None => default_filename
  end.

(** *** Submission (lines 410-472) *)

Definition orThrow (e : option jsstring) (c : Cmd) : Cmd :=
  match e with
  | Some err => throw err
  | None => c
  end.

Definition submitHandler (env : Env) (x : Exchange) : Cmd :=
  emit EPreventDefault;;
  withDom (fun d =>
    if negb (hayTipo d) then
      warn env msg_falta_tipo;;
      return_
    else if negb (tieneArchivo d) then
      warn env msg_falta_zip;;
      setNombreArchivoRequerido msg_label_zip;;
      return_
    else
      setProcesando true;;
      appendLog env msg_iniciando;;
      try_catch_finally
        (emit EFetch;;
         match fetch_result x with
         | Rejected err => throw err
         | Fulfilled resp =>
             if negb (resp_ok resp) then
               let txt := match resp_text resp with
                          | Fulfilled t => t
                          | Rejected _ => []
                          end in
               appendLog env (msg_error_servidor (resp_status resp) txt);;
               setProcesando false;;
               return_
             else
               match resp_blob resp with
               | Rejected err => throw err
               | Fulfilled blob =>
                   orThrow (download_error x)
                     (emit (EDownload (filenameOf resp) blob));;
                   appendLog env msg_completado;;
                   if has_playDoneSound env
                   then orThrow (sound_error x) (emit EPlayDoneSound)
                   else skip
               end
         end)
        (fun err => appendLog env (msg_error_cliente err))
        (setProcesando false)).

(** *** Reset (lines 494-519) *)

(** What each statement of the [try] block does to the page. *)
Definition resetEffect (step : ResetStep) (d : Dom) : Dom :=
  match step with
  | ClearStorage => set_sessionStorage ∅ d
  | ResetTipo =>
      match tipoSelect d with
      | Some _ =>
          set_tipoSelect
            (Some {| sel_value := []; sel_agua := false; sel_suelo := false |}) d
      | None => d
      end
  | ClearPicker =>
      match inputArchivo d with
      | Some fi =>
          set_inputArchivo
            (Some {| fi_files := []; fi_disabled := fi_disabled fi |}) d
      | None => d
      end
  | ResetLabel =>
      match nombreSpan d with
      | Some _ => set_nombreSpan (Some LabelMuted) d
      | None => d
      end
  | ClearLog =>
      match logArea d with
      | Some _ => set_logArea (Some []) d
      | None => d
      end
  | ResetSpectralon =>
      match inputSpectralon d, nombreSpectralon d with
      | Some _, Some lbl =>
          let def := match sp_data_default lbl with
                     | Some a => if truthy a then a else default_spectralon
                     | None => default_spectralon
                     end in
          set_spectralon (Some [])
            (Some {| sp_text := def; sp_muted := true;
                     sp_data_default := sp_data_default lbl |}) d
      | _, _ => d
      end
  end.

(** One statement of the [try] block: it throws if the oracle [fails] says
    so and has its effect otherwise. *)
Definition resetStep (fails : ResetStep → option jsstring) (step : ResetStep)
  : Cmd :=
  orThrow (fails step) (emit (EReset step);; update (resetEffect step)).

Definition resetHandler (fails : ResetStep → option jsstring) : Cmd :=
  try_catch
    (resetStep fails ClearStorage;;
     resetStep fails ResetTipo;;
     resetStep fails ClearPicker;;
     resetStep fails ResetLabel;;
     resetStep fails ClearLog;;
     resetStep fails ResetSpectralon)
    (fun err => emit (EConsoleWarn msg_limpieza err)).

(** *** Observations on a trace *)

(** How many times the in-flight state was released. *)
Definition isRelease (e : Event) : bool :=
  match e with ESetProcesando false => true | _ => false end.

Definition releases (t : list Event) : nat := length (List.filter isRelease t).

Definition isFetch (e : Event) : bool :=
  match e with EFetch => true | _ => false end.

(** The reset statements that were executed, in order. *)
Fixpoint executed (t : list Event) : list ResetStep :=
  match t with
  | [] => []
  | EReset step :: r => step :: executed r
  | _ :: r => executed r
  end.

Definition allSteps : list ResetStep :=
  [ClearStorage; ResetTipo; ClearPicker; ResetLabel; ClearLog; ResetSpectralon].

Fixpoint stepsBefore (fails : ResetStep → option jsstring)
  (steps : list ResetStep) : list ResetStep :=
  match steps with
  | [] => []
  | step :: r =>
      match fails step with
      | Some _ => []
      | None => step :: stepsBefore fails r
      end
  end.

Fixpoint firstFailure (fails : ResetStep → option jsstring)
  (steps : list ResetStep) : option jsstring :=
  match steps with
  | [] => None
  | step :: r =>
      match fails step with
      | Some err => Some err
      | None => firstFailure fails r
      end
  end.

Definition isConsoleWarn (e : Event) : bool :=
  match e with EConsoleWarn _ _ => true | _ => false end.

Definition isDownload (e : Event) : bool :=
  match e with EDownload _ _ => true | _ => false end.

(** What it is for the pattern of line 451 to match: [MatchesAt s v] when a
    match with capture [v] starts at the first code unit of [s], and
    [LeftmostMatch h v] when the first match in [h] has capture [v]. *)
Definition MatchesAt (s v : jsstring) : Prop :=
  ∃ kw post, s = kw ++ 34 :: v ++ 34 :: post
             ∧ toLowerCase kw = js "filename="
             ∧ v ≠ [] ∧ ¬ In 34 v.

Definition LeftmostMatch (h v : jsstring) : Prop :=
  ∃ pre s, h = pre ++ s ∧ MatchesAt s v
           ∧ ∀ pre' s' v', h = pre' ++ s' → (length pre' < length pre)%nat →
                           ¬ MatchesAt s' v'.

Definition NoMatch (h : jsstring) : Prop :=
  ∀ pre s v, h = pre ++ s → ¬ MatchesAt s v.

(** *** File picker (lines 366-378) *)

(** The change handler of the picker; the picker already holds the files. *)
Definition onArchivoChange : Cmd :=
  withDom (fun d =>
    match inputArchivo d with
    | None => skip
    | Some fi =>
        match fi_files fi with
        | nombre :: _ =>
            update (fun d =>
              set_sessionStorage
                (<["archivo_seleccionado"%string := js "1"]>
                   (<["zip_name"%string := nombre]> (sessionStorage d))) d);;
            setNombreArchivoOk nombre
        | [] =>
            update (fun d =>
              set_sessionStorage
                (delete "archivo_seleccionado"%string
                   (delete "zip_name"%string (sessionStorage d))) d);;
            setNombreArchivoOk []
        end
    end).

(** What the user does on the page between the load and a submission. *)
Inductive UserAction :=
| SelectTipo (v : jsstring)            (* picks a measurement type *)
| ChooseFiles (names : list jsstring). (* closes the file dialog *)

(** The browser updates the control, then dispatches its change event.
    Without the control there is nothing to act on. *)
Definition perform (env : Env) (a : UserAction) : Cmd :=
  match a with
  | SelectTipo v => userSelectsTipo env v
  | ChooseFiles names =>
      withDom (fun d =>
        match inputArchivo d with
        | None => skip
        | Some fi =>
            update (set_inputArchivo
                      (Some {| fi_files := names;
                               fi_disabled := fi_disabled fi |}));;
            onArchivoChange
        end)
  end.

Fixpoint performAll (env : Env) (acts : list UserAction) : Cmd :=
  match acts with
  | [] => skip
  | a :: r => perform env a;; performAll env r
  end.

(** A visit of the page: the initial load, then any number of changes of the
    measurement type and of the chosen file. *)
Definition visit (env : Env) (acts : list UserAction) : Cmd :=
  init env;; performAll env acts.

(** The selection guard: the picker and the submit control are disabled
    exactly when no type is chosen. *)
Definition guardHolds (d : Dom) : Prop :=
  (∀ fi, inputArchivo d = Some fi → fi_disabled fi = negb (hayTipo d))
  ∧ (∀ b, btnProcesar d = Some b → btn_disabled b = negb (hayTipo d)).

(** Running a handler on a page: the page it leaves, what it did, and how it
    completed. The reset handler never calls [preventDefault]; the native
    submission goes ahead unless [EPreventDefault] is in the trace. *)
Definition run (c : Cmd) (d : Dom) : State * Completion := c (d, []).
Definition dom_after (c : Cmd) (d : Dom) : Dom := (run c d).1.1.
Definition trace_of (c : Cmd) (d : Dom) : list Event := (run c d).1.2.
Definition completion_of (c : Cmd) (d : Dom) : Completion := (run c d).2.

(** *** The page over its whole life

    What can happen on the page once it has loaded: the user changes the
    type or the chosen files, the data form is submitted, the reset form is
    submitted. The handlers run one at a time, each to its end and however
    it completes; a submission is taken when it has completed, with the
    exchange it met. *)
Inductive PageEvent :=
| UserDoes (a : UserAction)
| Submits (x : Exchange)
| Resets (fails : ResetStep → option jsstring).

Definition handle (env : Env) (e : PageEvent) : Cmd :=
  match e with
  | UserDoes a => perform env a
  | Submits x => submitHandler env x
  | Resets fails => resetHandler fails
  end.

Fixpoint handleAll (env : Env) (evs : list PageEvent) (s : State) : State :=
  match evs with
  | [] => s
  | e :: r => handleAll env r (handle env e s).1
  end.

(** The page that was rendered as [d0], after its load and the events. *)
Definition pageAfter (env : Env) (evs : list PageEvent) (d0 : Dom) : Dom :=
  (handleAll env evs (init env (d0, [])).1).1.




End Index.

(* ===================================================================== *)
(** ** Sample data *)
(* ===================================================================== *)

Module Samples.
Import Index.

(** A number formatter that returns the literal as written, which is what
    [Number::toString] gives on canonical integer literals. *)
Definition as_written (lexeme : jsstring) : jsstring := lexeme.

(** A page as the server renders it once a type and a file are chosen. *)
Definition sample_page : Dom :=
  {| tipoSelect := Some {| sel_value := js "agua"; sel_agua := true;
                           sel_suelo := false |};
     hiddenMedicion := Some (js "agua");
     inputArchivo := Some {| fi_files := [js "sample.zip"];
                             fi_disabled := false |};
     btnProcesar := Some {| btn_disabled := false; btn_text := label_procesar |};
     formDatos_busy := false;
     nombreSpan := Some (LabelSuccess (js "sample.zip"));
     logArea := Some [];
     inputSpectralon := Some [];
     nombreSpectralon := Some {| sp_text := default_spectralon; sp_muted := true;
                                 sp_data_default := None |};
     sessionStorage := {[ "zip_name"%string := js "sample.zip";
                          "archivo_seleccionado"%string := js "1" ]} |}.

(** The same page after the file was taken out of the picker. *)
Definition sample_page_no_file : Dom :=
  set_inputArchivo (Some {| fi_files := []; fi_disabled := false |})
    sample_page.

Definition sample_env : Env :=
  {| has_mostrarToast := true; has_playDoneSound := true;
     timestamp := js "01/11/2026, 10:00:00" |}.

Definition response_ok (disposition : option jsstring) : Response :=
  {| resp_ok := true; resp_status := 200;
     resp_text := Fulfilled []; resp_blob := Fulfilled (js "PK");
     resp_content_disposition := disposition |}.

Definition response_500 : Response :=
  {| resp_ok := false; resp_status := 500;
     resp_text := Fulfilled (js "ZIP invalido"); resp_blob := Fulfilled [];
     resp_content_disposition := None |}.

Definition exchange_of (r : Settled Response) : Exchange :=
  {| fetch_result := r; download_error := None; sound_error := None |}.

End Samples.

(* ===================================================================== *)
(** ** The list editor as a session *)
(* ===================================================================== *)

Module EditorSession.
Import Config.

Section WithNumberFormat.

Variable Number_toString : jsstring -> jsstring.

(** What can happen on the settings page: an Edit button is clicked, the
    user replaces the text of the editor, the Apply button (or
    Ctrl/Cmd+Enter) runs [applyEditor], the form is submitted. *)
Inductive Action :=
| ClickEdit (field : string)
| TypeText (text : jsstring)
| Apply
| SubmitForm.

Definition pageOf (o : Outcome) : Page :=
  match o with Done p | TypeError p => p end.

(** The page after an action; a handler that throws leaves the page as it
    was at the throw. Typing needs the editor element. *)
Definition act (a : Action) (p : Page) : Page :=
  match a with
  | ClickEdit field => pageOf (openEditor Number_toString field p)
  | TypeText text =>
      match editor p with
      | Some _ =>
          {| fields := fields p; editor := Some text; feedback := feedback p;
             modal := modal p; currentField := currentField p |}
      | None => p
      end
  | Apply => pageOf (applyEditor Number_toString p)
  | SubmitForm => submitConfig Number_toString p
  end.

Definition session (acts : list Action) (p : Page) : Page :=
  foldl (fun p a => act a p) p acts.

(** The measurement-order field holds a list the editor would accept: not
    empty and within the vocabulary. *)
Definition validOrder (p : Page) : Prop :=
  ∃ v, fields p !! "meas_order"%string = Some v
       ∧ parseToArrayLoose Number_toString v ≠ []
       ∧ forallb isAllowed (parseToArrayLoose Number_toString v) = true.

End WithNumberFormat.

(** A token of a comma-separated text that is read back as it stands: not
    empty, without a comma, not starting with white space, a quote or an
    opening bracket, not ending with white space or a quote. *)
Definition edgeOk (c : N) : bool := negb (isTrimSpace c) && negb (isQuoteChar c).

Definition plainToken (t : jsstring) : bool :=
  match t, rev t with
  | c :: _, l :: _ =>
      edgeOk c && negb (c =? 91) && edgeOk l
      && forallb (fun x => negb (x =? 44)) t
  | _, _ => false
  end.

End EditorSession.

(* ===================================================================== *)
(** ** [encodeURIComponent] *)
(* ===================================================================== *)

Module Uri.

Definition isAlnum (c : N) : bool :=
  ((48 <=? c) && (c <=? 57)) || ((65 <=? c) && (c <=? 90))
  || ((97 <=? c) && (c <=? 122)).

(** The marks left alone besides letters and digits: - _ . ! ~ * ' ( ) *)
Definition isMark (c : N) : bool :=
  (c =? 45) || (c =? 95) || (c =? 46) || (c =? 33) || (c =? 126)
  || (c =? 42) || (c =? 39) || (c =? 40) || (c =? 41).

Definition isUnreserved (c : N) : bool := isAlnum c || isMark c.

Definition hexUpper (d : N) : N := if d <? 10 then 48 + d else 55 + d.

(** A percent sign and the two upper-case hexadecimal digits of an octet. *)
Definition percent (b : N) : jsstring :=
  [37; hexUpper (b / 16); hexUpper (b mod 16)].

(** The UTF-8 octets of a code point. *)
Definition utf8 (cp : N) : list N :=
  if cp <? 128 then [cp]
  else if cp <? 2048 then [192 + cp / 64; 128 + cp mod 64]
  else if cp <? 65536
       then [224 + cp / 4096; 128 + (cp / 64) mod 64; 128 + cp mod 64]
  else [240 + cp / 262144; 128 + (cp / 4096) mod 64;
        128 + (cp / 64) mod 64; 128 + cp mod 64].

Definition escape (cp : N) : jsstring := concat (map percent (utf8 cp)).

Definition surrogatePair (hi lo : N) : N :=
  65536 + (hi - 55296) * 1024 + (lo - 56320).

Definition consOpt (pre : jsstring) (r : option jsstring) : option jsstring :=
  match r with
  | Some e => Some (pre ++ e)
  | None => None
  end.

(** [encodeURIComponent(s)]; [None] is the URIError thrown on a surrogate
    that is not part of a pair. *)
Fixpoint encodeURIComponent (s : jsstring) : option jsstring :=
  match s with
  | [] => Some []
  | c :: r =>
      if isUnreserved c then consOpt [c] (encodeURIComponent r)
      else if isHighSurrogate c then
        match r with
        | d :: r' =>
            if isLowSurrogate d
            then consOpt (escape (surrogatePair c d)) (encodeURIComponent r')
            else None
        | [] => None
        end
      else if isLowSurrogate c then None
      else consOpt (escape c) (encodeURIComponent r)
  end.

(** The characters that delimit the parts of a query string. *)
Definition isDelimiter (c : N) : bool :=
  (c =? 38) || (c =? 61) || (c =? 63) || (c =? 35) || (c =? 47)
  || (c =? 43) || (c =? 32).

End Uri.

(* ===================================================================== *)
(** ** config.js: the type selector of the settings page (lines 5-58) *)
(* ===================================================================== *)

Module Selector.
Import Uri.

(** [#tipo-config]: its value, its [data-current] attribute, the three
    classes the script manages, and the [disabled] flag of its agua and
    suelo options where the select has them. *)
Record TipoConfig := {
  tc_value : jsstring;
  tc_current : option jsstring;
  tc_agua : bool;
  tc_suelo : bool;
  tc_spectralon : bool;
  tc_aguaOpt : option bool;
  tc_sueloOpt : option bool;
}.

(** The select and the Inicio link may be missing; [location] lists the
    addresses assigned to [window.location.href], oldest first. *)
Record SettingsPage := {
  tipoConfig : option TipoConfig;
  homeHref : option jsstring;
  location : list jsstring;
}.

(** A function of the script returns, or the URIError of
    [encodeURIComponent] escapes from it. *)
Inductive Result :=
| Finished (p : SettingsPage)
| URIError (p : SettingsPage).

Definition andThen (r : Result) (k : SettingsPage → Result) : Result :=
  match r with
  | Finished p => k p
  | URIError p => URIError p
  end.

Definition resultPage (r : Result) : SettingsPage :=
  match r with Finished p | URIError p => p end.

Definition with_tipoConfig (tc : TipoConfig) (p : SettingsPage) : SettingsPage :=
  {| tipoConfig := Some tc; homeHref := homeHref p; location := location p |}.

(** [x || fallback] on an attribute that may be missing. *)
Definition orElse (x : option jsstring) (fallback : jsstring) : jsstring :=
  match x with
  | Some s => if truthy s then s else fallback
  | None => fallback
  end.

Section WithLowerCase.

(** [String.prototype.toLowerCase] of the engine, which lowers by the
    Unicode case mappings. The script compares what it returns with the
    three type words, and stores and sends it. *)
Variable lower : jsstring → jsstring.

Definition initUltimoTipo (p : SettingsPage) : SettingsPage :=
  match tipoConfig p with
  | None => p
  | Some tc =>
      let v := lower (tc_value tc) in
      if str_eqb v (js "agua") || str_eqb v (js "suelo") then
        with_tipoConfig
          {| tc_value := tc_value tc; tc_current := Some v;
             tc_agua := tc_agua tc; tc_suelo := tc_suelo tc;
             tc_spectralon := tc_spectralon tc;
             tc_aguaOpt := tc_aguaOpt tc; tc_sueloOpt := tc_sueloOpt tc |} p
      else if truthy (orElse (tc_current tc) []) then p
      else
        with_tipoConfig
          {| tc_value := tc_value tc; tc_current := Some (js "agua");
             tc_agua := tc_agua tc; tc_suelo := tc_suelo tc;
             tc_spectralon := tc_spectralon tc;
             tc_aguaOpt := tc_aguaOpt tc; tc_sueloOpt := tc_sueloOpt tc |} p
  end.

Definition actualizarEstiloConfiguracion (p : SettingsPage) : SettingsPage :=
  match tipoConfig p with
  | None => p
  | Some tc =>
      let v := lower (tc_value tc) in
      with_tipoConfig
        {| tc_value := tc_value tc; tc_current := tc_current tc;
           tc_agua := str_eqb v (js "agua");
           tc_suelo := str_eqb v (js "suelo");
           tc_spectralon := str_eqb v (js "spectralon");
           tc_aguaOpt := tc_aguaOpt tc; tc_sueloOpt := tc_sueloOpt tc |} p
  end.

Definition bloquearOpuesta (p : SettingsPage) : SettingsPage :=
  match tipoConfig p with
  | None => p
  | Some tc =>
      let v := lower (tc_value tc) in
      with_tipoConfig
        {| tc_value := tc_value tc; tc_current := tc_current tc;
           tc_agua := tc_agua tc; tc_suelo := tc_suelo tc;
           tc_spectralon := tc_spectralon tc;
           tc_aguaOpt := match tc_aguaOpt tc with
                         | Some _ => Some (str_eqb v (js "suelo"))
                         | None => None
                         end;
           tc_sueloOpt := match tc_sueloOpt tc with
                          | Some _ => Some (str_eqb v (js "agua"))
                          | None => None
                          end |} p
  end.

Definition actualizarHomeHref (p : SettingsPage) : Result :=
  match homeHref p, tipoConfig p with
  | Some _, Some tc =>
      let baseTipo := lower (orElse (tc_current tc) (tc_value tc)) in
      match encodeURIComponent baseTipo with
      | Some e =>
          Finished {| tipoConfig := tipoConfig p;
                      homeHref := Some (js "/?tipo=" ++ e);
                      location := location p |}
      | None => URIError p
      end
  | _, _ => Finished p
  end.

(** Line 43: what the script does when the page has loaded. *)
Definition load (p : SettingsPage) : Result :=
  actualizarHomeHref
    (bloquearOpuesta (actualizarEstiloConfiguracion (initUltimoTipo p))).

Definition navigate (url : jsstring) (p : SettingsPage) : SettingsPage :=
  {| tipoConfig := tipoConfig p; homeHref := homeHref p;
     location := location p ++ [url] |}.

(** The change handler (lines 46-56); the select holds the new value. *)
Definition onTipoConfigChange (p : SettingsPage) : Result :=
  match tipoConfig p with
  | None => Finished p
  | Some tc =>
      let selected := lower (tc_value tc) in
      if str_eqb selected (js "spectralon") then
        let ultimo := orElse (tc_current tc) (js "agua") in
        match encodeURIComponent ultimo with
        | Some e => Finished (navigate (js "/editar_spectralon/?tipo=" ++ e) p)
        | None => URIError p
        end
      else
        let p1 :=
          with_tipoConfig
            {| tc_value := tc_value tc; tc_current := Some selected;
               tc_agua := tc_agua tc; tc_suelo := tc_suelo tc;
               tc_spectralon := tc_spectralon tc;
               tc_aguaOpt := tc_aguaOpt tc; tc_sueloOpt := tc_sueloOpt tc |} p in
        andThen
          (actualizarHomeHref
             (bloquearOpuesta (actualizarEstiloConfiguracion p1)))
          (fun p2 =>
             match encodeURIComponent selected with
             | Some e =>
                 Finished
                   (navigate (js "/configuraciones/?tipo=" ++ e
                              ++ js "&force_config=1") p2)
             | None => URIError p2
             end)
  end.

(** The user picks the option with value [v]; the page stays as it is
    without the select. *)
Definition userSelects (v : jsstring) (p : SettingsPage) : SettingsPage :=
  match tipoConfig p with
  | None => p
  | Some tc =>
      resultPage
        (onTipoConfigChange
           (with_tipoConfig
              {| tc_value := v; tc_current := tc_current tc;
                 tc_agua := tc_agua tc; tc_suelo := tc_suelo tc;
                 tc_spectralon := tc_spectralon tc;
                 tc_aguaOpt := tc_aguaOpt tc; tc_sueloOpt := tc_sueloOpt tc |} p))
  end.

(** The browser stores the picked value in the select. *)
Definition selects (v : jsstring) (p : SettingsPage) : SettingsPage :=
  match tipoConfig p with
  | None => p
  | Some tc =>
      with_tipoConfig
        {| tc_value := v; tc_current := tc_current tc;
           tc_agua := tc_agua tc; tc_suelo := tc_suelo tc;
           tc_spectralon := tc_spectralon tc;
           tc_aguaOpt := tc_aguaOpt tc; tc_sueloOpt := tc_sueloOpt tc |} p
  end.

(** The page is loaded, then the user changes the selection any number of
    times before the browser has left the page. The change handler is bound
    by the statement after line 43: if that line threw, the rest of the
    script did not run, and a selection only changes the value. *)
Definition visitSettings (vs : list jsstring) (p : SettingsPage) : SettingsPage :=
  match load p with
  | Finished p1 => foldl (fun p v => userSelects v p) p1 vs
  | URIError p1 => foldl (fun p v => selects v p) p1 vs
  end.

(** Where a type that is sent can come from: it is the remembered type the
    page [p] arrived with, or one of the words agua and suelo, or the
    lowered value of one of the selections [vs], which is then not the word
    spectralon. *)
Definition sentFrom (p : SettingsPage) (vs : list jsstring) (tipo : jsstring)
  : Prop :=
  (∃ tc, tipoConfig p = Some tc ∧ tc_current tc = Some tipo)
  ∨ tipo = js "agua" ∨ tipo = js "suelo"
  ∨ (∃ v, In v vs ∧ tipo = lower v ∧ tipo ≠ js "spectralon").

(** The remembered type of [q], when it counts as one, is a type that can be
    sent, and so is every type in an address [q] has navigated to. *)
Definition knownTypes (p : SettingsPage) (vs : list jsstring)
  (q : SettingsPage) : Prop :=
  (∀ tc c, tipoConfig q = Some tc → tc_current tc = Some c →
           truthy c = true → sentFrom p vs c)
  ∧ Forall (fun url =>
              ∃ tipo e,
                encodeURIComponent tipo = Some e
                ∧ ((url = js "/editar_spectralon/?tipo=" ++ e
                    ∧ sentFrom p vs tipo)
                   ∨ (url = js "/configuraciones/?tipo=" ++ e
                            ++ js "&force_config=1"
                      ∧ ∃ v, In v vs ∧ tipo = lower v
                             ∧ tipo ≠ js "spectralon")))
       (location q).

(** The classes and the blocked options are those of the value the select
    shows. *)
Definition followsValue (tc : TipoConfig) : Prop :=
  let v := lower (tc_value tc) in
  tc_agua tc = str_eqb v (js "agua")
  ∧ tc_suelo tc = str_eqb v (js "suelo")
  ∧ tc_spectralon tc = str_eqb v (js "spectralon")
  ∧ (∀ b, tc_aguaOpt tc = Some b → b = str_eqb v (js "suelo"))
  ∧ (∀ b, tc_sueloOpt tc = Some b → b = str_eqb v (js "agua")).

End WithLowerCase.

End Selector.

(* ===================================================================== *)
(** ** index.js: the remaining handlers and the log helpers *)
(* ===================================================================== *)

Module IndexMore.
Import Index.
Local Open Scope cmd_scope.

(** *** Click on the file picker (lines 353-364) *)

Inductive ClickEffect :=
| CPreventDefault
| CStopPropagation
| CWarn (e : Event).

Definition msg_primero_tipo : jsstring :=
  warning_sign ++ js " Primero selecciona el tipo de medici" ++ [243]
  ++ js "n (Agua o Suelo).".

(** What the handler does to the click: nothing when a type is chosen, so
    that the file dialog opens. *)
Definition onArchivoClick (env : Env) (d : Dom) : list ClickEffect :=
  if negb (hayTipo d)
  then [CPreventDefault; CStopPropagation; CWarn (warnEvent env msg_primero_tipo)]
  else [].

(** *** The reference file (lines 383-407) *)

Definition msg_spectralon_elegido (nombre : jsstring) : jsstring :=
  js "Spectralon seleccionado: " ++ nombre ++ js " (solo esta ejecuci"
  ++ [243] ++ js "n)".

(** Click on the button: the input is emptied, then its dialog is opened.
    Emptying the input by script dispatches no change event. *)
Definition onCambiarSpectralonClick (d : Dom) : Dom :=
  match inputSpectralon d with
  | Some _ => set_spectralon (Some []) (nombreSpectralon d) d
  | None => d
  end.

(** The change handler of the input; the input holds the new files. *)
Definition onSpectralonChange (d : Dom) : Dom :=
  match inputSpectralon d, nombreSpectralon d with
  | Some (nombre :: _), Some lbl =>
      set_spectralon (inputSpectralon d)
        (Some {| sp_text := msg_spectralon_elegido nombre; sp_muted := false;
                 sp_data_default := sp_data_default lbl |}) d
  | Some [], Some lbl =>
      let def := match sp_data_default lbl with
                 | Some a => if truthy a then a else default_spectralon
                 | None => default_spectralon
                 end in
      set_spectralon (inputSpectralon d)
        (Some {| sp_text := def; sp_muted := true;
                 sp_data_default := sp_data_default lbl |}) d
  | _, _ => d
  end.

(** The user closes the dialog of the reference file with [names] chosen and
    the selection differs from what the input held: the browser stores the
    files and dispatches the change event. *)
Definition userChoosesSpectralon (names : list jsstring) (d : Dom) : Dom :=
  match inputSpectralon d with
  | Some _ => onSpectralonChange (set_spectralon (Some names) (nombreSpectralon d) d)
  | None => d
  end.

(** The label announces a reference file exactly when the input holds one. *)
Definition spectralonLabelAgrees (d : Dom) : Prop :=
  ∀ files lbl, inputSpectralon d = Some files → nombreSpectralon d = Some lbl →
    (sp_muted lbl = false ↔ files ≠ []).

(** *** The log helpers (lines 523-556) *)

(** [s.replace(re, LF)] with the global pattern backslash, n. *)
Fixpoint replaceBackslashN (s : jsstring) : jsstring :=
  match s with
  | [] => []
  | c :: r =>
      match r with
      | d :: r' =>
          if (c =? 92) && (d =? 110) then 10 :: replaceBackslashN r'
          else c :: replaceBackslashN r
      | [] => [c]
      end
  end.

Definition normalizeLogNewlines (d : Dom) : Dom :=
  match logArea d with
  | Some v => set_logArea (Some (replaceBackslashN v)) d
  | None => d
  end.

(** The two-character sequence backslash, n occurs in [s]. *)
Fixpoint hasBackslashN (s : jsstring) : bool :=
  match s with
  | [] => false
  | c :: r =>
      match r with
      | d :: _ => ((c =? 92) && (d =? 110)) || hasBackslashN r
      | [] => false
      end
  end.

(** The text holds the code units backslash and n next to each other. *)
Definition ContainsEscape (s : jsstring) : Prop :=
  ∃ pre post, s = pre ++ 92 :: 110 :: post.

(** *** The submit handler of the first revision (lines 123-145) *)


(** The hidden field mirrors the select, and the select has the class of
    its value. *)
Definition mirrorHolds (d : Dom) : Prop :=
  ∀ sel, tipoSelect d = Some sel →
    (∀ h, hiddenMedicion d = Some h → h = sel_value sel)
    ∧ sel_agua sel = str_eqb (toLowerCase (sel_value sel)) (js "agua")
    ∧ sel_suelo sel = str_eqb (toLowerCase (sel_value sel)) (js "suelo").

(** The exchange ends in a download: a response with success status whose
    body could be read, and download steps that do not throw. *)
Definition delivers (x : Exchange) : bool :=
  match fetch_result x with
  | Fulfilled resp =>
      resp_ok resp
      && match resp_blob resp with Fulfilled _ => true | Rejected _ => false end
      && match download_error x with None => true | Some _ => false end
  | Rejected _ => false
  end.

(** The completion sound is attempted and throws. *)
Definition soundThrows (env : Env) (x : Exchange) : bool :=
  delivers x && has_playDoneSound env
  && match sound_error x with Some _ => true | None => false end.

Definition isLog (e : Event) : bool :=
  match e with EAppendLog _ => true | _ => false end.

(** The handler goes past its two checks. *)
Definition accepted (d : Dom) : bool := hayTipo d && tieneArchivo d.

(** A reset in which nothing throws up to the type control. *)
Definition resetsTipo (fails : ResetStep → option jsstring) : Prop :=
  fails ClearStorage = None ∧ fails ResetTipo = None.

End IndexMore.

(* ===================================================================== *)
(** ** main.js: theme and the way to the settings page *)
(* ===================================================================== *)

Module Main.
Import Index Uri.

(** *** Light and dark mode (lines 12-43) *)

(** The two classes of [document.body], the progress bar where the page has
    one (its width and its text), and [localStorage]. *)
Record Shell := {
  modo_claro : bool;
  modo_oscuro : bool;
  barra : option (jsstring * jsstring);
  localStorage : gmap string jsstring;
}.

Definition alternarModo (s : Shell) : Shell :=
  let esModoClaro := modo_claro s in
  {| modo_claro := negb (modo_claro s);
     modo_oscuro := negb (modo_oscuro s);
     barra := barra s;
     localStorage :=
       <["modo"%string := if esModoClaro then js "oscuro" else js "claro"]>
         (localStorage s) |}.

(** The DOMContentLoaded handler. *)
Definition aplicarModo (s : Shell) : Shell :=
  let oscuro := match localStorage s !! "modo"%string with
                | Some m => str_eqb m (js "oscuro")
                | None => false
                end in
  {| modo_claro := negb oscuro;
     modo_oscuro := oscuro;
     barra := match barra s with
              | Some _ => Some (js "0%", js "0%")
              | None => None
              end;
     localStorage := localStorage s |}.

(** A page of the site as the server sends it, shown with the stored
    preference: only [localStorage] is carried over from the last page. *)
Definition reload (markup : Shell) (s : Shell) : Shell :=
  aplicarModo {| modo_claro := modo_claro markup;
                 modo_oscuro := modo_oscuro markup;
                 barra := barra markup;
                 localStorage := localStorage s |}.

Fixpoint toggles (n : nat) (s : Shell) : Shell :=
  match n with
  | O => s
  | S n' => toggles n' (alternarModo s)
  end.

(** *** [abrirConfiguraciones] (lines 50-79) *)

Inductive MainEvent :=
| MWarn (e : Event)                 (* mostrarToast or alert *)
| MConfirm (msg : jsstring)         (* confirm(msg) *)
| MNavigate (url : jsstring).       (* window.location.href = url *)

Definition msg_primero_un_tipo : jsstring :=
  warning_sign ++ js " Primero selecciona un tipo de medici" ++ [243]
  ++ js "n (Agua o Suelo).".

Definition msg_confirmar : jsstring :=
  js "Vas a abrir Configuraciones habiendo seleccionado un ZIP." ++ [10]
  ++ js "Cuando regreses, por pol" ++ [237]
  ++ js "ticas del navegador tendr" ++ [225]
  ++ js "s que volver a cargar el ZIP antes de procesar." ++ [10; 10]
  ++ [191] ++ js "Deseas continuar?".

(** How the call ends: it returns, or the URIError of
    [encodeURIComponent] escapes; either way with [sessionStorage] as the
    call left it and with what it did. *)
Record Opened := {
  op_storage : gmap string jsstring;
  op_events : list MainEvent;
  op_threw : bool;
}.

(** [continuar] is the answer the user gives if [confirm] is shown. *)
Definition abrirConfiguraciones (env : Env) (continuar : bool) (d : Dom)
  : Opened :=
  let tipo := match tipoSelect d with
              | Some sel => sel_value sel
              | None => []
              end in
  if negb (truthy tipo) then
    {| op_storage := sessionStorage d;
       op_events := [MWarn (warnEvent env msg_primero_un_tipo)];
       op_threw := false |}
  else
    let yaHayZip := storage_is "archivo_seleccionado" (js "1") d in
    if yaHayZip && negb continuar then
      {| op_storage := sessionStorage d;
         op_events := [MConfirm msg_confirmar];
         op_threw := false |}
    else
      let storage :=
        if yaHayZip
        then <["fue_config_con_zip"%string := js "1"]> (sessionStorage d)
        else delete "fue_config_con_zip"%string (sessionStorage d) in
      let asked := if yaHayZip then [MConfirm msg_confirmar] else [] in
      match encodeURIComponent tipo with
      | Some e =>
          {| op_storage := storage;
             op_events := asked ++ [MNavigate (js "/configuraciones/?tipo=" ++ e)];
             op_threw := false |}
      | None =>
          {| op_storage := storage; op_events := asked; op_threw := true |}
      end.

(** The upload page as it is rendered when the user comes back in the same
    tab: any markup, with the [sessionStorage] that was left behind. *)
Definition comeBack (markup : Dom) (storage : gmap string jsstring) : Dom :=
  set_sessionStorage storage markup.

End Main.

(* ===================================================================== *)
(** ** More sample data *)
(* ===================================================================== *)

Module MoreSamples.
Import Selector Main.

(** The settings page for soil, as the server renders it. *)
Definition sample_settings : SettingsPage :=
  {| tipoConfig := Some {| tc_value := js "Suelo"; tc_current := None;
                           tc_agua := false; tc_suelo := false;
                           tc_spectralon := false;
                           tc_aguaOpt := Some false;
                           tc_sueloOpt := Some false |};
     homeHref := Some (js "/");
     location := [] |}.

End MoreSamples.

(* ===================================================================== *)
(** ** Properties of the JSON model *)
(* ===================================================================== *)

Module JsonFacts.

(** *** Fuel *)

Lemma consTok_fuel t r : consTok t r ≠ OutOfFuel → r ≠ OutOfFuel.
Proof. destruct r; simpl; congruence. Qed.

Lemma tokenize_mono n :
  ∀ m s, (n ≤ m)%nat → tokenize n s ≠ OutOfFuel → tokenize m s = tokenize n s.
Proof.
  induction n as [|n IH]; intros m s Hle H; [simpl in H; congruence|].
  destruct m as [|m]; [lia|].
  assert (Hrec : ∀ t r, consTok t (tokenize n r) ≠ OutOfFuel →
                 consTok t (tokenize m r) = consTok t (tokenize n r)).
  { intros t r Hr. apply consTok_fuel in Hr. rewrite (IH m r); [done|lia|done]. }
  simpl in *. destruct s as [|c r]; [done|].
  repeat case_match; try done; try (apply Hrec; done).
  apply IH; [lia|done].
Qed.

Lemma consFst_shorter c r v rest (k : nat) :
  consFst c r = Some (v, rest) →
  (∀ v' rest', r = Some (v', rest') → (length rest' < k)%nat) →
  (length rest < k)%nat.
Proof.
  destruct r as [[v' rest']|]; simpl; [|done].
  intros [= <- <-] H. eapply H; done.
Qed.

Lemma lexString_shorter_aux (k : nat) :
  ∀ s v rest, (length s ≤ k)%nat →
    lexString s = Some (v, rest) → (length rest < length s)%nat.
Proof.
  induction k as [|k IH]; intros s v rest Hk H;
    (destruct s as [|c r]; [done|]); simpl in Hk; [lia|].
  simpl in H.
  repeat case_match; simplify_eq; simpl; try lia;
    (eapply consFst_shorter; [eassumption|]);
    intros v' rest' Hr; apply IH in Hr; simpl in *; lia.
Qed.

Lemma lexString_shorter s v rest :
  lexString s = Some (v, rest) → (length rest < length s)%nat.
Proof. apply (lexString_shorter_aux (length s)). lia. Qed.

Lemma takeDigits_shorter s :
  (length (snd (takeDigits s)) ≤ length s)%nat.
Proof.
  induction s as [|c r IH]; simpl; [lia|].
  destruct (isDigit c); simpl; [|lia].
  destruct (takeDigits r); simpl in *; lia.
Qed.

Lemma lexInt_shorter s i rest :
  lexInt s = Some (i, rest) → (length rest < length s)%nat.
Proof.
  destruct s as [|c r]; simpl; [done|].
  pose proof (takeDigits_shorter r) as Hd.
  destruct (takeDigits r); repeat case_match; intros; simplify_eq; simpl in *; lia.
Qed.

Lemma lexFrac_shorter s f rest :
  lexFrac s = Some (f, rest) → (length rest ≤ length s)%nat.
Proof.
  destruct s as [|c r]; simpl; [intros [= <- <-]; simpl; lia|].
  pose proof (takeDigits_shorter r) as Hd.
  destruct (takeDigits r); repeat case_match; intros; simplify_eq; simpl in *; lia.
Qed.

Lemma lexExp_shorter s e rest :
  lexExp s = Some (e, rest) → (length rest ≤ length s)%nat.
Proof.
  destruct s as [|c r]; simpl; [intros [= <- <-]; simpl; lia|].
  destruct ((c =? 101) || (c =? 69)); [|intros [= <- <-]; simpl; lia].
  destruct r as [|g r']; simpl; [done|].
  pose proof (takeDigits_shorter r') as Hd.
  pose proof (takeDigits_shorter (g :: r')) as Hd'.
  destruct ((g =? 43) || (g =? 45));
    [destruct (takeDigits r')|destruct (takeDigits (g :: r'))];
    repeat case_match; intros; simplify_eq; simpl in *; lia.
Qed.

Lemma lexNumber_shorter s l rest :
  lexNumber s = Some (l, rest) → (length rest < length s)%nat.
Proof.
  unfold lexNumber. intros H.
  assert (Hs : ∀ sign s1,
    (length s1 ≤ length s)%nat →
    match lexInt s1 with
    | None => None
    | Some (i, s2) =>
        match lexFrac s2 with
        | None => None
        | Some (f, s3) =>
            match lexExp s3 with
            | None => None
            | Some (e, s4) => Some (sign ++ i ++ f ++ e, s4)
            end
        end
    end = Some (l, rest) → (length rest < length s)%nat).
  { intros sign s1 Hle H1.
    destruct (lexInt s1) as [[i s2]|] eqn:Hi; [|done].
    destruct (lexFrac s2) as [[f s3]|] eqn:Hf; [|done].
    destruct (lexExp s3) as [[e s4]|] eqn:He; [|done].
    simplify_eq. apply lexInt_shorter in Hi. apply lexFrac_shorter in Hf.
    apply lexExp_shorter in He. lia. }
  destruct s as [|c r]; [simpl in H; done|].
  destruct (c =? 45).
  - apply (Hs [45] r); [simpl; lia|exact H].
  - apply (Hs [] (c :: r)); [simpl; lia|exact H].
Qed.

Lemma dropPrefix_shorter p s rest :
  dropPrefix p s = Some rest → (length rest + length p = length s)%nat.
Proof.
  revert s; induction p as [|a p IH]; intros s; simpl.
  - intros [= <-]. lia.
  - destruct s as [|b s]; [done|]. destruct (a =? b); [|done].
    intros H. apply IH in H. simpl. lia.
Qed.

Lemma consTok_has_fuel t r : r ≠ OutOfFuel → consTok t r ≠ OutOfFuel.
Proof. destruct r; simpl; congruence. Qed.

Lemma tokenize_has_fuel n :
  ∀ s, (length s < n)%nat → tokenize n s ≠ OutOfFuel.
Proof.
  induction n as [|n IH]; intros s Hn; [lia|].
  destruct s as [|c r]; [done|]. simpl in Hn. cbn [tokenize].
  repeat case_match; try done;
    try (apply consTok_has_fuel; apply IH);
    try (apply IH); try lia.
  all: repeat match goal with
       | H : lexString _ = Some _ |- _ => apply lexString_shorter in H
       | H : lexNumber _ = Some _ |- _ => apply lexNumber_shorter in H
       | H : dropPrefix _ _ = Some _ |- _ => apply dropPrefix_shorter in H
       end; simpl in *; lia.
Qed.

Lemma tokenize_fuel_irrelevant n m s ts :
  tokenize n s = Ok ts → (length s < m)%nat → tokenize m s = Ok ts.
Proof.
  intros H Hm. destruct (Nat.le_gt_cases n m) as [Hle|Hgt].
  - rewrite (tokenize_mono n m s Hle); [done|congruence].
  - rewrite <- H. symmetry. apply tokenize_mono; [lia|].
    by apply tokenize_has_fuel.
Qed.

Lemma parse_mono n :
  ∀ m, (n ≤ m)%nat →
    (∀ ts, parseValue n ts ≠ OutOfFuel → parseValue m ts = parseValue n ts)
    ∧ (∀ ts, parseElements n ts ≠ OutOfFuel →
             parseElements m ts = parseElements n ts)
    ∧ (∀ ts, parseMembers n ts ≠ OutOfFuel →
             parseMembers m ts = parseMembers n ts).
Proof.
  induction n as [|n IH]; intros m Hle.
  { repeat split; intros ts H; simpl in H; congruence. }
  destruct m as [|m]; [lia|].
  destruct (IH m ltac:(lia)) as (IHv & IHe & IHm).
  repeat split; intros ts H.
  - cbn [parseValue] in *.
    destruct ts as [|[] r]; try done.
    + destruct r as [|[] r']; try done;
        (rewrite IHm; [done|]); intros Hf; rewrite Hf in H; done.
    + destruct r as [|[] r']; try done;
        (rewrite IHe; [done|]); intros Hf; rewrite Hf in H; done.
  - cbn [parseElements] in *.
    rewrite IHv; [|intros Hf; rewrite Hf in H; done].
    destruct (parseValue n ts) as [[v [|[] r]]| |]; try done.
    rewrite IHe; [done|]. intros Hf; rewrite Hf in H; done.
  - cbn [parseMembers] in *.
    destruct ts as [|[] [|[] r]]; try done.
    rewrite IHv; [|intros Hf; rewrite Hf in H; done].
    destruct (parseValue n r) as [[v [|[] r']]| |]; try done.
    rewrite IHm; [done|]. intros Hf; rewrite Hf in H; done.
Qed.

Lemma parse_shorter n :
  (∀ ts v rest, parseValue n ts = Ok (v, rest) → (length rest < length ts)%nat)
  ∧ (∀ ts vs rest, parseElements n ts = Ok (vs, rest) →
                   (length rest < length ts)%nat)
  ∧ (∀ ts ms rest, parseMembers n ts = Ok (ms, rest) →
                   (length rest < length ts)%nat).
Proof.
  induction n as [|n (IHv & IHe & IHm)]; [repeat split; intros; done|].
  repeat split.
  - intros ts v rest H. cbn [parseValue] in H.
    destruct ts as [|[] r]; simplify_eq; simpl; try lia.
    + destruct r as [|[] r']; simplify_eq; simpl; try lia;
        match type of H with
        | context [parseMembers n ?x] =>
            destruct (parseMembers n x) as [[ms rest']| |] eqn:Hp; [|done..];
            apply IHm in Hp; simplify_eq; simpl in *; lia
        end.
    + destruct r as [|[] r']; simplify_eq; simpl; try lia;
        match type of H with
        | context [parseElements n ?x] =>
            destruct (parseElements n x) as [[ms rest']| |] eqn:Hp; [|done..];
            apply IHe in Hp; simplify_eq; simpl in *; lia
        end.
  - intros ts vs rest H. cbn [parseElements] in H.
    destruct (parseValue n ts) as [[v [|[] r]]| |] eqn:Hv; try done;
      apply IHv in Hv; simpl in *.
    + simplify_eq. lia.
    + destruct (parseElements n r) as [[vs' rest']| |] eqn:He; [|done..].
      apply IHe in He. simpl in H. simplify_eq. lia.
  - intros ts ms rest H. cbn [parseMembers] in H.
    destruct ts as [|[] [|[] r]]; try done.
    destruct (parseValue n r) as [[v [|[] r']]| |] eqn:Hv; try done;
      apply IHv in Hv; simpl in *.
    + simplify_eq. lia.
    + destruct (parseMembers n r') as [[ms' rest']| |] eqn:He; [|done..].
      apply IHm in He. simpl in H. simplify_eq. lia.
Qed.

Lemma parse_has_fuel n :
  (∀ ts, (2 * length ts < n)%nat → parseValue n ts ≠ OutOfFuel)
  ∧ (∀ ts, (2 * length ts + 1 < n)%nat → parseElements n ts ≠ OutOfFuel)
  ∧ (∀ ts, (2 * length ts + 1 < n)%nat → parseMembers n ts ≠ OutOfFuel).
Proof.
  induction n as [|n (IHv & IHe & IHm)]; [repeat split; intros; lia|].
  destruct (parse_shorter n) as (Sv & Se & Sm).
  repeat split; intros ts Hn.
  - cbn [parseValue].
    destruct ts as [|[] r]; try done.
    + destruct r as [|[] r']; try done;
        match goal with
        | |- context [parseMembers n ?x] =>
            pose proof (IHm x ltac:(simpl in *; lia));
            destruct (parseMembers n x) as [[]| |]; done
        end.
    + destruct r as [|[] r']; try done;
        match goal with
        | |- context [parseElements n ?x] =>
            pose proof (IHe x ltac:(simpl in *; lia));
            destruct (parseElements n x) as [[]| |]; done
        end.
  - cbn [parseElements].
    pose proof (IHv ts ltac:(lia)).
    destruct (parseValue n ts) as [[v [|[] r]]| |] eqn:Hv; try done.
    apply Sv in Hv.
    pose proof (IHe r ltac:(simpl in *; lia)).
    destruct (parseElements n r) as [[]| |]; done.
  - cbn [parseMembers].
    destruct ts as [|[] [|[] r]]; try done.
    pose proof (IHv r ltac:(simpl in *; lia)).
    destruct (parseValue n r) as [[v [|[] r']]| |] eqn:Hv; try done.
    apply Sv in Hv.
    pose proof (IHm r' ltac:(simpl in *; lia)).
    destruct (parseMembers n r') as [[]| |]; done.
Qed.

Lemma parseValue_fuel_irrelevant n m ts r :
  parseValue n ts = Ok r → (2 * length ts < m)%nat → parseValue m ts = Ok r.
Proof.
  intros H Hm. destruct (Nat.le_gt_cases n m) as [Hle|Hgt].
  - destruct (parse_mono n m Hle) as (Hv & _). rewrite Hv; [done|congruence].
  - destruct (parse_mono m n ltac:(lia)) as (Hv & _).
    rewrite <- H. symmetry. apply Hv. by apply parse_has_fuel.
Qed.

(** The fuel [JSON_parse] hands out is always enough: its answer is a value
    or a syntax error. *)
Lemma JSON_parse_has_fuel text : JSON_parse text ≠ OutOfFuel.
Proof.
  unfold JSON_parse.
  pose proof (tokenize_has_fuel (S (length text)) text ltac:(lia)) as Ht.
  destruct (tokenize (S (length text)) text) as [ts| |]; try done.
  destruct (parse_has_fuel (2 * length ts + 2)) as (Hv & _).
  specialize (Hv ts ltac:(lia)).
  destruct (parseValue (2 * length ts + 2) ts) as [[v [|]]| |]; done.
Qed.

(** *** Escapes are read back *)

Lemma hexVal_hexDigit d : d < 16 → hexVal (hexDigit d) = Some d.
Proof.
  intros Hd. unfold hexDigit, hexVal.
  destruct (d <? 10) eqn:E.
  - apply N.ltb_lt in E.
    replace ((48 <=? 48 + d) && (48 + d <=? 57)) with true
      by (symmetry; apply andb_true_iff; split; apply N.leb_le; lia).
    f_equal. lia.
  - apply N.ltb_ge in E.
    replace ((48 <=? 87 + d) && (87 + d <=? 57)) with false
      by (symmetry; apply andb_false_iff; right; apply N.leb_gt; lia).
    replace ((97 <=? 87 + d) && (87 + d <=? 102)) with true
      by (symmetry; apply andb_true_iff; split; apply N.leb_le; lia).
    f_equal. lia.
Qed.

Lemma hex4_unicodeEscape c :
  c < 65536 →
  hex4 (hexDigit (c / 4096)) (hexDigit ((c / 256) mod 16))
       (hexDigit ((c / 16) mod 16)) (hexDigit (c mod 16)) = Some c.
Proof.
  intros Hc. unfold hex4.
  assert (H1 : c / 4096 < 16) by (apply N.Div0.div_lt_upper_bound; lia).
  assert (H2 : (c / 256) mod 16 < 16) by (apply N.mod_lt; lia).
  assert (H3 : (c / 16) mod 16 < 16) by (apply N.mod_lt; lia).
  assert (H4 : c mod 16 < 16) by (apply N.mod_lt; lia).
  rewrite !hexVal_hexDigit by done. f_equal.
  assert (E1 : c = 16 * (c / 16) + c mod 16) by (apply N.div_mod; lia).
  assert (E2 : c / 16 = 16 * (c / 256) + (c / 16) mod 16).
  { replace (c / 256) with (c / 16 / 16) by (by rewrite N.Div0.div_div).
    apply N.div_mod; lia. }
  assert (E3 : c / 256 = 16 * (c / 4096) + (c / 256) mod 16).
  { replace (c / 4096) with (c / 256 / 16) by (by rewrite N.Div0.div_div).
    apply N.div_mod; lia. }
  lia.
Qed.

Lemma lexString_literal c r :
  (c =? 34) = false → (c =? 92) = false → (c <? 32) = false →
  lexString (c :: r) = consFst c (lexString r).
Proof. intros E1 E2 E3. simpl. by rewrite E1, E2, E3. Qed.

Lemma lexString_unicodeEscape c r :
  c < 65536 → lexString (unicodeEscape c ++ r) = consFst c (lexString r).
Proof.
  intros Hc. unfold unicodeEscape.
  change (lexString ([92; 117; hexDigit (c / 4096); hexDigit ((c / 256) mod 16);
                      hexDigit ((c / 16) mod 16); hexDigit (c mod 16)] ++ r))
    with (match hex4 (hexDigit (c / 4096)) (hexDigit ((c / 256) mod 16))
                     (hexDigit ((c / 16) mod 16)) (hexDigit (c mod 16)) with
          | Some v => consFst v (lexString r)
          | None => None
          end).
  by rewrite hex4_unicodeEscape.
Qed.

Lemma lexString_quoteChar c r :
  lexString (quoteChar c ++ r) = consFst c (lexString r).
Proof.
  unfold quoteChar.
  repeat match goal with
         | |- context [if ?x =? ?k then _ else _] =>
             destruct (x =? k) eqn:?;
             [match goal with H : (_ =? _) = true |- _ =>
                apply N.eqb_eq in H; subst; reflexivity end|]
         end.
  destruct ((c <? 32) || isHighSurrogate c || isLowSurrogate c) eqn:E.
  - apply lexString_unicodeEscape.
    unfold isHighSurrogate, isLowSurrogate in E.
    repeat (apply orb_true_iff in E as [E|E]);
      repeat (apply andb_true_iff in E as [? E]);
      repeat match goal with
             | H : (_ <? _) = true |- _ => apply N.ltb_lt in H
             | H : (_ <=? _) = true |- _ => apply N.leb_le in H
             end; lia.
  - apply orb_false_iff in E as [E _]. apply orb_false_iff in E as [E _].
    by apply lexString_literal.
Qed.

Lemma surrogate_literal c :
  isHighSurrogate c || isLowSurrogate c = true →
  (c =? 34) = false ∧ (c =? 92) = false ∧ (c <? 32) = false.
Proof.
  unfold isHighSurrogate, isLowSurrogate. intros E.
  apply orb_true_iff in E as [E|E]; apply andb_true_iff in E as [E1 E2];
    apply N.leb_le in E1; apply N.leb_le in E2;
    (split; [|split]); try (apply N.eqb_neq; lia); apply N.ltb_ge; lia.
Qed.

Lemma lexString_quoteChars_aux (k : nat) :
  ∀ s rest, (length s ≤ k)%nat →
    lexString (quoteChars s ++ 34 :: rest) = Some (s, rest).
Proof.
  induction k as [|k IH]; intros s rest Hk;
    (destruct s as [|c r]; [done|]); simpl in Hk; [lia|].
  assert (Hstep : lexString ((quoteChar c ++ quoteChars r) ++ 34 :: rest)
                  = Some (c :: r, rest)).
  { rewrite <- app_assoc, lexString_quoteChar, IH by lia. done. }
  cbn [quoteChars].
  destruct (isHighSurrogate c) eqn:Hc; [|exact Hstep].
  destruct r as [|d r']; [simpl in Hstep; by rewrite app_nil_r in Hstep|].
  destruct (isLowSurrogate d) eqn:Hd; [|exact Hstep].
  destruct (surrogate_literal c) as (A1 & A2 & A3); [by rewrite Hc|].
  destruct (surrogate_literal d) as (B1 & B2 & B3);
    [by rewrite Hd, orb_true_r|].
  change ((c :: d :: quoteChars r') ++ 34 :: rest)
    with (c :: d :: (quoteChars r' ++ 34 :: rest)).
  rewrite lexString_literal, lexString_literal, IH by (done || simpl in *; lia).
  done.
Qed.

(** A quoted string is read back as the string it was made from. *)
Lemma lexString_quoteChars s rest :
  lexString (quoteChars s ++ 34 :: rest) = Some (s, rest).
Proof. apply (lexString_quoteChars_aux (length s)). lia. Qed.

(** *** Reading back a serialized array of strings *)

Lemma tokenize_space ws r n :
  forallb isJsonSpace ws = true →
  tokenize (length ws + n) (ws ++ r) = tokenize n r.
Proof.
  induction ws as [|c ws IH]; simpl; [done|].
  intros H. apply andb_true_iff in H as [Hc Hws]. rewrite Hc. by apply IH.
Qed.

Lemma tokenize_string n s rest :
  tokenize (S n) (quoteJSONString s ++ rest)
  = consTok (TStr s) (tokenize n rest).
Proof.
  unfold quoteJSONString.
  change ((34 :: quoteChars s ++ [34]) ++ rest)
    with (34 :: ((quoteChars s ++ [34]) ++ rest)).
  rewrite <- app_assoc. cbn [tokenize app].
  change (isJsonSpace 34) with false. cbv iota.
  change (34 =? 123) with false. change (34 =? 125) with false.
  change (34 =? 91) with false. change (34 =? 93) with false.
  change (34 =? 58) with false. change (34 =? 44) with false.
  change (34 =? 34) with true. cbv iota.
  by rewrite lexString_quoteChars.
Qed.

Lemma tokenize_elems sep post :
  forallb isJsonSpace sep = true → forallb isJsonSpace post = true →
  ∀ arr, arr ≠ [] →
    ∃ n, tokenize n (join (44 :: sep) (map quoteJSONString arr) ++ post ++ [93])
         = Ok (stringToks arr ++ [TRBrack]).
Proof.
  intros Hsep Hpost arr. induction arr as [|x r IH]; [done|]. intros _.
  destruct r as [|y r'].
  - exists (S (length post + 2)). cbn [map join].
    rewrite tokenize_string, tokenize_space by done. reflexivity.
  - destruct IH as [n Hn]; [done|].
    exists (S (S (length sep + n))).
    change (join (44 :: sep) (map quoteJSONString (x :: y :: r')))
      with (quoteJSONString x ++ (44 :: sep)
            ++ join (44 :: sep) (map quoteJSONString (y :: r'))).
    rewrite <- !app_assoc.
    rewrite tokenize_string.
    change ((44 :: sep) ++ ?t) with (44 :: (sep ++ t)).
    change (tokenize (S (length sep + n)) (44 :: ?t))
      with (consTok TComma (tokenize (length sep + n) t)).
    rewrite tokenize_space by done. rewrite Hn. reflexivity.
Qed.

Lemma tokenize_arrayText pre sep post arr :
  forallb isJsonSpace pre = true → forallb isJsonSpace sep = true →
  forallb isJsonSpace post = true → arr ≠ [] →
  ∃ n, tokenize n (arrayText pre sep post arr)
       = Ok (TLBrack :: stringToks arr ++ [TRBrack]).
Proof.
  intros Hpre Hsep Hpost Harr.
  destruct (tokenize_elems sep post Hsep Hpost arr Harr) as [n Hn].
  exists (S (length pre + n)). unfold arrayText.
  change (tokenize (S (length pre + n)) (91 :: ?t))
    with (consTok TLBrack (tokenize (length pre + n) t)).
  rewrite tokenize_space by done. by rewrite Hn.
Qed.

Lemma parseElements_stringToks arr :
  arr ≠ [] →
  ∃ n, parseElements n (stringToks arr ++ [TRBrack]) = Ok (map JStr arr, []).
Proof.
  induction arr as [|x r IH]; [done|]. intros _.
  destruct r as [|y r'].
  - exists 2%nat. reflexivity.
  - destruct IH as [n Hn]; [done|]. exists (S (S n)).
    change (stringToks (x :: y :: r') ++ [TRBrack])
      with (TStr x :: TComma :: (stringToks (y :: r') ++ [TRBrack])).
    change (parseElements (S (S n)) (TStr x :: TComma :: ?t))
      with (consVal (JStr x) (parseElements (S n) t)).
    destruct (parse_mono n (S n) ltac:(lia)) as (_ & He & _).
    rewrite He, Hn by congruence. reflexivity.
Qed.

Lemma parseValue_stringToks arr :
  arr ≠ [] →
  ∃ n, parseValue n (TLBrack :: stringToks arr ++ [TRBrack])
       = Ok (JArr (map JStr arr), []).
Proof.
  intros Harr. destruct (parseElements_stringToks arr Harr) as [n Hn].
  exists (S n). cbn [parseValue]. rewrite Hn.
  destruct arr as [|x [|y r]]; done.
Qed.

Lemma JSON_parse_arrayText pre sep post arr :
  forallb isJsonSpace pre = true → forallb isJsonSpace sep = true →
  forallb isJsonSpace post = true → arr ≠ [] →
  JSON_parse (arrayText pre sep post arr) = Ok (JArr (map JStr arr)).
Proof.
  intros Hpre Hsep Hpost Harr. unfold JSON_parse.
  destruct (tokenize_arrayText pre sep post arr) as [n Hn]; try done.
  rewrite (tokenize_fuel_irrelevant _ _ _ _ Hn) by lia.
  destruct (parseValue_stringToks arr Harr) as [m Hm].
  rewrite (parseValue_fuel_irrelevant _ _ _ _ Hm) by lia.
  done.
Qed.

(** [JSON.parse(JSON.stringify(arr))] is the array of the same strings. *)
Lemma JSON_parse_stringify arr :
  JSON_parse (JSON_stringify arr) = Ok (JArr (map JStr arr)).
Proof.
  destruct arr as [|x r]; [reflexivity|].
  apply (JSON_parse_arrayText [] [] []); done.
Qed.

Lemma JSON_parse_stringify_indent2 arr :
  JSON_parse (JSON_stringify_indent2 arr) = Ok (JArr (map JStr arr)).
Proof.
  destruct arr as [|x r]; [reflexivity|].
  apply (JSON_parse_arrayText [10; 32; 32] [10; 32; 32] [10]); done.
Qed.

Lemma mapString_strings numfmt arr :
  mapString numfmt (map JStr arr) = Some arr.
Proof. induction arr as [|x r IH]; simpl; [done|]. by rewrite IH. Qed.

End JsonFacts.

(* ===================================================================== *)
(** ** The list editor: parsing, validation, normalisation *)
(* ===================================================================== *)

Module ConfigFacts.
Import Config JsonFacts Samples.

Lemma str_eqb_eq a b : str_eqb a b = true ↔ a = b.
Proof.
  revert b; induction a as [|x a IH]; intros [|y b]; simpl; try done.
  rewrite andb_true_iff, N.eqb_eq, IH. split; [intros [-> ->]; done|].
  intros [= -> ->]. done.
Qed.

Lemma isAllowed_spec v : isAllowed v = true ↔ In (toLowerCase v) allowed.
Proof.
  unfold isAllowed. rewrite existsb_exists. split.
  - intros (w & Hw & E). apply str_eqb_eq in E. by subst.
  - intros H. exists (toLowerCase v). split; [done|]. by apply str_eqb_eq.
Qed.

Lemma stripQuotes_length s : (length s ≤ length (stripQuotes s) + 2)%nat.
Proof.
  unfold stripQuotes.
  set (s1 := match s with
             | [] => []
             | c :: r => if isQuoteChar c then r else s
             end).
  assert (H1 : (length s ≤ length s1 + 1)%nat).
  { subst s1. destruct s as [|c r]; simpl; [lia|].
    destruct (isQuoteChar c); simpl; lia. }
  pose proof (length_rev s1) as Hr.
  destruct (rev s1) as [|c r]; [lia|].
  destruct (isQuoteChar c); [|lia].
  rewrite length_rev. simpl in Hr. lia.
Qed.

(** A non-empty token vanishes under [stripQuotes] exactly when it is one or
    two quote characters. *)
Lemma stripQuotes_nil_iff s :
  s ≠ [] →
  stripQuotes s = [] ↔ (length s ≤ 2)%nat ∧ forallb isQuoteChar s = true.
Proof.
  intros Hs. destruct s as [|a [|b [|c r]]]; [done| | |].
  - unfold stripQuotes. simpl. destruct (isQuoteChar a) eqn:Ea; simpl.
    + split; [intros _; split; [lia|done]|done].
    + rewrite Ea. split; [done|]. intros [_ ?]; done.
  - unfold stripQuotes. simpl.
    destruct (isQuoteChar a) eqn:Ea; simpl;
      destruct (isQuoteChar b) eqn:Eb; simpl;
      (split; [intros E|intros [_ E]]); done.
  - pose proof (stripQuotes_length (a :: b :: c :: r)) as Hl.
    split.
    + intros E. rewrite E in Hl. simpl in Hl. lia.
    + intros [Hlen _]. simpl in Hlen. lia.
Qed.

Section WithNumberFormat.

Variable nf : jsstring → jsstring.

Lemma strictArray_stringify arr :
  strictArray nf (JSON_stringify arr) = Some arr.
Proof.
  unfold strictArray. rewrite JSON_parse_stringify. apply mapString_strings.
Qed.

Lemma strictArray_stringify_indent2 arr :
  strictArray nf (JSON_stringify_indent2 arr) = Some arr.
Proof.
  unfold strictArray. rewrite JSON_parse_stringify_indent2.
  apply mapString_strings.
Qed.

Lemma parseToArrayLoose_stringify arr :
  parseToArrayLoose nf (JSON_stringify arr) = arr.
Proof. unfold parseToArrayLoose. by rewrite strictArray_stringify. Qed.

Lemma parseToArrayLoose_stringify_indent2 arr :
  parseToArrayLoose nf (JSON_stringify_indent2 arr) = arr.
Proof. unfold parseToArrayLoose. by rewrite strictArray_stringify_indent2. Qed.

(** Both branches of the submit handler store the serialization of what
    [parseToArrayLoose] returns. *)
Lemma normalizeField_parse v :
  normalizeField nf v = JSON_stringify (parseToArrayLoose nf v).
Proof.
  unfold normalizeField, parseToArrayLoose, strictArray.
  destruct (JSON_parse v) as [[]| |]; try done.
  destruct (mapString nf elems); done.
Qed.

(** C5: the JSON text of the array a, b, c and the comma-separated text
    a, b, c are both parsed to the sequence of the strings a, b, c. *)
Theorem parse_json_and_csv_agree :
  parseToArrayLoose nf (jsq "[`a`,`b`,`c`]") = [js "a"; js "b"; js "c"]
  ∧ parseToArrayLoose nf (js "a, b, c") = [js "a"; js "b"; js "c"].
Proof. split; vm_compute; reflexivity. Qed.

(** What the submit handler leaves in a list field. *)
Lemma submitConfig_lookup p id :
  In id listFields →
  fields (submitConfig nf p) !! id = normalizeField nf <$> fields p !! id.
Proof.
  unfold submitConfig, listFields. cbn [fields foldl].
  intros [<-|[<-|[]]];
    destruct (fields p !! "meas_order"%string) eqn:E1;
    destruct (fields p !! "target_list"%string) eqn:E2;
    simplify_map_eq; done.
Qed.

(** C3, as amended: on submission each of the two list fields that is on the
    page is replaced by the serialization of an array of strings: the
    elements coerced to text when the value parses as an array and every
    element can be coerced, the permissive comma-separated parse otherwise;
    the new value is JSON text that parses to that array of strings. *)
Theorem submit_normalizes_list_fields p id v :
  In id listFields →
  fields p !! id = Some v →
  ∃ l, fields (submitConfig nf p) !! id = Some (JSON_stringify l)
       ∧ JSON_parse (JSON_stringify l) = Ok (JArr (map JStr l))
       ∧ (∀ vs l', JSON_parse v = Ok (JArr vs) →
                   mapString nf vs = Some l' → l = l')
       ∧ (strictArray nf v = None → l = looseFallback v).
Proof.
  intros Hid Hv. exists (parseToArrayLoose nf v).
  rewrite submitConfig_lookup, Hv by done. cbn [fmap option_fmap option_map].
  rewrite normalizeField_parse. split; [done|].
  split; [apply JSON_parse_stringify|].
  unfold parseToArrayLoose, strictArray. split.
  - intros vs l' -> ->. done.
  - intros ->. done.
Qed.

(** C10: the permissive parse of the serialization of an array of strings is
    that array; so normalising a normalised field changes nothing, and a list
    committed by [applyEditor] is what [openEditor] shows next, in a text
    that parses to the same list. *)
Theorem stringify_then_parse_is_identity :
  (∀ arr, parseToArrayLoose nf (JSON_stringify arr) = arr)
  ∧ (∀ arr, normalizeField nf (JSON_stringify arr) = JSON_stringify arr)
  ∧ (∀ p f v text fb m,
       currentField p = Some f → fields p !! f = Some v →
       editor p = Some text → feedback p = Some fb → modal p = Some m →
       parseToArrayLoose nf text ≠ [] →
       (f = "meas_order"%string →
        forallb isAllowed (parseToArrayLoose nf text) = true) →
       ∃ p1 p2,
         applyEditor nf p = Done p1
         ∧ fields p1 !! f = Some (JSON_stringify (parseToArrayLoose nf text))
         ∧ openEditor nf f p1 = Done p2
         ∧ editor p2
           = Some (JSON_stringify_indent2 (parseToArrayLoose nf text))
         ∧ parseToArrayLoose nf
             (JSON_stringify_indent2 (parseToArrayLoose nf text))
           = parseToArrayLoose nf text).
Proof.
  split; [apply parseToArrayLoose_stringify|].
  split.
  { intros arr. by rewrite normalizeField_parse, parseToArrayLoose_stringify. }
  intros p f v text fb m Hf Hv He Hfb Hm Hne Hdom.
  unfold applyEditor. rewrite He.
  destruct (parseToArrayLoose nf text) as [|a arr] eqn:Harr; [done|].
  assert (Hcond : bool_decide (currentField p = Some "meas_order"%string)
                  && negb (forallb isAllowed (a :: arr)) = false).
  { case_bool_decide as Hc; [|done].
    rewrite Hf in Hc. injection Hc as ->. by rewrite Hdom. }
  rewrite Hcond, Hf. cbn [idOf]. rewrite Hv, Hm.
  eexists _, _. split; [reflexivity|]. cbn [fields].
  split; [by rewrite lookup_insert_eq|].
  split.
  { unfold openEditor. cbn [fields modal editor feedback].
    rewrite lookup_insert_eq, Hfb, parseToArrayLoose_stringify.
    reflexivity. }
  split; [reflexivity|].
  apply parseToArrayLoose_stringify_indent2.
Qed.

(** On a trimmed text made of an opening bracket, some text and a closing
    bracket, the fallback goes on with the text in between. *)
Lemma looseText_bracketed text inner :
  trim text = 91 :: inner ++ [93] → looseText text = inner.
Proof.
  intros E. unfold looseText. rewrite E.
  unfold startsWithLBracket, endsWithRBracket, slice_1_m1.
  change (91 :: inner ++ [93]) with ((91 :: inner) ++ [93]).
  rewrite rev_app_distr. cbn [rev app tl].
  rewrite N.eqb_refl. cbn [andb]. apply removelast_last.
Qed.

(** C6, as amended: when the strict attempt does not return, the permissive
    parse is: trim the text, strip one layer of brackets if the trimmed text
    starts and ends with them, split on commas, trim each token, drop the
    empty tokens, then strip one leading and one trailing quote character
    from each token that is left. The tokens that are kept are not empty, and
    the empty string is in the result exactly when one of them is made of one
    or two quote characters only. *)
Theorem fallback_drops_empty_then_strips_quotes text :
  strictArray nf text = None →
  ∃ t parts,
    ((∃ inner, trim text = 91 :: inner ++ [93] ∧ t = inner)
     ∨ ((∀ inner, trim text ≠ 91 :: inner ++ [93]) ∧ t = trim text))
    ∧ parts = List.filter truthy (map trim (split_comma t))
    ∧ parseToArrayLoose nf text = map stripQuotes parts
    ∧ (∀ tok, In tok parts → tok ≠ [])
    ∧ (In [] (parseToArrayLoose nf text) ↔
       ∃ tok, In tok parts
              ∧ (length tok ≤ 2)%nat ∧ forallb isQuoteChar tok = true).
Proof.
  intros Hstrict. unfold parseToArrayLoose. rewrite Hstrict.
  exists (looseText text), (looseParts text).
  assert (Hne : ∀ tok, In tok (looseParts text) → tok ≠ []).
  { intros tok Hin. unfold looseParts in Hin.
    apply filter_In in Hin as [_ Ht]. by destruct tok. }
  split.
  { destruct (startsWithLBracket (trim text) && endsWithRBracket (trim text))
      eqn:E.
    - left. exists (looseText text). split; [|done].
      unfold looseText. rewrite E.
      apply andb_true_iff in E as [E1 E2].
      unfold startsWithLBracket in E1. unfold endsWithRBracket in E2.
      destruct (trim text) as [|c r]; [done|].
      apply N.eqb_eq in E1. subst c.
      destruct (rev (91 :: r)) as [|z t] eqn:Er; [done|].
      apply N.eqb_eq in E2. subst z.
      apply (f_equal (@rev N)) in Er. rewrite rev_involutive in Er.
      cbn [rev] in Er.
      destruct (rev t) as [|y inner]; cbn [app] in Er; [done|].
      injection Er as <- ->.
      unfold slice_1_m1. cbn [tl]. by rewrite removelast_last.
    - right. split; [|by unfold looseText; rewrite E].
      intros inner Ei.
      pose proof (looseText_bracketed text inner Ei) as X.
      unfold looseText in X. rewrite E, Ei in X.
      apply (f_equal (@length N)) in X. cbn [length] in X.
      rewrite length_app in X. cbn [length] in X. lia. }
  split; [reflexivity|]. split; [reflexivity|]. split; [exact Hne|].
  unfold looseFallback. rewrite in_map_iff. split.
  - intros (tok & E & Hin). exists tok. split; [done|].
    by apply stripQuotes_nil_iff; [apply Hne|].
  - intros (tok & Hin & Hq). exists tok. split; [|done].
    by apply stripQuotes_nil_iff; [apply Hne|].
Qed.

(** C4: [applyEditor] on a text whose parse is empty, and on a
    measurement-order text whose parse has an element that is not, in lower
    case, one of spectralon, target, cielo: the feedback element gets the
    error class and the message (the second one names the three allowed
    values), the dialog is not hidden, and no field value changes. *)
Theorem apply_rejects_empty_and_foreign p text fb :
  editor p = Some text →
  feedback p = Some fb →
  let rejected msg :=
    Done {| fields := fields p; editor := editor p;
            feedback := Some {| fb_class := "mt-2 small text-danger";
                                fb_text := msg |};
            modal := modal p; currentField := currentField p |} in
  (parseToArrayLoose nf text = [] → applyEditor nf p = rejected msg_vacio)
  ∧ (currentField p = Some "meas_order"%string →
     (∃ v, In v (parseToArrayLoose nf text) ∧ ¬ In (toLowerCase v) allowed) →
     applyEditor nf p = rejected msg_dominio)
  ∧ forallb (fun w => includes w msg_dominio) allowed = true.
Proof.
  intros He Hfb rejected. subst rejected. unfold applyEditor. rewrite He.
  split; [|split; [|reflexivity]].
  - intros ->. unfold reject. by rewrite Hfb, He.
  - intros Hcur (v & Hin & Hv).
    destruct (parseToArrayLoose nf text) as [|a arr] eqn:Harr; [done|].
    assert (Hall : forallb isAllowed (a :: arr) = false).
    { apply not_true_is_false. intros Hall.
      rewrite forallb_forall in Hall. apply Hv, isAllowed_spec, Hall, Hin. }
    rewrite Hall, Hcur. rewrite bool_decide_eq_true_2 by done.
    unfold reject. by rewrite Hfb, He, Hcur.
Qed.

End WithNumberFormat.

(** *** Concrete runs *)

(** Counterexample to C3 as stated: a field holding the JSON array of one
    object with a [toString] member. It parses as an array, and no element coerced to text is stored:
    the coercion throws and the comma-separated parse of the raw text is
    stored instead. *)
Lemma submit_array_with_uncoercible_element :
  ¬ (∀ (nf : jsstring → jsstring) (v : jsstring) (vs : list JSValue),
       JSON_parse v = Ok (JArr vs) →
       ∃ l, mapString nf vs = Some l
            ∧ normalizeField nf v = JSON_stringify l).
Proof.
  intros H.
  destruct (H as_written (jsq "[{`toString`:1}]")
              [JObj [(js "toString", JNum (js "1"))]] eq_refl)
    as (l & Hl & _).
  vm_compute in Hl. discriminate.
Qed.

Example uncoercible_element_stored_text :
  normalizeField as_written (jsq "[{`toString`:1}]")
  = jsq "[`{\`toString\`:1}`]".
Proof. vm_compute. reflexivity. Qed.

Lemma submit_normalizes_list_fields_witness :
  ∃ l, fields (submitConfig as_written
                 {| fields := {[ "meas_order"%string := js "spectralon, target" ]};
                    editor := None; feedback := None; modal := None;
                    currentField := None |}) !! "meas_order"%string
       = Some (JSON_stringify l)
       ∧ JSON_parse (JSON_stringify l) = Ok (JArr (map JStr l))
       ∧ (∀ vs l', JSON_parse (js "spectralon, target") = Ok (JArr vs) →
                   mapString as_written vs = Some l' → l = l')
       ∧ (strictArray as_written (js "spectralon, target") = None →
          l = looseFallback (js "spectralon, target")).
Proof.
  apply (submit_normalizes_list_fields as_written).
  - simpl. left. reflexivity.
  - reflexivity.
Defined.

(** Counterexample to C6 as stated: the text a, two double quotes, b. The strict parse fails, the token
    made of the two quotes survives the filter and is then stripped to the
    empty string, which the steps in the stated order would have dropped. *)
Lemma fallback_result_has_empty_string :
  ¬ (∀ (nf : jsstring → jsstring) (text : jsstring),
       strictArray nf text = None →
       parseToArrayLoose nf text = specFallback text
       ∧ ¬ In [] (parseToArrayLoose nf text)).
Proof.
  intros H.
  destruct (H as_written (jsq "a, ``, b") eq_refl) as [_ Hno].
  apply Hno. vm_compute. right. left. reflexivity.
Qed.

Example quoted_empty_token_values :
  JSON_parse (jsq "a, ``, b") = SyntaxError
  ∧ parseToArrayLoose as_written (jsq "a, ``, b") = [js "a"; []; js "b"]
  ∧ specFallback (jsq "a, ``, b") = [js "a"; js "b"].
Proof. repeat split; vm_compute; reflexivity. Qed.

Lemma fallback_drops_empty_then_strips_quotes_witness :
  parseToArrayLoose as_written (js "  [M1, 'M2',, M3 ] ")
  = [js "M1"; js "M2"; js "M3"]
  ∧ ∃ t parts,
      ((∃ inner, trim (js "  [M1, 'M2',, M3 ] ") = 91 :: inner ++ [93]
                 ∧ t = inner)
       ∨ ((∀ inner, trim (js "  [M1, 'M2',, M3 ] ") ≠ 91 :: inner ++ [93])
          ∧ t = trim (js "  [M1, 'M2',, M3 ] ")))
      ∧ parts = List.filter truthy (map trim (split_comma t))
      ∧ parseToArrayLoose as_written (js "  [M1, 'M2',, M3 ] ")
        = map stripQuotes parts
      ∧ (∀ tok, In tok parts → tok ≠ [])
      ∧ (In [] (parseToArrayLoose as_written (js "  [M1, 'M2',, M3 ] ")) ↔
         ∃ tok, In tok parts
                ∧ (length tok ≤ 2)%nat ∧ forallb isQuoteChar tok = true).
Proof.
  split; [vm_compute; reflexivity|].
  apply (fallback_drops_empty_then_strips_quotes as_written).
  reflexivity.
Defined.

Lemma apply_rejects_empty_and_foreign_witness :
  let p := {| fields := {[ "meas_order"%string := jsq "[`target`]" ]};
              editor := Some (jsq "[`spectralon`,`bogus`]");
              feedback := Some {| fb_class := "mt-2 small"; fb_text := [] |};
              modal := Some true;
              currentField := Some "meas_order"%string |} in
  applyEditor as_written p
  = Done {| fields := fields p; editor := editor p;
            feedback := Some {| fb_class := "mt-2 small text-danger";
                                fb_text := msg_dominio |};
            modal := Some true; currentField := currentField p |}.
Proof.
  intros p.
  refine (proj1 (proj2 (apply_rejects_empty_and_foreign as_written p
                          (jsq "[`spectralon`,`bogus`]")
                          {| fb_class := "mt-2 small"; fb_text := [] |}
                          eq_refl eq_refl)) eq_refl _).
  exists (js "bogus"). split.
  - vm_compute. right. left. reflexivity.
  - vm_compute. intros [H|[H|[H|[]]]]; discriminate H.
Defined.

Lemma stringify_then_parse_is_identity_witness :
  let p := {| fields := {[ "meas_order"%string := jsq "[`target`]" ]};
              editor := Some (js "spectralon, Cielo");
              feedback := Some {| fb_class := "mt-2 small"; fb_text := [] |};
              modal := Some true;
              currentField := Some "meas_order"%string |} in
  ∃ p1 p2,
    applyEditor as_written p = Done p1
    ∧ fields p1 !! "meas_order"%string
      = Some (JSON_stringify
                (parseToArrayLoose as_written (js "spectralon, Cielo")))
    ∧ openEditor as_written "meas_order" p1 = Done p2
    ∧ editor p2
      = Some (JSON_stringify_indent2
                (parseToArrayLoose as_written (js "spectralon, Cielo")))
    ∧ parseToArrayLoose as_written
        (JSON_stringify_indent2
           (parseToArrayLoose as_written (js "spectralon, Cielo")))
      = parseToArrayLoose as_written (js "spectralon, Cielo").
Proof.
  intros p.
  apply (proj2 (proj2 (stringify_then_parse_is_identity as_written))
           p "meas_order"%string (jsq "[`target`]") (js "spectralon, Cielo")
           {| fb_class := "mt-2 small"; fb_text := [] |} true);
    [reflexivity | reflexivity | reflexivity | reflexivity | reflexivity
    | vm_compute; discriminate
    | intros _; vm_compute; reflexivity].
Defined.

End ConfigFacts.

(* ===================================================================== *)
(** ** The upload page: guard, submission, download name, reset *)
(* ===================================================================== *)

Module IndexFacts.
Import Index Samples.
Local Open Scope cmd_scope.

(** Unfolds the command combinators and the record updates, leaving the
    messages and the string functions alone. *)
Ltac step_cmd :=
  cbv [run dom_after trace_of completion_of
       submitHandler resetHandler resetStep init onTipoChange userSelectsTipo
       seq emit update withDom skip return_ throw orThrow
       try_catch_finally try_catch warn
       setProcesando appendLog setNombreArchivoOk setNombreArchivoRequerido
       habilitarCargaSiHayTipo aplicarColorSelect
       set_tipoSelect set_hiddenMedicion set_inputArchivo set_btnProcesar
       set_busy set_nombreSpan set_logArea set_spectralon set_sessionStorage
       tipoSelect hiddenMedicion inputArchivo btnProcesar formDatos_busy
       nombreSpan logArea inputSpectralon nombreSpectralon sessionStorage
       fst snd negb] in *.

(** The ways an exchange can go. *)
Ltac by_exchange x :=
  destruct x as [[[[] st txt [blob|e1] cd]|e0] [de|] [se|]];
  cbv [fetch_result resp_ok resp_status resp_text resp_blob
       download_error sound_error negb].

(** C2: a submission without a measurement type is answered by the warning
    alone: nothing on the page changes and no request is made. With a type
    but without a file the second warning is shown, the status label gets its
    warning form, and again no request is made. The type is checked first. *)
Theorem submit_blocked_before_any_request env x d :
  (hayTipo d = false →
     run (submitHandler env x) d
     = ((d, [EPreventDefault; warnEvent env msg_falta_tipo]), Returned))
  ∧ (hayTipo d = true → tieneArchivo d = false →
     trace_of (submitHandler env x) d
     = [EPreventDefault; warnEvent env msg_falta_zip]
     ∧ completion_of (submitHandler env x) d = Returned
     ∧ (∀ l, nombreSpan d = Some l →
             nombreSpan (dom_after (submitHandler env x) d)
             = Some (LabelWarning msg_label_zip)))
  ∧ (hayTipo d = false ∨ tieneArchivo d = false →
     List.filter isFetch (trace_of (submitHandler env x) d) = []).
Proof.
  split; [|split].
  - intros H. step_cmd. rewrite H. reflexivity.
  - intros H1 H2. step_cmd. rewrite H1, H2. cbv [negb fst snd].
    repeat split. intros l Hl. rewrite Hl. reflexivity.
  - intros H. step_cmd.
    unfold warnEvent.
    destruct (hayTipo d) eqn:H1; [|destruct (has_mostrarToast env); reflexivity].
    destruct H as [H|H]; [done|]. rewrite H.
    destruct (has_mostrarToast env); reflexivity.
Qed.

Lemma submit_blocked_before_any_request_witness :
  trace_of (submitHandler sample_env (exchange_of (Fulfilled (response_ok None))))
    sample_page_no_file
  = [EPreventDefault; EToast msg_falta_zip]
  ∧ completion_of
      (submitHandler sample_env (exchange_of (Fulfilled (response_ok None))))
      sample_page_no_file = Returned
  ∧ (∀ l, nombreSpan sample_page_no_file = Some l →
          nombreSpan
            (dom_after
               (submitHandler sample_env
                  (exchange_of (Fulfilled (response_ok None))))
               sample_page_no_file)
          = Some (LabelWarning msg_label_zip)).
Proof.
  apply (proj1 (proj2 (submit_blocked_before_any_request sample_env
                         (exchange_of (Fulfilled (response_ok None)))
                         sample_page_no_file)));
    reflexivity.
Defined.

(** C1, as amended: whatever way the exchange goes (a response with or
    without success status, a rejected request, a failing body read, download
    or sound), the handler ends by the call of [setProcesando(false)] of its
    [finally] block, which leaves the submit control enabled with its label
    restored and the form no longer dimmed, and no exception escapes. That
    call is the only release, except after a response without success status,
    where the branch has already released once: two releases. *)
Theorem submit_releases_on_every_exit env x d b :
  hayTipo d = true →
  tieneArchivo d = true →
  btnProcesar d = Some b →
  btnProcesar (dom_after (submitHandler env x) d)
  = Some {| btn_disabled := false; btn_text := label_procesar |}
  ∧ formDatos_busy (dom_after (submitHandler env x) d) = false
  ∧ (∃ t0, trace_of (submitHandler env x) d = t0 ++ [ESetProcesando false])
  ∧ releases (trace_of (submitHandler env x) d)
    = match fetch_result x with
      | Fulfilled resp => if resp_ok resp then 1%nat else 2%nat
      | Rejected _ => 1%nat
      end
  ∧ (∀ err, completion_of (submitHandler env x) d ≠ Thrown err).
Proof.
  intros H1 H2 Hb.
  destruct d as [ts hm ia bp busy ns la isp nsp ss]. cbn in Hb. subst bp.
  step_cmd. rewrite H1, H2. cbv [negb].
  destruct x as [[resp|err] de se]; cbv [fetch_result download_error sound_error];
    destruct la as [la|].
  all: try (destruct resp as [ok st txt blob cd];
            cbv [resp_ok resp_status resp_text resp_blob];
            destruct ok; cbv [negb];
            [destruct blob as [bl|err]; [destruct de as [err|]|];
             [| destruct (has_playDoneSound env); [destruct se as [err|]|] |]|]).
  all: (split; [reflexivity|]); (split; [reflexivity|]);
       (split; [eexists; reflexivity|]); (split; [reflexivity|]);
       intros ?; discriminate.
Qed.

Lemma submit_releases_on_every_exit_witness :
  btnProcesar (dom_after (submitHandler sample_env
                            (exchange_of (Rejected (js "TypeError: Failed to fetch"))))
                 sample_page)
  = Some {| btn_disabled := false; btn_text := label_procesar |}
  ∧ formDatos_busy
      (dom_after (submitHandler sample_env
                    (exchange_of (Rejected (js "TypeError: Failed to fetch"))))
         sample_page) = false
  ∧ (∃ t0, trace_of (submitHandler sample_env
                       (exchange_of (Rejected (js "TypeError: Failed to fetch"))))
             sample_page = t0 ++ [ESetProcesando false])
  ∧ releases (trace_of (submitHandler sample_env
                          (exchange_of (Rejected (js "TypeError: Failed to fetch"))))
                sample_page) = 1%nat
  ∧ (∀ err, completion_of
              (submitHandler sample_env
                 (exchange_of (Rejected (js "TypeError: Failed to fetch"))))
              sample_page ≠ Thrown err).
Proof.
  apply (submit_releases_on_every_exit sample_env
           (exchange_of (Rejected (js "TypeError: Failed to fetch")))
           sample_page {| btn_disabled := false; btn_text := label_procesar |});
    reflexivity.
Defined.

(** Counterexample to C1 as stated: a response with status 500. The branch for it calls
    [setProcesando(false)] and returns, and the [finally] block calls it
    again: the control is released twice, not once. *)
Lemma submit_server_error_releases_twice :
  ¬ (∀ env x d, hayTipo d = true → tieneArchivo d = true →
                releases (trace_of (submitHandler env x) d) = 1%nat).
Proof.
  intros H.
  specialize (H sample_env (exchange_of (Fulfilled response_500)) sample_page
                eq_refl eq_refl).
  vm_compute in H. discriminate.
Qed.

Example server_error_trace :
  trace_of (submitHandler sample_env (exchange_of (Fulfilled response_500)))
    sample_page
  = [EPreventDefault; ESetProcesando true; EAppendLog msg_iniciando; EFetch;
     EAppendLog (msg_error_servidor 500 (js "ZIP invalido"));
     ESetProcesando false; ESetProcesando false].
Proof. reflexivity. Qed.

(** C8, as amended: the reset statements run in order up to the first one
    that throws; that one and the ones after it are skipped and the page
    keeps what they would have reset, the exception is caught and reported on
    the console, and the handler returns normally without cancelling the
    submission. When nothing throws, all six run and nothing is reported. *)
Theorem reset_runs_until_first_failure fails d :
  executed (trace_of (resetHandler fails) d) = stepsBefore fails allSteps
  ∧ dom_after (resetHandler fails) d
    = foldl (fun d step => resetEffect step d) d (stepsBefore fails allSteps)
  ∧ completion_of (resetHandler fails) d = Normal
  ∧ ¬ In EPreventDefault (trace_of (resetHandler fails) d)
  ∧ List.filter isConsoleWarn (trace_of (resetHandler fails) d)
    = match firstFailure fails allSteps with
      | Some err => [EConsoleWarn msg_limpieza err]
      | None => []
      end.
Proof.
  unfold allSteps. cbn [stepsBefore firstFailure].
  cbv [run dom_after trace_of completion_of resetHandler resetStep
       try_catch seq orThrow emit update throw fst snd].
  destruct (fails ClearStorage); [|destruct (fails ResetTipo);
    [|destruct (fails ClearPicker); [|destruct (fails ResetLabel);
      [|destruct (fails ClearLog); [|destruct (fails ResetSpectralon)]]]]].
  all: cbn [foldl app executed List.filter isConsoleWarn];
       (split; [reflexivity|]); (split; [reflexivity|]);
       (split; [reflexivity|]); (split; [|reflexivity]);
       cbn [In]; intuition discriminate.
Qed.

(** Counterexample to C8 as stated: the storage call throws. None of the five statements after it runs;
    the measurement type, for one, keeps its value. *)
Lemma reset_storage_failure_skips_the_rest :
  ¬ (∀ (fails : ResetStep → option jsstring) d step other,
       fails step ≠ None → (∀ s, s ≠ step → fails s = None) →
       other ≠ step →
       In other (executed (trace_of (resetHandler fails) d))).
Proof.
  intros H.
  specialize (H (fun s => match s with
                          | ClearStorage => Some (js "SecurityError")
                          | _ => None
                          end)
                sample_page ClearStorage ResetTipo).
  cbv [trace_of run resetHandler resetStep try_catch seq orThrow throw emit
       executed fst snd app In] in H.
  apply H; [discriminate| |discriminate].
  intros [] Hs; done.
Qed.

Example storage_failure_keeps_type :
  let fails := fun s => match s with
                        | ClearStorage => Some (js "SecurityError")
                        | _ => None
                        end in
  tipoSelect (dom_after (resetHandler fails) sample_page)
  = tipoSelect sample_page
  ∧ trace_of (resetHandler fails) sample_page
    = [EConsoleWarn msg_limpieza (js "SecurityError")].
Proof. split; reflexivity. Qed.

(** *** The selection guard *)

Lemma init_guard env s :
  ∃ s', init env s = (s', Normal) ∧ guardHolds s'.1.
Proof.
  destruct s as [[ts hm ia bp busy ns la isp nsp ss] t].
  step_cmd.
  destruct hm as [hm|], ts as [[v ag su]|], ia as [[fs dis]|], bp as [[bd bt]|];
    step_cmd;
    match goal with
    | |- context [storage_is ?k ?v ?d] => destruct (storage_is k v d)
    end;
    destruct ns as [l|]; step_cmd;
    (eexists; split; [reflexivity|]);
    (split; cbn; intros ? [= <-]; reflexivity).
Qed.

Lemma userSelectsTipo_guard env v s :
  guardHolds s.1 →
  ∃ s', userSelectsTipo env v s = (s', Normal) ∧ guardHolds s'.1.
Proof.
  destruct s as [[ts hm ia bp busy ns la isp nsp ss] t]. intros Hg.
  step_cmd.
  destruct ts as [[v0 ag su]|]; [|eexists; split; [reflexivity|exact Hg]].
  clear Hg.
  destruct hm as [hm|], ia as [[fs dis]|], bp as [[bd bt]|]; step_cmd;
    match goal with
    | |- context [storage_is ?k ?v ?d] => destruct (storage_is k v d)
    end;
    step_cmd;
    (eexists; split; [reflexivity|]);
    (split; cbn; intros ? [= <-]; reflexivity).
Qed.

Lemma perform_guard env a s :
  guardHolds s.1 →
  ∃ s', perform env a s = (s', Normal) ∧ guardHolds s'.1.
Proof.
  destruct a as [v|names]; [apply userSelectsTipo_guard|].
  destruct s as [[ts hm ia bp busy ns la isp nsp ss] t]. intros [Hfi Hb].
  cbv [perform onArchivoChange]. step_cmd.
  destruct ia as [[fs dis]|]; [|eexists; split; [reflexivity|by split]].
  specialize (Hfi _ eq_refl). cbn in Hfi, Hb.
  destruct names as [|[|c nombre] names], ns as [l|]; step_cmd;
    (eexists; split; [reflexivity|]);
    (split; unfold hayTipo in *; cbv [negb] in *; cbn in *;
     [intros ? [= <-]; exact Hfi|exact Hb]).
Qed.

Lemma performAll_guard env acts :
  ∀ s, guardHolds s.1 →
       ∃ s', performAll env acts s = (s', Normal) ∧ guardHolds s'.1.
Proof.
  induction acts as [|a acts IH]; intros s Hg.
  - exists s. done.
  - destruct (perform_guard env a s Hg) as (s1 & E1 & H1).
    destruct (IH s1 H1) as (s2 & E2 & H2).
    exists s2. split; [|done].
    cbn [performAll]. unfold seq at 1. by rewrite E1.
Qed.

Lemma visit_guard env acts d0 : guardHolds (dom_after (visit env acts) d0).
Proof.
  destruct (init_guard env (d0, [])) as (s1 & E1 & H1).
  destruct (performAll_guard env acts s1 H1) as (s2 & E2 & H2).
  unfold dom_after, run, visit, seq. by rewrite E1, E2.
Qed.

(** *** The guard over the life of the page *)












Lemma reset_dom fails d :
  dom_after (resetHandler fails) d
  = foldl (fun d step => resetEffect step d) d (stepsBefore fails allSteps).
Proof.
  unfold allSteps. cbn [stepsBefore].
  cbv [run dom_after resetHandler resetStep
       try_catch seq orThrow emit update throw fst snd].
  destruct (fails ClearStorage); [|destruct (fails ResetTipo);
    [|destruct (fails ClearPicker); [|destruct (fails ResetLabel);
      [|destruct (fails ClearLog); [|destruct (fails ResetSpectralon)]]]]];
    reflexivity.
Qed.









(** A visit is the load followed by the user's actions as events. *)
Lemma pageAfter_visit env acts d0 :
  pageAfter env (map UserDoes acts) d0 = dom_after (visit env acts) d0.
Proof.
  unfold pageAfter, dom_after, run, visit, seq.
  destruct (init_guard env (d0, [])) as (s1 & -> & H1). cbn [fst].
  revert s1 H1. induction acts as [|a acts IH]; intros s1 H1; [done|].
  cbn [map handleAll handle performAll]. unfold seq at 1.
  destruct (perform_guard env a s1 H1) as (s2 & -> & H2). cbn [fst].
  by apply IH.
Qed.




Example reset_page_values :
  let d := pageAfter sample_env [Resets (fun _ => None)] sample_page in
  hayTipo d = false
  ∧ inputArchivo d = Some {| fi_files := []; fi_disabled := false |}
  ∧ btnProcesar d
    = Some {| btn_disabled := false; btn_text := label_procesar |}.
Proof. repeat split. Qed.

(** While a submission is in flight the submit control is disabled although
    a type is chosen. *)
Example submit_control_disabled_in_flight :
  hayTipo (dom_after (setProcesando true) sample_page) = true
  ∧ btnProcesar (dom_after (setProcesando true) sample_page)
    = Some {| btn_disabled := true; btn_text := label_procesando |}.
Proof. split; reflexivity. Qed.

(** *** The filename pattern *)

Lemma lowerChar_quote c : lowerChar c = 34 → c = 34.
Proof.
  unfold lowerChar. destruct ((65 <=? c) && (c <=? 90)) eqn:E; [|done].
  apply andb_true_iff in E as [E1 E2]. apply N.leb_le in E1. lia.
Qed.

Lemma dropPrefixCI_spec p s r :
  dropPrefixCI p s = Some r ↔ ∃ kw, s = kw ++ r ∧ map lowerChar kw = p.
Proof.
  revert s; induction p as [|a p IH]; intros s; simpl.
  - split.
    + intros [= ->]. by exists [].
    + intros (kw & -> & E). by destruct kw.
  - destruct s as [|b s].
    + split; [done|]. intros (kw & E1 & E2). by destruct kw.
    + destruct (a =? lowerChar b) eqn:E.
      * apply N.eqb_eq in E. rewrite IH. split.
        -- intros (kw & -> & <-). exists (b :: kw). by rewrite E.
        -- intros (kw & E1 & E2). destruct kw as [|c kw]; [done|].
           simplify_eq/=. by exists kw.
      * apply N.eqb_neq in E. split; [done|].
        intros (kw & E1 & E2). destruct kw as [|c kw]; simplify_eq/=.
Qed.

Lemma spanNotQuote_spec s :
  s = (spanNotQuote s).1 ++ (spanNotQuote s).2
  ∧ ¬ In 34 (spanNotQuote s).1.
Proof.
  induction s as [|c r [IH1 IH2]]; simpl; [by split; [|intros []]|].
  destruct (c =? 34) eqn:E; simpl; [by split; [|intros []]|].
  destruct (spanNotQuote r) as [v rest]; simpl in *.
  apply N.eqb_neq in E. split; [by f_equal|]. intros [?|?]; done.
Qed.

Lemma spanNotQuote_unique v post :
  ¬ In 34 v → spanNotQuote (v ++ 34 :: post) = (v, 34 :: post).
Proof.
  induction v as [|c v IH]; intros Hv; [reflexivity|].
  cbn [app spanNotQuote].
  destruct (c =? 34) eqn:E; [apply N.eqb_eq in E; subst; destruct Hv; by left|].
  rewrite IH; [done|]. intros ?; apply Hv; by right.
Qed.

Lemma matchAt_spec s v : matchAt s = Some v ↔ MatchesAt s v.
Proof.
  unfold matchAt, MatchesAt. split.
  - destruct (dropPrefixCI (jsq "filename=`") s) as [r|] eqn:Hp; [|done].
    apply dropPrefixCI_spec in Hp as (kw & -> & Hkw).
    destruct (spanNotQuote_spec r) as [Hr Hq].
    destruct (spanNotQuote r) as [w rest]; simpl in *.
    destruct w as [|c w]; [done|].
    destruct rest as [|q post]; [done|].
    destruct (N.eq_dec q 34) as [->|Hq34];
      [|by (destruct q as [|q]; [done|];
            repeat (destruct q as [q|q|]; try done))].
    intros [= <-].
    do 10 (destruct kw as [|? kw]; [done|]). destruct kw; [|done].
    change (jsq "filename=`")
      with [102; 105; 108; 101; 110; 97; 109; 101; 61; 34] in Hkw.
    cbn [map] in Hkw. simplify_eq.
    match goal with H : lowerChar _ = 34 |- _ => apply lowerChar_quote in H end.
    subst.
    eexists [_; _; _; _; _; _; _; _; _], post.
    split; [reflexivity|]. split; [|done].
    change (js "filename=") with [102; 105; 108; 101; 110; 97; 109; 101; 61].
    unfold toLowerCase. cbn [map]. congruence.
  - intros (kw & post & -> & Hkw & Hne & Hq).
    assert (Hp : dropPrefixCI (jsq "filename=`")
                   (kw ++ 34 :: v ++ 34 :: post) = Some (v ++ 34 :: post)).
    { apply dropPrefixCI_spec. exists (kw ++ [34]).
      split; [by rewrite <- app_assoc|].
      rewrite map_app. unfold toLowerCase in Hkw. rewrite Hkw. reflexivity. }
    rewrite Hp, spanNotQuote_unique by done.
    destruct v; done.
Qed.

Lemma matchFilename_unfold s :
  matchFilename s = match matchAt s with
                    | Some v => Some v
                    | None => match s with
                              | [] => None
                              | _ :: r => matchFilename r
                              end
                    end.
Proof. destruct s; reflexivity. Qed.

(** [matchFilename] returns the capture of the leftmost match. *)
Lemma matchFilename_leftmost h v :
  matchFilename h = Some v ↔ LeftmostMatch h v.
Proof.
  split.
  - revert v. induction h as [|c r IH]; intros v; rewrite matchFilename_unfold.
    + destruct (matchAt []) as [w|] eqn:E; [|done]. intros [= ->].
      exists [], []. split; [done|]. split; [by apply matchAt_spec|].
      intros ??? _ Hl. simpl in Hl. lia.
    + destruct (matchAt (c :: r)) as [w|] eqn:E.
      * intros [= ->]. exists [], (c :: r).
        split; [done|]. split; [by apply matchAt_spec|].
        intros ??? _ Hl. simpl in Hl. lia.
      * intros Hr. destruct (IH v Hr) as (pre & s & -> & Hm & Hleft).
        exists (c :: pre), s. split; [done|]. split; [done|].
        intros pre' s' v' Heq Hlen Hm'.
        destruct pre' as [|c' pre''].
        -- simpl in Heq. subst s'. apply matchAt_spec in Hm'. congruence.
        -- simpl in Heq, Hlen. injection Heq as <- Heq.
           apply (Hleft pre'' s' v' Heq); [lia|done].
  - intros (pre & s & -> & Hm & Hleft).
    induction pre as [|c pre IH]; rewrite matchFilename_unfold.
    + apply matchAt_spec in Hm. simpl. by rewrite Hm.
    + destruct (matchAt ((c :: pre) ++ s)) as [w|] eqn:E.
      * apply matchAt_spec in E.
        destruct (Hleft [] ((c :: pre) ++ s) w eq_refl); [simpl; lia|done].
      * simpl. apply IH. intros pre' s' v' Heq Hlen.
        apply (Hleft (c :: pre') s' v'); [simpl; by f_equal|simpl; lia].
Qed.

Lemma matchFilename_none h : NoMatch h → matchFilename h = None.
Proof.
  intros Hno. destruct (matchFilename h) as [v|] eqn:E; [|done].
  apply matchFilename_leftmost in E as (pre & s & -> & Hm & _).
  destruct (Hno pre s v eq_refl Hm).
Qed.

(** C7: after a response with success status whose body was read, the
    download that is triggered is named by the capture of the first match of
    the filename pattern in the Content-Disposition header, and by
    resultados.zip when the header is missing or has no match. *)
Theorem download_named_after_header env x d resp blob :
  hayTipo d = true →
  tieneArchivo d = true →
  fetch_result x = Fulfilled resp →
  resp_ok resp = true →
  resp_blob resp = Fulfilled blob →
  download_error x = None →
  (∀ h v, resp_content_disposition resp = Some h → LeftmostMatch h v →
          List.filter isDownload (trace_of (submitHandler env x) d)
          = [EDownload v blob])
  ∧ (resp_content_disposition resp = None
     ∨ (∃ h, resp_content_disposition resp = Some h ∧ NoMatch h) →
     List.filter isDownload (trace_of (submitHandler env x) d)
     = [EDownload (js "resultados.zip") blob]).
Proof.
  intros H1 H2 Hf Hok Hblob Hde.
  assert (Ht : List.filter isDownload (trace_of (submitHandler env x) d)
               = [EDownload (filenameOf resp) blob]).
  { destruct d as [ts hm ia bp busy ns la isp nsp ss].
    step_cmd. rewrite H1, H2, Hf, Hok, Hblob, Hde. cbv [negb].
    destruct bp, la, (has_playDoneSound env), (sound_error x); reflexivity. }
  rewrite Ht. unfold filenameOf. split.
  - intros h v -> Hm. apply matchFilename_leftmost in Hm. by rewrite Hm.
  - intros [->|(h & -> & Hno)]; [reflexivity|].
    by rewrite (matchFilename_none h Hno).
Qed.

Lemma download_named_after_header_witness :
  List.filter isDownload
    (trace_of (submitHandler sample_env
                 (exchange_of
                    (Fulfilled
                       (response_ok
                          (Some (jsq "attachment; filename=`out.zip`"))))))
       sample_page)
  = [EDownload (js "out.zip") (js "PK")].
Proof.
  refine (proj1 (download_named_after_header sample_env
                   (exchange_of
                      (Fulfilled
                         (response_ok
                            (Some (jsq "attachment; filename=`out.zip`")))))
                   sample_page
                   (response_ok (Some (jsq "attachment; filename=`out.zip`")))
                   (js "PK") eq_refl eq_refl eq_refl eq_refl eq_refl eq_refl)
            (jsq "attachment; filename=`out.zip`") (js "out.zip") eq_refl _).
  apply matchFilename_leftmost. vm_compute. reflexivity.
Defined.

End IndexFacts.

(* ===================================================================== *)
(** ** More on the list editor *)
(* ===================================================================== *)

Module EditorFacts.
Import Config EditorSession JsonFacts ConfigFacts Samples.

(** *** Which texts the strict attempt can accept *)

Lemma consTok_head t r u ts : consTok t r = Ok (u :: ts) → t = u.
Proof. destruct r; simpl; congruence. Qed.

Lemma tokenize_first_bracket n :
  ∀ text ts, tokenize n text = Ok (TLBrack :: ts) →
    ∃ pre r, text = pre ++ 91 :: r ∧ forallb isJsonSpace pre = true.
Proof.
  induction n as [|n IH]; intros text ts H; [done|].
  destruct text as [|c r]; [done|]. cbn [tokenize] in H.
  destruct (isJsonSpace c) eqn:Hc.
  { destruct (IH r ts H) as (pre & r' & -> & Hpre).
    exists (c :: pre), r'. split; [done|]. simpl. by rewrite Hc. }
  repeat case_match; try done;
    try (apply consTok_head in H; discriminate H).
  match goal with E : (c =? 91) = true |- _ => apply N.eqb_eq in E; subst c end.
  by exists [], r.
Qed.

Lemma parseValue_array_head n ts vs rest :
  parseValue n ts = Ok (JArr vs, rest) → ∃ ts', ts = TLBrack :: ts'.
Proof.
  destruct n as [|n]; [done|]. cbn [parseValue].
  destruct ts as [|[] r]; try done; [|by eexists].
  destruct r as [|[] r']; try done;
    match goal with
    | |- context [parseMembers n ?x] => destruct (parseMembers n x) as [[]| |]
    end; done.
Qed.

(** A text [JSON.parse] reads as an array has an opening bracket as its
    first character after JSON white space. *)
Lemma JSON_parse_array_starts_with_bracket text vs :
  JSON_parse text = Ok (JArr vs) →
  ∃ pre r, text = pre ++ 91 :: r ∧ forallb isJsonSpace pre = true.
Proof.
  unfold JSON_parse.
  destruct (tokenize (S (length text)) text) as [ts| |] eqn:Ht; try done.
  destruct (parseValue (2 * length ts + 2) ts) as [[v [|]]| |] eqn:Hp; try done.
  intros [= ->]. apply parseValue_array_head in Hp as [ts' ->].
  by apply tokenize_first_bracket in Ht.
Qed.

(** *** The pieces of the comma-separated fallback *)

Lemma split_comma_no_comma s t : In t (split_comma s) → ¬ In 44 t.
Proof.
  revert t; induction s as [|c r IH]; intros t; simpl.
  - intros [<-|[]] [].
  - destruct (c =? 44) eqn:E.
    + intros [<-|H]; [intros []|by apply IH].
    + apply N.eqb_neq in E.
      destruct (split_comma r) as [|h tl]; simpl.
      * intros [<-|[]] [?|[]]. done.
      * intros [<-|H].
        -- intros [?|Hh]; [done|]. apply (IH h); [by left|done].
        -- apply IH. by right.
Qed.

Lemma trimStart_incl s x : In x (trimStart s) → In x s.
Proof.
  induction s as [|c r IH]; simpl; [done|].
  destruct (isTrimSpace c); [|done]. intros H. right. by apply IH.
Qed.

Lemma trim_incl s x : In x (trim s) → In x s.
Proof.
  unfold trim, trimEnd. intros H.
  apply in_rev, trimStart_incl, in_rev in H. by apply trimStart_incl.
Qed.

Lemma stripQuotes_incl s x : In x (stripQuotes s) → In x s.
Proof.
  unfold stripQuotes.
  set (s1 := match s with
             | [] => []
             | c :: r => if isQuoteChar c then r else s
             end).
  assert (H1 : In x s1 → In x s).
  { subst s1. destruct s as [|c r]; [done|].
    destruct (isQuoteChar c); [by right|done]. }
  destruct (rev s1) as [|c r] eqn:E; [done|].
  destruct (isQuoteChar c); [|done].
  intros H. apply H1, in_rev. rewrite E. right. by apply in_rev.
Qed.

Lemma trimStart_head c r : isTrimSpace c = false → trimStart (c :: r) = c :: r.
Proof. intros H. simpl. by rewrite H. Qed.

Lemma trimStart_app x y :
  trimStart x ≠ [] → trimStart (x ++ y) = trimStart x ++ y.
Proof.
  induction x as [|c r IH]; simpl; [done|].
  destruct (isTrimSpace c); [apply IH|done].
Qed.

Lemma trimStart_blank_app ws y :
  forallb isTrimSpace ws = true → trimStart (ws ++ y) = trimStart y.
Proof.
  induction ws as [|c r IH]; simpl; [done|].
  intros H. apply andb_true_iff in H as [-> Hr]. by apply IH.
Qed.

Lemma trimEnd_app a b : trimEnd b ≠ [] → trimEnd (a ++ b) = a ++ trimEnd b.
Proof.
  unfold trimEnd. intros H. rewrite rev_app_distr, trimStart_app.
  - by rewrite rev_app_distr, rev_involutive.
  - intros E. apply H. by rewrite E.
Qed.

Lemma trimEnd_last s l r :
  rev s = l :: r → isTrimSpace l = false → trimEnd s = s.
Proof.
  intros E Hl. unfold trimEnd. rewrite E, trimStart_head by done.
  by rewrite <- E, rev_involutive.
Qed.

Lemma plainToken_facts t :
  plainToken t = true →
  ∃ c t', t = c :: t' ∧ isTrimSpace c = false ∧ isQuoteChar c = false
          ∧ c ≠ 91
          ∧ ∃ l r, rev t = l :: r ∧ isTrimSpace l = false
                   ∧ isQuoteChar l = false ∧ ¬ In 44 t.
Proof.
  unfold plainToken, edgeOk. destruct t as [|c t']; [done|].
  destruct (rev (c :: t')) as [|l r] eqn:E; [done|].
  intros H.
  repeat match goal with
         | H : _ && _ = true |- _ => apply andb_true_iff in H as [? ?]
         end.
  repeat match goal with
         | H : negb _ = true |- _ => apply negb_true_iff in H
         end.
  exists c, t'. split; [done|]. do 2 (split; [done|]).
  split; [by apply N.eqb_neq|].
  exists l, r. do 3 (split; [done|]).
  match goal with H : forallb _ _ = true |- _ => rewrite forallb_forall in H;
    rename H into Hno end.
  intros Hin. apply Hno in Hin. done.
Qed.

Lemma not_trimSpace_not_jsonSpace c :
  isTrimSpace c = false → isJsonSpace c = false.
Proof.
  intros H. destruct (isJsonSpace c) eqn:E; [|done].
  unfold isJsonSpace in E.
  repeat (apply orb_true_iff in E as [E|E]);
    apply N.eqb_eq in E; subst; done.
Qed.

Lemma trim_plain t : plainToken t = true → trim t = t.
Proof.
  intros H. destruct (plainToken_facts t H)
    as (c & t' & -> & Hc & _ & _ & l & r & E & Hl & _).
  unfold trim. rewrite trimStart_head by done. by eapply trimEnd_last.
Qed.

Lemma stripQuotes_plain t : plainToken t = true → stripQuotes t = t.
Proof.
  intros H. destruct (plainToken_facts t H)
    as (c & t' & -> & _ & Hc & _ & l & r & E & _ & Hl & _).
  unfold stripQuotes. by rewrite Hc, E, Hl.
Qed.

Lemma map_stripQuotes_plain toks :
  Forall (fun t => plainToken t = true) toks → map stripQuotes toks = toks.
Proof.
  induction 1 as [|t r Ht _ IH]; simpl; [done|].
  by rewrite stripQuotes_plain, IH.
Qed.

Lemma split_comma_plain_app t s :
  ¬ In 44 t → split_comma (t ++ 44 :: s) = t :: split_comma s.
Proof.
  induction t as [|c r IH]; intros Hno; [reflexivity|].
  cbn [app split_comma].
  destruct (c =? 44) eqn:E; [apply N.eqb_eq in E; destruct Hno; by left|].
  rewrite IH; [done|]. intros ?; apply Hno; by right.
Qed.

Lemma split_comma_plain t : ¬ In 44 t → split_comma t = [t].
Proof.
  induction t as [|c r IH]; intros Hno; [reflexivity|].
  cbn [split_comma].
  destruct (c =? 44) eqn:E; [apply N.eqb_eq in E; destruct Hno; by left|].
  rewrite IH; [done|]. intros ?; apply Hno; by right.
Qed.

Lemma blank_no_comma ws : forallb isTrimSpace ws = true → ¬ In 44 ws.
Proof.
  rewrite forallb_forall. intros H Hin. apply H in Hin. done.
Qed.

(** The pieces [split] cuts a joined text into: the first token, and every
    other token behind the white space of the separator. *)
Lemma split_comma_join ws toks :
  forallb isTrimSpace ws = true →
  Forall (fun t => plainToken t = true) toks →
  toks ≠ [] →
  split_comma (join (44 :: ws) toks)
  = match toks with
    | [] => []
    | t :: r => t :: map (fun x => ws ++ x) r
    end.
Proof.
  intros Hws Hall Hne.
  assert (Hgen : ∀ pre toks,
            ¬ In 44 pre →
            Forall (fun t => plainToken t = true) toks → toks ≠ [] →
            split_comma (pre ++ join (44 :: ws) toks)
            = match toks with
              | [] => []
              | t :: r => (pre ++ t) :: map (fun x => ws ++ x) r
              end).
  { clear toks Hall Hne. intros pre toks. revert pre.
    induction toks as [|t r IH]; intros pre Hpre Hall Hne; [done|].
    inversion Hall as [|? ? Ht Hr]; subst.
    destruct (plainToken_facts t Ht) as (_ & _ & _ & _ & _ & _ & _ & _ & _ & _ & _ & Hno).
    assert (Hpt : ¬ In 44 (pre ++ t)).
    { rewrite in_app_iff. intros [?|?]; done. }
    destruct r as [|t' r'].
    - cbn [join map]. by apply split_comma_plain.
    - change (join (44 :: ws) (t :: t' :: r'))
        with (t ++ (44 :: ws) ++ join (44 :: ws) (t' :: r')).
      rewrite app_assoc. cbn [app].
      rewrite split_comma_plain_app by done.
      rewrite (IH ws); [reflexivity|by apply blank_no_comma|done|done]. }
  apply (Hgen [] toks); [intros []|done|done].
Qed.

Lemma parts_of_plain ws toks :
  forallb isTrimSpace ws = true →
  Forall (fun t => plainToken t = true) toks →
  List.filter truthy
    (map trim match toks with
              | [] => []
              | t :: r => t :: map (fun x => ws ++ x) r
              end)
  = toks.
Proof.
  intros Hws Hall.
  assert (Hkeep : ∀ t, plainToken t = true → truthy t = true).
  { intros t Ht.
    by destruct (plainToken_facts t Ht) as (c & t' & -> & _). }
  assert (Hrest : ∀ r, Forall (fun t => plainToken t = true) r →
            List.filter truthy (map trim (map (fun x => ws ++ x) r)) = r).
  { induction 1 as [|t r Ht _ IH]; [done|].
    cbn [map List.filter].
    assert (Et : trim (ws ++ t) = t).
    { unfold trim. rewrite trimStart_blank_app by done.
      by apply trim_plain. }
    by rewrite Et, (Hkeep t Ht), IH. }
  destruct Hall as [|t r Ht Hr]; [done|].
  cbn [map List.filter].
  by rewrite (trim_plain t Ht), (Hkeep t Ht), Hrest.
Qed.

Lemma trim_join_plain ws toks :
  forallb isTrimSpace ws = true →
  Forall (fun t => plainToken t = true) toks →
  toks ≠ [] →
  trim (join (44 :: ws) toks) = join (44 :: ws) toks.
Proof.
  intros Hws Hall Hne.
  assert (Hend : trimEnd (join (44 :: ws) toks) = join (44 :: ws) toks
                 ∧ join (44 :: ws) toks ≠ []).
  { induction Hall as [|t r Ht Hr IH]; [done|].
    destruct (plainToken_facts t Ht)
      as (c & t' & -> & _ & _ & _ & l & r0 & E & Hl & _).
    destruct r as [|t1 r1].
    - cbn [join]. split; [by eapply trimEnd_last|done].
    - destruct IH as [IH1 IH2]; [done|].
      change (join (44 :: ws) ((c :: t') :: t1 :: r1))
        with ((c :: t') ++ (44 :: ws) ++ join (44 :: ws) (t1 :: r1)).
      split; [|done].
      rewrite trimEnd_app by (rewrite trimEnd_app, IH1; [by destruct ws|];
                              by rewrite IH1).
      rewrite trimEnd_app by (by rewrite IH1).
      by rewrite IH1. }
  destruct Hend as [Hend _].
  unfold trim.
  destruct Hall as [|t r Ht Hr]; [done|].
  destruct (plainToken_facts t Ht) as (c & t' & -> & Hc & _).
  assert (Hj : ∃ x, join (44 :: ws) ((c :: t') :: r) = c :: x)
    by (destruct r; simpl; eauto).
  destruct Hj as [x Hx]. rewrite Hx in *.
  by rewrite trimStart_head.
Qed.

Section WithNumberFormat.

Variable nf : jsstring → jsstring.

Lemma strictArray_starts_with_bracket text l :
  strictArray nf text = Some l →
  ∃ pre r, text = pre ++ 91 :: r ∧ forallb isJsonSpace pre = true.
Proof.
  unfold strictArray.
  destruct (JSON_parse text) as [[]| |] eqn:H; try done.
  intros _. by apply JSON_parse_array_starts_with_bracket in H.
Qed.

(** A text that starts with anything but JSON white space or an opening
    bracket goes to the comma-separated fallback. *)
Lemma strictArray_none_by_first c r :
  isJsonSpace c = false → c ≠ 91 → strictArray nf (c :: r) = None.
Proof.
  intros Hc Hb. destruct (strictArray nf (c :: r)) as [l|] eqn:E; [|done].
  apply strictArray_starts_with_bracket in E as (pre & r' & E & Hpre).
  destruct pre as [|x pre]; simplify_eq/=.
  apply andb_true_iff in Hpre as [Hx _]. congruence.
Qed.

Lemma trimStart_blank s : forallb isTrimSpace s = true → trimStart s = [].
Proof.
  induction s as [|c r IH]; simpl; [done|].
  intros H. apply andb_true_iff in H as [-> Hr]. by apply IH.
Qed.

Lemma strictArray_blank text :
  forallb isTrimSpace text = true → strictArray nf text = None.
Proof.
  intros Hb. destruct (strictArray nf text) as [l|] eqn:E; [|done].
  apply strictArray_starts_with_bracket in E as (pre & r & -> & _).
  rewrite forallb_app in Hb. apply andb_true_iff in Hb as [_ Hb].
  simpl in Hb. done.
Qed.

(** X1: a text made of white space only (the empty text included) parses to
    the empty list, so [applyEditor] answers it with the error asking for at
    least one value and commits nothing. *)
Theorem blank_text_is_rejected p text fb :
  forallb isTrimSpace text = true →
  editor p = Some text →
  feedback p = Some fb →
  parseToArrayLoose nf text = []
  ∧ applyEditor nf p
    = Done {| fields := fields p; editor := editor p;
              feedback := Some {| fb_class := "mt-2 small text-danger";
                                  fb_text := msg_vacio |};
              modal := modal p; currentField := currentField p |}.
Proof.
  intros Hb He Hfb.
  assert (Hparse : parseToArrayLoose nf text = []).
  { unfold parseToArrayLoose. rewrite (strictArray_blank text Hb).
    unfold looseFallback, looseParts, looseText, trim.
    rewrite (trimStart_blank text Hb). reflexivity. }
  split; [done|].
  unfold applyEditor. rewrite He, Hparse. unfold reject. by rewrite Hfb, He.
Qed.

(** X2: when the comma-separated fallback is used, no element of the result
    contains a comma. *)
Theorem fallback_elements_have_no_comma text e :
  strictArray nf text = None →
  In e (parseToArrayLoose nf text) →
  ¬ In 44 e.
Proof.
  intros Hs. unfold parseToArrayLoose. rewrite Hs.
  unfold looseFallback, looseParts. rewrite in_map_iff.
  intros (tok & <- & Hin) Hc.
  apply filter_In in Hin as [Hin _]. apply in_map_iff in Hin as (piece & <- & Hp).
  apply (split_comma_no_comma _ _ Hp).
  apply trim_incl. by apply stripQuotes_incl.
Qed.

(** X3: tokens that are plain (not empty, no comma, no white space, quote or
    opening bracket at the start, no white space or quote at the end), written
    one after the other with a comma and any white space in between, are
    parsed back to exactly those tokens. *)
Theorem comma_separated_tokens_are_read_back ws toks :
  forallb isTrimSpace ws = true →
  forallb plainToken toks = true →
  parseToArrayLoose nf (join (44 :: ws) toks) = toks.
Proof.
  intros Hws Htoks.
  destruct toks as [|t0 rest]; [reflexivity|].
  assert (Hall : Forall (fun t => plainToken t = true) (t0 :: rest))
    by (apply Forall_forall; intros t Ht; apply list_elem_of_In in Ht;
        rewrite forallb_forall in Htoks; by apply Htoks).
  pose proof (Forall_inv Hall) as H0.
  destruct (plainToken_facts t0 H0) as (c & t0' & -> & Hc1 & Hc2 & Hc3 & _).
  assert (Htext : ∃ r, join (44 :: ws) ((c :: t0') :: rest) = c :: r).
  { destruct rest; simpl; eauto. }
  destruct Htext as [r Hr].
  unfold parseToArrayLoose.
  rewrite Hr, strictArray_none_by_first, <- Hr;
    [|by apply not_trimSpace_not_jsonSpace|done].
  unfold looseFallback, looseParts, looseText.
  rewrite (trim_join_plain ws _ Hws Hall) by done.
  replace (startsWithLBracket (join (44 :: ws) ((c :: t0') :: rest)))
    with false
    by (rewrite Hr; simpl; symmetry; by apply N.eqb_neq).
  cbn [andb].
  rewrite (split_comma_join ws _ Hws Hall) by done.
  rewrite (parts_of_plain ws _ Hws Hall).
  apply map_stripQuotes_plain, Hall.
Qed.

(** *** Submission and sessions *)

Lemma submitConfig_lookup_other p id :
  ¬ In id listFields →
  fields (submitConfig nf p) !! id = fields p !! id.
Proof.
  unfold submitConfig, listFields. cbn [fields foldl In]. intros Hid.
  assert (id ≠ "meas_order"%string ∧ id ≠ "target_list"%string) as [H1 H2]
    by (split; intros ->; apply Hid; auto).
  destruct (fields p !! "meas_order"%string) eqn:E1;
    destruct (fields p !! "target_list"%string) eqn:E2;
    simplify_map_eq; done.
Qed.

Lemma normalizeField_idempotent v :
  normalizeField nf (normalizeField nf v) = normalizeField nf v.
Proof.
  by rewrite !normalizeField_parse, parseToArrayLoose_stringify.
Qed.

(** X4: submitting the settings form touches nothing but the values of the
    two list fields: no field appears or disappears, every other field keeps
    its value, and submitting a second time changes nothing any more. *)
Theorem submit_is_local_and_idempotent p :
  submitConfig nf (submitConfig nf p) = submitConfig nf p
  ∧ dom (fields (submitConfig nf p)) = dom (fields p)
  ∧ (∀ id, ¬ In id listFields →
           fields (submitConfig nf p) !! id = fields p !! id).
Proof.
  assert (Hlook : ∀ q id,
            fields (submitConfig nf q) !! id
            = (if bool_decide (In id listFields)
               then normalizeField nf <$> fields q !! id
               else fields q !! id)).
  { intros q id. case_bool_decide.
    - by apply submitConfig_lookup.
    - by apply submitConfig_lookup_other. }
  split; [|split].
  - assert (E : fields (submitConfig nf (submitConfig nf p))
                = fields (submitConfig nf p)).
    { apply map_eq. intros id. rewrite Hlook. case_bool_decide; [|done].
      rewrite Hlook. rewrite bool_decide_eq_true_2 by done.
      destruct (fields p !! id); [|done]. cbn.
      by rewrite normalizeField_idempotent. }
    unfold submitConfig at 1. unfold submitConfig in E at 1. cbn [fields] in E.
    rewrite E. by destruct (submitConfig nf p).
  - apply set_eq. intros id. rewrite !elem_of_dom, Hlook.
    case_bool_decide; [|done]. by rewrite fmap_is_Some.
  - intros id Hid. by apply submitConfig_lookup_other.
Qed.

Lemma openEditor_fields f p : fields (pageOf (openEditor nf f p)) = fields p.
Proof.
  unfold openEditor.
  destruct (fields p !! f), (modal p), (editor p), (feedback p); done.
Qed.

Lemma validOrder_stringify arr :
  arr ≠ [] → forallb isAllowed arr = true →
  parseToArrayLoose nf (JSON_stringify arr) ≠ []
  ∧ forallb isAllowed (parseToArrayLoose nf (JSON_stringify arr)) = true.
Proof. intros. by rewrite parseToArrayLoose_stringify. Qed.

Lemma applyEditor_keeps_validOrder p :
  validOrder nf p → validOrder nf (pageOf (applyEditor nf p)).
Proof.
  intros (v & Hv & Hne & Hall). unfold applyEditor.
  destruct (editor p) as [text|] eqn:He; [|by exists v].
  destruct (parseToArrayLoose nf text) as [|a arr] eqn:Harr.
  { unfold reject. destruct (feedback p); by exists v. }
  destruct (bool_decide (currentField p = Some "meas_order"%string)
            && negb (forallb isAllowed (a :: arr))) eqn:Hc.
  { unfold reject. destruct (feedback p); by exists v. }
  cbn [pageOf]. unfold validOrder. cbn [fields].
  destruct (fields p !! idOf (currentField p)) eqn:Hid; [|by exists v].
  destruct (decide (idOf (currentField p) = "meas_order"%string)) as [E|E].
  - rewrite E. exists (JSON_stringify (a :: arr)).
    rewrite lookup_insert_eq. split; [done|].
    apply validOrder_stringify; [done|].
    assert (Hcur : currentField p = Some "meas_order"%string).
    { destruct (currentField p) as [f|]; cbn in E; [by subst|done]. }
    rewrite bool_decide_eq_true_2 in Hc by done.
    cbn [andb] in Hc. by apply negb_false_iff in Hc.
  - exists v. by rewrite lookup_insert_ne.
Qed.

Lemma act_keeps_validOrder a p :
  validOrder nf p → validOrder nf (act nf a p).
Proof.
  destruct a as [f|text| |]; cbn [act].
  - intros (v & Hv & H). exists v. by rewrite openEditor_fields.
  - intros H. by destruct (editor p).
  - apply applyEditor_keeps_validOrder.
  - intros (v & Hv & Hne & Hall).
    exists (normalizeField nf v).
    rewrite submitConfig_lookup, Hv by (left; reflexivity).
    split; [done|].
    by rewrite normalizeField_parse, parseToArrayLoose_stringify.
Qed.

(** X5: whatever the user does on the settings page (open the editor on any
    field, type any text, apply, submit, in any order), a measurement-order
    field that held an acceptable list (not empty, every element one of the
    three allowed values) still holds one afterwards. *)
Theorem session_keeps_measurement_order_valid acts p :
  validOrder nf p → validOrder nf (session nf acts p).
Proof.
  unfold session. revert p.
  induction acts as [|a acts IH]; intros p H; [done|].
  cbn [foldl]. by apply IH, act_keeps_validOrder.
Qed.

(** X6: opening the editor on a field whose list is acceptable and applying
    without touching the text stores what the submit handler would store in
    that field, closes the dialog and leaves every other field alone. *)
Theorem open_then_apply_normalizes p f v text fb m :
  fields p !! f = Some v →
  editor p = Some text →
  feedback p = Some fb →
  modal p = Some m →
  parseToArrayLoose nf v ≠ [] →
  (f = "meas_order"%string →
   forallb isAllowed (parseToArrayLoose nf v) = true) →
  fields (session nf [ClickEdit f; Apply] p) !! f = Some (normalizeField nf v)
  ∧ modal (session nf [ClickEdit f; Apply] p) = Some false
  ∧ (∀ g, g ≠ f → fields (session nf [ClickEdit f; Apply] p) !! g
                  = fields p !! g).
Proof.
  intros Hv He Hfb Hm Hne Hdom.
  unfold session. cbn [foldl act].
  unfold openEditor. rewrite Hv, Hm, He, Hfb. cbn [pageOf].
  unfold applyEditor. cbn [editor fields modal currentField feedback idOf].
  rewrite parseToArrayLoose_stringify_indent2.
  destruct (parseToArrayLoose nf v) as [|a arr] eqn:Harr; [done|].
  assert (Hcond : bool_decide (Some f = Some "meas_order"%string)
                  && negb (forallb isAllowed (a :: arr)) = false).
  { case_bool_decide as Hc; [|done]. injection Hc as ->. by rewrite Hdom. }
  rewrite Hcond, Hv. cbn [pageOf fields modal].
  rewrite normalizeField_parse, Harr.
  split; [by rewrite lookup_insert_eq|]. split; [done|].
  intros g Hg. by rewrite lookup_insert_ne.
Qed.

End WithNumberFormat.

Lemma submit_is_local_and_idempotent_witness :
  let p := {| fields := {[ "meas_order"%string := js "target, cielo";
                           "n_scans"%string := js "5" ]};
              editor := Some [];
              feedback := Some {| fb_class := "mt-2 small"; fb_text := [] |};
              modal := Some false; currentField := None |} in
  fields (submitConfig as_written p) !! "n_scans"%string
  = fields p !! "n_scans"%string.
Proof.
  intros p.
  apply (proj2 (proj2 (submit_is_local_and_idempotent as_written p))).
  intros [H|[H|[]]]; discriminate H.
Defined.

Lemma session_keeps_measurement_order_valid_witness :
  validOrder as_written
    (session as_written
       [ClickEdit "meas_order"; TypeText (js "target, bogus"); Apply;
        TypeText (js "Cielo, TARGET"); Apply; SubmitForm]
       {| fields := {[ "meas_order"%string := js "spectralon, target" ]};
          editor := Some [];
          feedback := Some {| fb_class := "mt-2 small"; fb_text := [] |};
          modal := Some false; currentField := None |}).
Proof.
  apply (session_keeps_measurement_order_valid as_written).
  exists (js "spectralon, target").
  split; [reflexivity|]. split; [vm_compute; discriminate|reflexivity].
Defined.

Lemma open_then_apply_normalizes_witness :
  let p := {| fields := {[ "target_list"%string := js "M1, 'M2' ,M3" ]};
              editor := Some [];
              feedback := Some {| fb_class := "mt-2 small"; fb_text := [] |};
              modal := Some false; currentField := None |} in
  fields (session as_written [ClickEdit "target_list"; Apply] p)
    !! "target_list"%string
  = Some (normalizeField as_written (js "M1, 'M2' ,M3"))
  ∧ modal (session as_written [ClickEdit "target_list"; Apply] p) = Some false
  ∧ (∀ g, g ≠ "target_list"%string →
          fields (session as_written [ClickEdit "target_list"; Apply] p) !! g
          = fields p !! g).
Proof.
  intros p.
  apply (open_then_apply_normalizes as_written p "target_list"%string
           (js "M1, 'M2' ,M3") []
           {| fb_class := "mt-2 small"; fb_text := [] |} false);
    [reflexivity | reflexivity | reflexivity | reflexivity
    | vm_compute; discriminate | intros H; discriminate H].
Defined.

Lemma fallback_elements_have_no_comma_witness :
  ¬ In 44 (js "b c").
Proof.
  apply (fallback_elements_have_no_comma as_written (js "a, 'b c' ,d")).
  - reflexivity.
  - vm_compute. right. left. reflexivity.
Defined.

Lemma comma_separated_tokens_are_read_back_witness :
  parseToArrayLoose as_written
    (join (44 :: js "  ") [js "spectralon"; js "target"; js "M 1"])
  = [js "spectralon"; js "target"; js "M 1"].
Proof.
  apply (comma_separated_tokens_are_read_back as_written); reflexivity.
Defined.

Lemma blank_text_is_rejected_witness :
  let p := {| fields := {[ "target_list"%string := jsq "[`M1`]" ]};
              editor := Some [32; 10; 160; 9];
              feedback := Some {| fb_class := "mt-2 small"; fb_text := [] |};
              modal := Some true;
              currentField := Some "target_list"%string |} in
  parseToArrayLoose as_written [32; 10; 160; 9] = []
  ∧ applyEditor as_written p
    = Done {| fields := fields p; editor := editor p;
              feedback := Some {| fb_class := "mt-2 small text-danger";
                                  fb_text := msg_vacio |};
              modal := modal p; currentField := currentField p |}.
Proof.
  intros p.
  apply (blank_text_is_rejected as_written p [32; 10; 160; 9]
           {| fb_class := "mt-2 small"; fb_text := [] |});
    reflexivity.
Defined.

End EditorFacts.

(* ===================================================================== *)
(** ** Addresses and the type selector of the settings page *)
(* ===================================================================== *)

Module SelectorFacts.
Import Uri Selector ConfigFacts MoreSamples.

(** *** What [encodeURIComponent] lets through *)

Lemma unreserved_not_delimiter c :
  isUnreserved c = true → isDelimiter c = false.
Proof.
  intros H. destruct (isDelimiter c) eqn:E; [|done].
  unfold isDelimiter in E.
  repeat (apply orb_true_iff in E as [E|E]);
    apply N.eqb_eq in E; subst; done.
Qed.

Lemma hexUpper_not_delimiter d : isDelimiter (hexUpper d) = false.
Proof.
  unfold hexUpper, isDelimiter.
  destruct (d <? 10) eqn:E;
    [apply N.ltb_lt in E|apply N.ltb_ge in E];
    repeat (apply orb_false_iff; split); apply N.eqb_neq; lia.
Qed.

Lemma escape_not_delimiter cp c : In c (escape cp) → isDelimiter c = false.
Proof.
  unfold escape. rewrite in_concat. intros (l & Hl & Hc).
  apply in_map_iff in Hl as (b & <- & _).
  destruct Hc as [<-|[<-|[<-|[]]]];
    [done|apply hexUpper_not_delimiter..].
Qed.

Lemma consOpt_Some pre r e :
  consOpt pre r = Some e → ∃ e', r = Some e' ∧ e = pre ++ e'.
Proof. destruct r as [e'|]; simpl; [|done]. intros [= <-]. eauto. Qed.

Lemma encode_aux (k : nat) :
  ∀ s e, (length s ≤ k)%nat → encodeURIComponent s = Some e →
    (∀ c, In c e → isDelimiter c = false)
    ∧ (¬ In 37 e → e = s).
Proof.
  induction k as [|k IH]; intros s e Hk H;
    (destruct s as [|c r];
     [injection H as <-; split; [intros ? []|done]|]);
    simpl in Hk; [lia|].
  cbn [encodeURIComponent] in H.
  assert (Hesc : ∀ cp rest e',
            (length rest ≤ k)%nat → encodeURIComponent rest = Some e' →
            (∀ x, In x (escape cp ++ e') → isDelimiter x = false)
            ∧ In 37 (escape cp ++ e')).
  { intros cp rest e' Hl He'. destruct (IH rest e' Hl He') as [Hd _]. split.
    - intros x Hx. apply in_app_iff in Hx as [Hx|Hx];
        [by eapply escape_not_delimiter|by apply Hd].
    - apply in_app_iff. left. unfold escape, utf8.
      repeat case_match; simpl; by left. }
  destruct (isUnreserved c) eqn:Hc.
  - apply consOpt_Some in H as (e' & He' & ->).
    destruct (IH r e' ltac:(lia) He') as [Hd Hid]. split.
    + intros x [<-|Hx]; [by apply unreserved_not_delimiter|by apply Hd].
    + intros Hno. simpl. f_equal. apply Hid. intros ?. apply Hno. by right.
  - destruct (isHighSurrogate c).
    + destruct r as [|d r']; [done|]. destruct (isLowSurrogate d); [|done].
      apply consOpt_Some in H as (e' & He' & ->).
      destruct (Hesc (surrogatePair c d) r' e') as [Hd Hp];
        [simpl in Hk; lia|done|].
      split; [done|]. intros Hno. by destruct Hno.
    + destruct (isLowSurrogate c); [done|].
      apply consOpt_Some in H as (e' & He' & ->).
      destruct (Hesc c r e') as [Hd Hp]; [lia|done|].
      split; [done|]. intros Hno. by destruct Hno.
Qed.

(** The encoded text has none of the characters that delimit the parts of a
    query string. *)
Lemma encode_no_delimiter s e c :
  encodeURIComponent s = Some e → In c e → isDelimiter c = false.
Proof.
  intros H. destruct (encode_aux (length s) s e ltac:(lia) H) as [Hd _].
  apply Hd.
Qed.

(** An encoded text without a percent sign is the text that was encoded. *)
Lemma encode_plain s e :
  encodeURIComponent s = Some e → ¬ In 37 e → e = s.
Proof.
  intros H. destruct (encode_aux (length s) s e ltac:(lia) H) as [_ Hid].
  apply Hid.
Qed.

Lemma encode_unreserved s :
  forallb isUnreserved s = true → encodeURIComponent s = Some s.
Proof.
  induction s as [|c r IH]; [done|]. cbn [forallb encodeURIComponent].
  intros H. apply andb_true_iff in H as [-> Hr]. by rewrite IH.
Qed.

(** *** The type selector *)

Section WithLowerCase.

Variable lower : jsstring → jsstring.

Lemma actualizarHomeHref_keeps p :
  tipoConfig (resultPage (actualizarHomeHref lower p)) = tipoConfig p
  ∧ location (resultPage (actualizarHomeHref lower p)) = location p.
Proof.
  unfold actualizarHomeHref.
  destruct (homeHref p), (tipoConfig p) as [tc|] eqn:E;
    try (cbn; rewrite ?E; split; reflexivity).
  destruct (encodeURIComponent _); cbn; rewrite ?E; split; reflexivity.
Qed.

Lemma load_known p vs :
  location p = [] → knownTypes lower p vs (resultPage (load lower p)).
Proof.
  intros Hloc. unfold load, knownTypes.
  destruct (actualizarHomeHref_keeps
              (bloquearOpuesta lower
                 (actualizarEstiloConfiguracion lower (initUltimoTipo lower p))))
    as [Etc Eloc].
  rewrite Eloc, Etc. clear Etc Eloc.
  destruct p as [[tc0|] hh loc]; cbn in Hloc; subst loc;
    [|split; [by intros ? ? [= ]|done]].
  unfold bloquearOpuesta, actualizarEstiloConfiguracion, initUltimoTipo.
  cbn [tipoConfig].
  destruct (str_eqb (lower (tc_value tc0)) (js "agua")) eqn:Ea;
    [|destruct (str_eqb (lower (tc_value tc0)) (js "suelo")) eqn:Es;
      [|destruct (truthy (orElse (tc_current tc0) [])) eqn:Et]];
    cbn; (split; [intros ? c [= <-]; cbn; intros Hc0 Hc|done]).
  - injection Hc0 as <-. apply str_eqb_eq in Ea. rewrite Ea. right. by left.
  - injection Hc0 as <-. apply str_eqb_eq in Es. rewrite Es.
    right. right. by left.
  - left. by exists tc0.
  - injection Hc0 as <-. right. by left.
Qed.

Lemma userSelects_known p vs v q :
  In v vs → knownTypes lower p vs q → knownTypes lower p vs (userSelects lower v q).
Proof.
  intros Hv [Hcur Hloc]. unfold userSelects.
  destruct q as [[tc|] hh loc]; [|by split]. cbn in Hloc.
  specialize (Hcur tc).
  unfold onTipoConfigChange, knownTypes.
  cbn [tipoConfig with_tipoConfig tc_value tc_current homeHref location].
  destruct (str_eqb (lower v) (js "spectralon")) eqn:Esel.
  - assert (Hult : sentFrom lower p vs (orElse (tc_current tc) (js "agua"))).
    { unfold orElse. destruct (tc_current tc) as [c|]; [|right; by left].
      destruct (truthy c) eqn:Ec; [by apply Hcur|right; by left]. }
    destruct (encodeURIComponent (orElse (tc_current tc) (js "agua")))
      as [e|] eqn:Ee; cbn.
    + split; [intros ? c [= <-]; apply Hcur; done|].
      apply Forall_app. split; [done|]. constructor; [|done].
      exists (orElse (tc_current tc) (js "agua")), e. split; [done|]. by left.
    + split; [intros ? c [= <-]; apply Hcur; done|done].
  - assert (Hsel : lower v ≠ js "spectralon").
    { intros E. rewrite E in Esel. done. }
    assert (Hnew : sentFrom lower p vs (lower v)).
    { right. right. right. by exists v. }
    match goal with
    | |- context [actualizarHomeHref lower ?q] =>
        destruct (actualizarHomeHref_keeps q) as [Etc Eloc];
        destruct (actualizarHomeHref lower q) as [p2|p2]
    end; cbn in Etc, Eloc; cbn [andThen resultPage].
    + destruct (encodeURIComponent (lower v)) as [e|] eqn:Ee;
        cbn [resultPage navigate tipoConfig location]; rewrite Etc, Eloc;
        (split; [intros ? c [= <-]; cbn; by intros [= <-]|]); [|done].
      apply Forall_app. split; [done|]. constructor; [|done].
      exists (lower v), e. split; [done|]. right. split; [done|]. by exists v.
    + rewrite Etc, Eloc. split; [intros ? c [= <-]; cbn; by intros [= <-]|done].
Qed.

Lemma selects_location vs q :
  location (foldl (fun p v => selects v p) q vs) = location q.
Proof.
  revert q. induction vs as [|v vs IH]; intros q; [done|].
  cbn [foldl]. rewrite IH. unfold selects. by destruct (tipoConfig q).
Qed.

Lemma selections_known p vs rest :
  ∀ q, (∀ v, In v rest → In v vs) → knownTypes lower p vs q →
       knownTypes lower p vs
         (foldl (fun p v => userSelects lower v p) q rest).
Proof.
  induction rest as [|v rest IH]; intros q Hsub Hk; [done|].
  cbn [foldl]. apply IH; [intros w Hw; apply Hsub; by right|].
  apply userSelects_known; [apply Hsub; by left|done].
Qed.

Lemma visitSettings_known p vs :
  location p = [] →
  Forall (fun url =>
            ∃ tipo e,
              encodeURIComponent tipo = Some e
              ∧ ((url = js "/editar_spectralon/?tipo=" ++ e
                  ∧ sentFrom lower p vs tipo)
                 ∨ (url = js "/configuraciones/?tipo=" ++ e
                          ++ js "&force_config=1"
                    ∧ ∃ v, In v vs ∧ tipo = lower v
                           ∧ tipo ≠ js "spectralon")))
    (location (visitSettings lower vs p)).
Proof.
  intros Hloc. pose proof (load_known p vs Hloc) as Hk.
  unfold visitSettings. destruct (load lower p) as [p1|p1]; cbn in Hk.
  - by apply (selections_known p vs vs p1).
  - rewrite selects_location. exact (proj2 Hk).
Qed.

(** X7: every address the selector navigates to, over a load and any
    selections, is one of the two it builds around the URI encoding of a
    type. For the reference-file editor that type is the remembered type the
    page arrived with, or agua, or suelo, or the lowered value of one of the
    selections other than spectralon; for the settings page it is the
    lowered value of a selection other than spectralon. So the word
    spectralon is sent only if the page arrived with it as its remembered
    type, and then only to the reference-file editor; and if the load threw,
    no handler was bound and nothing is sent. *)
Theorem selector_never_sends_spectralon vs p url :
  location p = [] →
  In url (location (visitSettings lower vs p)) →
  (∃ p1, load lower p = Finished p1)
  ∧ ∃ tipo e,
      encodeURIComponent tipo = Some e
      ∧ ((url = js "/editar_spectralon/?tipo=" ++ e
          ∧ sentFrom lower p vs tipo)
         ∨ (url = js "/configuraciones/?tipo=" ++ e ++ js "&force_config=1"
            ∧ ∃ v, In v vs ∧ tipo = lower v ∧ tipo ≠ js "spectralon"))
      ∧ (tipo = js "spectralon" →
         url = js "/editar_spectralon/?tipo=spectralon"
         ∧ ∃ tc, tipoConfig p = Some tc
                 ∧ tc_current tc = Some (js "spectralon")).
Proof.
  intros Hloc Hin. split.
  { unfold visitSettings in Hin.
    destruct (load lower p) as [p1|p1] eqn:El; [by exists p1|].
    rewrite selects_location in Hin.
    pose proof (proj2 (load_known p vs Hloc)) as Hk.
    rewrite El in Hk. cbn in Hk.
    assert (Hl : location p1 = []).
    { pose proof (actualizarHomeHref_keeps
                    (bloquearOpuesta lower
                       (actualizarEstiloConfiguracion lower
                          (initUltimoTipo lower p)))) as [_ E].
      unfold load in El. rewrite El in E. cbn in E. rewrite E.
      unfold bloquearOpuesta, actualizarEstiloConfiguracion, initUltimoTipo.
      destruct p as [[tc0|] hh loc]; cbn in Hloc; subst loc; cbn; [|done].
      repeat case_match; done. }
    rewrite Hl in Hin. done. }
  pose proof (visitSettings_known p vs Hloc) as Hall.
  rewrite Forall_forall in Hall.
  destruct (Hall url) as (tipo & e & He & Hurl);
    [by apply list_elem_of_In|].
  exists tipo, e. split; [done|]. split; [done|].
  intros ->.
  assert (Ee : e = js "spectralon").
  { apply (encode_plain _ _ He). vm_compute in He. injection He as <-.
    vm_compute. intuition discriminate. }
  subst e.
  destruct Hurl as [[-> Hs]|[_ (v & _ & _ & Hne)]]; [|done].
  split; [reflexivity|].
  destruct Hs as [Hs|[Hs|[Hs|(v & _ & _ & Hne)]]]; try done.
Qed.

Lemma followsValue_after tc0 v :
  ∀ p0 tc,
    tipoConfig p0 = Some tc0 → tc_value tc0 = v →
    tipoConfig (bloquearOpuesta lower (actualizarEstiloConfiguracion lower p0))
    = Some tc →
    followsValue lower tc ∧ tc_value tc = v ∧ tc_current tc = tc_current tc0.
Proof.
  intros p0 tc E0 Hv. unfold bloquearOpuesta, actualizarEstiloConfiguracion.
  rewrite E0. cbn. intros [= <-]. unfold followsValue. cbn. subst v.
  repeat split; try done;
    intros b; destruct (tc_aguaOpt tc0), (tc_sueloOpt tc0); by intros [= <-].
Qed.

Lemma followsValue_exclusive tc :
  followsValue lower tc →
  ¬ (tc_aguaOpt tc = Some true ∧ tc_sueloOpt tc = Some true)
  ∧ ¬ (tc_agua tc = true ∧ tc_suelo tc = true)
  ∧ ¬ (tc_agua tc = true ∧ tc_spectralon tc = true)
  ∧ ¬ (tc_suelo tc = true ∧ tc_spectralon tc = true).
Proof.
  intros (Ha & Hs & Hp & Hao & Hso).
  assert (Hex : ∀ a b, a ≠ b →
            ¬ (str_eqb (lower (tc_value tc)) a = true
               ∧ str_eqb (lower (tc_value tc)) b = true)).
  { intros a b Hab [E1 E2]. apply str_eqb_eq in E1, E2. congruence. }
  repeat split.
  - intros [E1 E2]. apply Hao in E1. apply Hso in E2.
    by apply (Hex (js "suelo") (js "agua")).
  - rewrite Ha, Hs. by apply Hex.
  - rewrite Ha, Hp. by apply Hex.
  - rewrite Hs, Hp. by apply Hex.
Qed.

(** X8: once the page has loaded, and again after every selection other
    than spectralon, the select carries the class of the value it shows and
    of no other, and only the option opposite to that value is blocked: the
    agua and suelo options are never blocked together. *)
Theorem selector_follows_value p :
  (∀ tc, tipoConfig (resultPage (load lower p)) = Some tc →
         followsValue lower tc
         ∧ ¬ (tc_aguaOpt tc = Some true ∧ tc_sueloOpt tc = Some true)
         ∧ ¬ (tc_agua tc = true ∧ tc_suelo tc = true))
  ∧ (∀ v tc, lower v ≠ js "spectralon" →
             tipoConfig (userSelects lower v p) = Some tc →
             tc_value tc = v ∧ followsValue lower tc
             ∧ ¬ (tc_aguaOpt tc = Some true ∧ tc_sueloOpt tc = Some true)
             ∧ ¬ (tc_agua tc = true ∧ tc_suelo tc = true)).
Proof.
  split.
  - intros tc. unfold load.
    match goal with
    | |- context [actualizarHomeHref lower ?q] =>
        destruct (actualizarHomeHref_keeps q) as [-> _]
    end.
    intros Htc.
    destruct (tipoConfig (initUltimoTipo lower p)) as [tc0|] eqn:E0.
    + destruct (followsValue_after tc0 (tc_value tc0) _ tc E0 eq_refl Htc)
        as (Hf & _).
      destruct (followsValue_exclusive tc Hf) as (H1 & H2 & _). done.
    + unfold bloquearOpuesta, actualizarEstiloConfiguracion in Htc.
      repeat (rewrite E0 in Htc; cbn in Htc). done.
  - intros v tc Hv. unfold userSelects.
    destruct (tipoConfig p) as [tc0|] eqn:E0; [|by rewrite E0].
    unfold onTipoConfigChange.
    cbn [tipoConfig with_tipoConfig tc_value tc_current].
    destruct (str_eqb (lower v) (js "spectralon")) eqn:Esel;
      [by apply str_eqb_eq in Esel|].
    match goal with
    | |- context [actualizarHomeHref lower ?q] =>
        destruct (actualizarHomeHref_keeps q) as [Etc _];
        destruct (actualizarHomeHref lower q) as [p2|p2]
    end; cbn [andThen resultPage] in *;
      [destruct (encodeURIComponent (lower v));
       cbn [resultPage navigate tipoConfig]|];
      rewrite Etc; intros Htc;
      (eapply followsValue_after in Htc as (Hf & Hval & _);
       [|reflexivity|reflexivity]);
      destruct (followsValue_exclusive tc Hf) as (H1 & H2 & _); done.
Qed.

(** X9: once the page has loaded, the select (if the page has one) has a
    remembered type that is not empty: the value it shows, in lower case, if
    that is agua or suelo, else the one it arrived with, else agua. *)
Theorem load_remembers_a_type p tc :
  tipoConfig (resultPage (load lower p)) = Some tc →
  ∃ c, tc_current tc = Some c ∧ c ≠ []
       ∧ (lower (tc_value tc) = js "agua"
          ∨ lower (tc_value tc) = js "suelo" →
          c = lower (tc_value tc)).
Proof.
  unfold load.
  match goal with
  | |- context [actualizarHomeHref lower ?q] =>
      destruct (actualizarHomeHref_keeps q) as [-> _]
  end.
  destruct p as [[tc0|] hh loc]; [|done].
  unfold bloquearOpuesta, actualizarEstiloConfiguracion, initUltimoTipo.
  cbn [tipoConfig].
  destruct (str_eqb (lower (tc_value tc0)) (js "agua")) eqn:Ea;
    [|destruct (str_eqb (lower (tc_value tc0)) (js "suelo")) eqn:Es;
      [|destruct (truthy (orElse (tc_current tc0) [])) eqn:Et]];
    cbn; intros [= <-]; cbn.
  - exists (lower (tc_value tc0)). split; [done|].
    apply str_eqb_eq in Ea. rewrite Ea. split; done.
  - exists (lower (tc_value tc0)). split; [done|].
    apply str_eqb_eq in Es. rewrite Es. split; done.
  - unfold orElse in Et. destruct (tc_current tc0) as [c|]; [|done].
    destruct (truthy c) eqn:Ec; [|done].
    exists c. split; [done|]. split; [by destruct c|].
    intros [E|E];
      [assert (X : str_eqb (lower (tc_value tc0)) (js "agua") = true)
         by (apply str_eqb_eq; exact E)
      |assert (X : str_eqb (lower (tc_value tc0)) (js "suelo") = true)
         by (apply str_eqb_eq; exact E)];
      congruence.
  - exists (js "agua"). split; [done|]. split; [done|].
    intros [E|E];
      [assert (X : str_eqb (lower (tc_value tc0)) (js "agua") = true)
         by (apply str_eqb_eq; exact E)
      |assert (X : str_eqb (lower (tc_value tc0)) (js "suelo") = true)
         by (apply str_eqb_eq; exact E)];
      congruence.
Qed.

End WithLowerCase.

(** The witnesses run on values made of ASCII letters, which the engine
    lowers as [toLowerCase] of [JsString] does. *)

Lemma selector_never_sends_spectralon_witness :
  location (visitSettings toLowerCase
              [js "agua"; js "suelo"; js "SPECTRALON"] sample_settings)
  = [js "/configuraciones/?tipo=agua&force_config=1";
     js "/configuraciones/?tipo=suelo&force_config=1";
     js "/editar_spectralon/?tipo=suelo"]
  ∧ (∃ p1, load toLowerCase sample_settings = Finished p1)
  ∧ ∃ tipo e,
      encodeURIComponent tipo = Some e
      ∧ ((js "/editar_spectralon/?tipo=suelo"
          = js "/editar_spectralon/?tipo=" ++ e
          ∧ sentFrom toLowerCase sample_settings
              [js "agua"; js "suelo"; js "SPECTRALON"] tipo)
         ∨ (js "/editar_spectralon/?tipo=suelo"
            = js "/configuraciones/?tipo=" ++ e ++ js "&force_config=1"
            ∧ ∃ v, In v [js "agua"; js "suelo"; js "SPECTRALON"]
                   ∧ tipo = toLowerCase v ∧ tipo ≠ js "spectralon"))
      ∧ (tipo = js "spectralon" →
         js "/editar_spectralon/?tipo=suelo"
         = js "/editar_spectralon/?tipo=spectralon"
         ∧ ∃ tc, tipoConfig sample_settings = Some tc
                 ∧ tc_current tc = Some (js "spectralon")).
Proof.
  split; [vm_compute; reflexivity|].
  apply (selector_never_sends_spectralon toLowerCase
           [js "agua"; js "suelo"; js "SPECTRALON"] sample_settings).
  - reflexivity.
  - vm_compute. right. right. left. reflexivity.
Defined.

Lemma selector_follows_value_witness :
  ∃ tc, tipoConfig (userSelects toLowerCase (js "Agua") sample_settings)
        = Some tc
        ∧ tc_value tc = js "Agua" ∧ followsValue toLowerCase tc
        ∧ ¬ (tc_aguaOpt tc = Some true ∧ tc_sueloOpt tc = Some true)
        ∧ ¬ (tc_agua tc = true ∧ tc_suelo tc = true).
Proof.
  eexists. split; [reflexivity|].
  apply (proj2 (selector_follows_value toLowerCase sample_settings) (js "Agua"));
    [vm_compute; discriminate|reflexivity].
Defined.

Lemma load_remembers_a_type_witness :
  ∃ c, Some (js "suelo") = Some c ∧ c ≠ []
       ∧ (toLowerCase (js "Suelo") = js "agua"
          ∨ toLowerCase (js "Suelo") = js "suelo" →
          c = toLowerCase (js "Suelo")).
Proof.
  apply (load_remembers_a_type toLowerCase sample_settings
           {| tc_value := js "Suelo"; tc_current := Some (js "suelo");
              tc_agua := false; tc_suelo := true; tc_spectralon := false;
              tc_aguaOpt := Some true; tc_sueloOpt := Some false |}).
  reflexivity.
Defined.

End SelectorFacts.

(* ===================================================================== *)
(** ** Theme and the way to the settings page *)
(* ===================================================================== *)

Module MainFacts.
Import Index Uri Main Samples MoreSamples IndexFacts SelectorFacts.

(** *** Light and dark mode *)

Lemma aplicarModo_consistent s :
  modo_claro (aplicarModo s) = negb (modo_oscuro (aplicarModo s))
  ∧ modo_oscuro (aplicarModo s)
    = match localStorage (aplicarModo s) !! "modo"%string with
      | Some m => str_eqb m (js "oscuro")
      | None => false
      end.
Proof. by split. Qed.

Lemma alternarModo_consistent s :
  modo_claro s = negb (modo_oscuro s) →
  modo_claro (alternarModo s) = negb (modo_oscuro (alternarModo s))
  ∧ modo_oscuro (alternarModo s)
    = match localStorage (alternarModo s) !! "modo"%string with
      | Some m => str_eqb m (js "oscuro")
      | None => false
      end.
Proof.
  intros H. unfold alternarModo. cbn [modo_claro modo_oscuro localStorage].
  rewrite lookup_insert_eq, H. by destruct (modo_oscuro s).
Qed.

Lemma toggles_consistent n :
  ∀ s,
    modo_claro s = negb (modo_oscuro s) →
    modo_oscuro s = match localStorage s !! "modo"%string with
                    | Some m => str_eqb m (js "oscuro")
                    | None => false
                    end →
    modo_claro (toggles n s) = negb (modo_oscuro (toggles n s))
    ∧ modo_oscuro (toggles n s)
      = match localStorage (toggles n s) !! "modo"%string with
        | Some m => str_eqb m (js "oscuro")
        | None => false
        end.
Proof.
  induction n as [|n IH]; intros s H1 H2; [done|].
  cbn [toggles]. destruct (alternarModo_consistent s H1). by apply IH.
Qed.

(** X10: once a page has loaded, and after any number of uses of the mode
    switch, the body has exactly one of the two mode classes, and the next
    page that loads (whatever classes its markup has) shows the same mode. *)
Theorem mode_survives_reload markup s n :
  modo_claro (toggles n (aplicarModo s))
  = negb (modo_oscuro (toggles n (aplicarModo s)))
  ∧ modo_claro (reload markup (toggles n (aplicarModo s)))
    = modo_claro (toggles n (aplicarModo s))
  ∧ modo_oscuro (reload markup (toggles n (aplicarModo s)))
    = modo_oscuro (toggles n (aplicarModo s)).
Proof.
  destruct (aplicarModo_consistent s) as [H1 H2].
  destruct (toggles_consistent n (aplicarModo s) H1 H2) as [J1 J2].
  split; [done|].
  unfold reload.
  set (T := toggles n (aplicarModo s)) in *.
  unfold aplicarModo. cbn [modo_claro modo_oscuro localStorage].
  rewrite <- J2. split; [by symmetry|done].
Qed.

(** *** Leaving for the settings page and coming back *)

Lemma storage_is_lookup key v d :
  storage_is key v d = match sessionStorage d !! key with
                       | Some x => str_eqb x v
                       | None => false
                       end.
Proof. reflexivity. Qed.

(** What [init] does on a page whose storage has the flag, and on one whose
    storage has not. *)
Lemma init_with_flag env markup ss :
  ss !! "fue_config_con_zip"%string = Some (js "1") →
  trace_of (init env) (comeBack markup ss) = [warnEvent env msg_config]
  ∧ (∀ l, nombreSpan markup = Some l →
          nombreSpan (dom_after (init env) (comeBack markup ss))
          = Some (LabelWarning msg_label_recargar))
  ∧ sessionStorage (dom_after (init env) (comeBack markup ss))
    = delete "zip_name"%string
        (delete "archivo_seleccionado"%string
           (delete "fue_config_con_zip"%string ss)).
Proof.
  intros Hflag.
  destruct markup as [ts hm ia bp busy ns la isp nsp ss0].
  unfold comeBack. step_cmd.
  destruct hm as [hm|], ts as [[v ag su]|], ia as [[fs dis]|], bp as [[bd bt]|];
    step_cmd; rewrite storage_is_lookup; cbn [sessionStorage];
    rewrite Hflag; change (str_eqb (js "1") (js "1")) with true; cbv iota;
    destruct ns as [l|]; step_cmd;
    (split; [reflexivity|]); (split; [|reflexivity]);
    intros ? [= ]; reflexivity.
Qed.

Lemma init_without_flag env markup ss :
  ss !! "fue_config_con_zip"%string = None →
  trace_of (init env) (comeBack markup ss) = []
  ∧ (∀ l, nombreSpan markup = Some l →
          nombreSpan (dom_after (init env) (comeBack markup ss))
          = Some LabelMuted)
  ∧ sessionStorage (dom_after (init env) (comeBack markup ss)) = ss.
Proof.
  intros Hflag.
  destruct markup as [ts hm ia bp busy ns la isp nsp ss0].
  unfold comeBack. step_cmd.
  destruct hm as [hm|], ts as [[v ag su]|], ia as [[fs dis]|], bp as [[bd bt]|];
    step_cmd; rewrite storage_is_lookup; cbn [sessionStorage];
    rewrite Hflag; cbv iota;
    destruct ns as [l|]; step_cmd;
    (split; [reflexivity|]); (split; [|reflexivity]);
    intros ? [= ]; reflexivity.
Qed.

(** X11: leaving for the settings page with a type and a file chosen, and
    confirming: the page navigates to the settings of that type and the
    storage remembers it. Back on the upload page, whatever its markup, the
    script warns once that the file must be chosen again, shows the matching
    label, and forgets the file and the flag; loading the page once more
    gives no warning. *)
Theorem leaving_with_a_file_asks_to_reload env d sel e markup :
  tipoSelect d = Some sel →
  sel_value sel ≠ [] →
  storage_is "archivo_seleccionado" (js "1") d = true →
  encodeURIComponent (sel_value sel) = Some e →
  op_events (abrirConfiguraciones env true d)
  = [MConfirm msg_confirmar; MNavigate (js "/configuraciones/?tipo=" ++ e)]
  ∧ trace_of (init env)
      (comeBack markup (op_storage (abrirConfiguraciones env true d)))
    = [warnEvent env msg_config]
  ∧ (∀ l, nombreSpan markup = Some l →
          nombreSpan
            (dom_after (init env)
               (comeBack markup (op_storage (abrirConfiguraciones env true d))))
          = Some (LabelWarning msg_label_recargar))
  ∧ (∀ key, In key ["fue_config_con_zip"; "archivo_seleccionado"; "zip_name"]%string →
            sessionStorage
              (dom_after (init env)
                 (comeBack markup (op_storage (abrirConfiguraciones env true d))))
              !! key = None)
  ∧ trace_of (init env)
      (comeBack markup
         (sessionStorage
            (dom_after (init env)
               (comeBack markup (op_storage (abrirConfiguraciones env true d))))))
    = [].
Proof.
  intros Hsel Hne Hzip He.
  assert (Ho : abrirConfiguraciones env true d
               = {| op_storage := <["fue_config_con_zip"%string := js "1"]>
                                    (sessionStorage d);
                    op_events := [MConfirm msg_confirmar;
                                  MNavigate (js "/configuraciones/?tipo=" ++ e)];
                    op_threw := false |}).
  { unfold abrirConfiguraciones. rewrite Hsel, Hzip, He.
    destruct (sel_value sel); [done|reflexivity]. }
  rewrite Ho. cbn [op_events op_storage].
  destruct (init_with_flag env markup
              (<["fue_config_con_zip"%string := js "1"]> (sessionStorage d))
              (lookup_insert_eq _ _ _)) as (Ht & Hl & Hs).
  split; [done|]. split; [done|]. split; [done|].
  rewrite Hs. split.
  - intros key [<-|[<-|[<-|[]]]]; by simplify_map_eq.
  - apply init_without_flag. by simplify_map_eq.
Qed.

Lemma leaving_with_a_file_asks_to_reload_witness :
  op_events (abrirConfiguraciones sample_env true sample_page)
  = [MConfirm msg_confirmar; MNavigate (js "/configuraciones/?tipo=agua")]
  ∧ trace_of (init sample_env)
      (comeBack sample_page_no_file
         (op_storage (abrirConfiguraciones sample_env true sample_page)))
    = [EToast msg_config].
Proof.
  pose proof (leaving_with_a_file_asks_to_reload sample_env sample_page
                {| sel_value := js "agua"; sel_agua := true; sel_suelo := false |}
                (js "agua") sample_page_no_file
                eq_refl ltac:(discriminate) eq_refl eq_refl) as (H1 & H2 & _).
  split; [exact H1|exact H2].
Defined.

(** X12: [abrirConfiguraciones] stays on the page and leaves the storage as
    it is when no type is chosen (it only warns) and when the user declines
    the confirmation. Without a file on record it asks nothing, takes the
    flag out of the storage, and the upload page that is loaded next shows
    no warning and the label for no file. *)
Theorem leaving_without_a_file_or_consent env continuar d markup :
  (hayTipo d = false →
     abrirConfiguraciones env continuar d
     = {| op_storage := sessionStorage d;
          op_events := [MWarn (warnEvent env msg_primero_un_tipo)];
          op_threw := false |})
  ∧ (hayTipo d = true →
     storage_is "archivo_seleccionado" (js "1") d = true →
     abrirConfiguraciones env false d
     = {| op_storage := sessionStorage d;
          op_events := [MConfirm msg_confirmar];
          op_threw := false |})
  ∧ (hayTipo d = true →
     storage_is "archivo_seleccionado" (js "1") d = false →
     List.filter (fun e => match e with MConfirm _ => true | _ => false end)
       (op_events (abrirConfiguraciones env continuar d)) = []
     ∧ trace_of (init env)
         (comeBack markup (op_storage (abrirConfiguraciones env continuar d)))
       = []
     ∧ (∀ l, nombreSpan markup = Some l →
             nombreSpan
               (dom_after (init env)
                  (comeBack markup
                     (op_storage (abrirConfiguraciones env continuar d))))
             = Some LabelMuted)).
Proof.
  unfold hayTipo. split; [|split].
  - intros H. unfold abrirConfiguraciones.
    destruct (tipoSelect d) as [sel|]; [|reflexivity]. by rewrite H.
  - intros H Hzip. unfold abrirConfiguraciones.
    destruct (tipoSelect d) as [sel|]; [|done]. by rewrite H, Hzip.
  - intros H Hzip.
    assert (Ho : op_storage (abrirConfiguraciones env continuar d)
                 = delete "fue_config_con_zip"%string (sessionStorage d)
                 ∧ List.filter
                     (fun e => match e with MConfirm _ => true | _ => false end)
                     (op_events (abrirConfiguraciones env continuar d)) = []).
    { unfold abrirConfiguraciones.
      destruct (tipoSelect d) as [sel|]; [|done]. rewrite H, Hzip.
      cbn [negb andb]. destruct (encodeURIComponent (sel_value sel)); by split. }
    destruct Ho as [-> Hq]. split; [done|].
    destruct (init_without_flag env markup
                (delete "fue_config_con_zip"%string (sessionStorage d))
                (lookup_delete_eq _ _)) as (Ht & Hl & _).
    by split.
Qed.

Lemma leaving_without_a_file_or_consent_witness :
  abrirConfiguraciones sample_env false sample_page
  = {| op_storage := sessionStorage sample_page;
       op_events := [MConfirm msg_confirmar];
       op_threw := false |}.
Proof.
  apply (proj1 (proj2 (leaving_without_a_file_or_consent sample_env false
                         sample_page sample_page)));
    reflexivity.
Defined.

(** X13: the address [abrirConfiguraciones] navigates to is the path of the
    settings page followed by tipo= and the URI encoding of the value of the
    type control, which is not empty. After tipo= there is no ampersand,
    equals sign, question mark, hash, slash, plus or space, so the address
    has one parameter; and a value made of characters the encoding leaves
    alone stands there unchanged. *)
Theorem settings_address_has_one_parameter env continuar d url :
  In (MNavigate url) (op_events (abrirConfiguraciones env continuar d)) →
  ∃ sel e, tipoSelect d = Some sel
           ∧ sel_value sel ≠ []
           ∧ encodeURIComponent (sel_value sel) = Some e
           ∧ url = js "/configuraciones/?tipo=" ++ e
           ∧ (∀ c, In c e → isDelimiter c = false)
           ∧ (forallb isUnreserved (sel_value sel) = true → e = sel_value sel).
Proof.
  unfold abrirConfiguraciones.
  destruct (tipoSelect d) as [sel|];
    [|cbn; intros [?|[]]; discriminate].
  destruct (truthy (sel_value sel)) eqn:Ht; cbn [negb];
    [|cbn; intros [?|[]]; discriminate].
  destruct (storage_is "archivo_seleccionado" (js "1") d && negb continuar);
    [cbn; intros [?|[]]; discriminate|].
  destruct (encodeURIComponent (sel_value sel)) as [e|] eqn:He;
    cbn [op_events]; intros Hin.
  - exists sel, e. split; [done|].
    split; [by destruct (sel_value sel)|]. split; [done|].
    assert (Hu : url = js "/configuraciones/?tipo=" ++ e).
    { destruct (storage_is "archivo_seleccionado" (js "1") d);
        cbn [In app] in Hin; intuition congruence. }
    split; [done|]. split.
    + intros c. by apply (encode_no_delimiter (sel_value sel)).
    + intros Hun. rewrite (encode_unreserved _ Hun) in He. congruence.
  - destruct (storage_is "archivo_seleccionado" (js "1") d);
      cbn [In app] in Hin; intuition discriminate.
Qed.

Lemma settings_address_has_one_parameter_witness :
  let d := set_tipoSelect
             (Some {| sel_value := js "a b&c"; sel_agua := false;
                      sel_suelo := false |}) sample_page in
  op_events (abrirConfiguraciones sample_env true d)
  = [MConfirm msg_confirmar; MNavigate (js "/configuraciones/?tipo=a%20b%26c")]
  ∧ ∃ sel e, tipoSelect d = Some sel
             ∧ sel_value sel ≠ []
             ∧ encodeURIComponent (sel_value sel) = Some e
             ∧ js "/configuraciones/?tipo=a%20b%26c"
               = js "/configuraciones/?tipo=" ++ e
             ∧ (∀ c, In c e → isDelimiter c = false)
             ∧ (forallb isUnreserved (sel_value sel) = true
                → e = sel_value sel).
Proof.
  intros d. split; [vm_compute; reflexivity|].
  apply (settings_address_has_one_parameter sample_env true d).
  vm_compute. right. left. reflexivity.
Defined.

End MainFacts.

(* ===================================================================== *)
(** ** More on the upload page *)
(* ===================================================================== *)

Module IndexMoreFacts.
Import Index IndexMore Samples IndexFacts ConfigFacts.
Local Open Scope cmd_scope.

(** Runs the handlers of the page, the picker's change included, on a page
    given field by field. *)
Ltac step_more :=
  cbv [perform onArchivoChange storage_is fi_files fi_disabled
       run dom_after trace_of completion_of
       submitHandler resetHandler resetStep init onTipoChange userSelectsTipo
       seq emit update withDom skip return_ throw orThrow
       try_catch_finally try_catch warn
       setProcesando appendLog setNombreArchivoOk setNombreArchivoRequerido
       habilitarCargaSiHayTipo aplicarColorSelect
       set_tipoSelect set_hiddenMedicion set_inputArchivo set_btnProcesar
       set_busy set_nombreSpan set_logArea set_spectralon set_sessionStorage
       tipoSelect hiddenMedicion inputArchivo btnProcesar formDatos_busy
       nombreSpan logArea inputSpectralon nombreSpectralon sessionStorage
       fst snd negb head truthy].

(** X14: after the load and any changes, the click handler of the file
    picker lets the dialog open exactly when the picker is not disabled. *)
Theorem click_guard_matches_disabled env acts d0 fi :
  inputArchivo (dom_after (visit env acts) d0) = Some fi →
  (onArchivoClick env (dom_after (visit env acts) d0) = []
   ↔ fi_disabled fi = false).
Proof.
  intros Hfi. destruct (visit_guard env acts d0) as [Hg _].
  rewrite (Hg fi Hfi). unfold onArchivoClick.
  destruct (hayTipo (dom_after (visit env acts) d0)); cbn; split; done.
Qed.

Lemma click_guard_matches_disabled_witness :
  onArchivoClick sample_env
    (dom_after (visit sample_env [SelectTipo (js "suelo")]) sample_page) = []
  ↔ false = false.
Proof.
  apply (click_guard_matches_disabled sample_env [SelectTipo (js "suelo")]
           sample_page
           {| fi_files := [js "sample.zip"]; fi_disabled := false |}).
  reflexivity.
Defined.

(** X15: when the file dialog closes, the storage records the name of the
    first chosen file and the flag, or neither if nothing was chosen; and a
    change of the measurement type right after warns about the file exactly
    when one was chosen. *)
Theorem file_record_follows_picker env names v d fi sel :
  inputArchivo d = Some fi →
  tipoSelect d = Some sel →
  sessionStorage (dom_after (perform env (ChooseFiles names)) d)
    !! "zip_name"%string = head names
  ∧ sessionStorage (dom_after (perform env (ChooseFiles names)) d)
      !! "archivo_seleccionado"%string
    = match names with [] => None | _ => Some (js "1") end
  ∧ trace_of (perform env (ChooseFiles names);; perform env (SelectTipo v)) d
    = match names with
      | [] => []
      | _ => [warnEvent env msg_cambio_tipo]
      end.
Proof.
  intros Hfi Hsel.
  destruct d as [ts hm ia bp busy ns la isp nsp ss]. cbn in Hfi, Hsel.
  subst ia ts. destruct fi as [fs dis], sel as [v0 ag su].
  destruct names as [|[|c nombre] names], ns as [l|], hm as [h|],
           bp as [[bd bt]|];
    step_more;
    rewrite ?lookup_delete_eq, ?lookup_insert_eq;
    rewrite ?lookup_delete_ne, ?lookup_insert_ne by done;
    rewrite ?lookup_delete_eq, ?lookup_insert_eq;
    repeat split; reflexivity.
Qed.

Lemma file_record_follows_picker_witness :
  sessionStorage
    (dom_after (perform sample_env (ChooseFiles [])) sample_page)
    !! "zip_name"%string = None
  ∧ sessionStorage
      (dom_after (perform sample_env (ChooseFiles [])) sample_page)
      !! "archivo_seleccionado"%string = None
  ∧ trace_of (perform sample_env (ChooseFiles []);;
              perform sample_env (SelectTipo (js "suelo"))) sample_page
    = [].
Proof.
  apply (file_record_follows_picker sample_env [] (js "suelo") sample_page
           {| fi_files := [js "sample.zip"]; fi_disabled := false |}
           {| sel_value := js "agua"; sel_agua := true; sel_suelo := false |});
    reflexivity.
Defined.

(** *** The hidden field and the colour of the select *)

Lemma init_mirror env s :
  ∃ s', init env s = (s', Normal) ∧ mirrorHolds s'.1.
Proof.
  destruct s as [[ts hm ia bp busy ns la isp nsp ss] t].
  step_cmd.
  destruct hm as [hm|], ts as [[v ag su]|], ia as [[fs dis]|], bp as [[bd bt]|];
    step_cmd;
    match goal with
    | |- context [storage_is ?k ?v ?d] => destruct (storage_is k v d)
    end;
    destruct ns as [l|]; step_cmd;
    (eexists; split; [reflexivity|]);
    intros sel E; cbn in E; try discriminate; injection E as <-;
    (split; [cbn; intros h Hh; congruence|split; reflexivity]).
Qed.

Lemma perform_mirror env a s :
  mirrorHolds s.1 →
  ∃ s', perform env a s = (s', Normal) ∧ mirrorHolds s'.1.
Proof.
  destruct s as [[ts hm ia bp busy ns la isp nsp ss] t]. intros Hm.
  destruct a as [v|names].
  - cbv [perform]. step_cmd.
    destruct ts as [[v0 ag su]|]; [|eexists; split; [reflexivity|exact Hm]].
    clear Hm.
    destruct hm as [hm|], ia as [[fs dis]|], bp as [[bd bt]|]; step_cmd;
      match goal with
      | |- context [storage_is ?k ?v ?d] => destruct (storage_is k v d)
      end;
      step_cmd;
      (eexists; split; [reflexivity|]);
      intros sel E; cbn in E; injection E as <-;
      (split; [cbn; intros h Hh; congruence|split; reflexivity]).
  - cbv [perform onArchivoChange]. step_cmd.
    destruct ia as [[fs dis]|]; [|eexists; split; [reflexivity|exact Hm]].
    destruct names as [|[|c nombre] names], ns as [l|]; step_cmd;
      (eexists; split; [reflexivity|exact Hm]).
Qed.

Lemma visit_mirror env acts d0 : mirrorHolds (dom_after (visit env acts) d0).
Proof.
  destruct (init_mirror env (d0, [])) as (s1 & E1 & H1).
  unfold dom_after, run, visit, seq. rewrite E1. clear E1.
  revert s1 H1. induction acts as [|a acts IH]; intros s1 H1; [exact H1|].
  destruct (perform_mirror env a s1 H1) as (s2 & E2 & H2).
  cbn [performAll]. unfold seq at 1. rewrite E2. by apply IH.
Qed.

(** X16: after the load and any changes, the hidden field of the form holds
    the value of the type control, and the control has the class agua or
    suelo exactly when its value, in lower case, is that word; it never has
    both. *)
Theorem hidden_field_mirrors_select env acts d0 sel :
  tipoSelect (dom_after (visit env acts) d0) = Some sel →
  (∀ h, hiddenMedicion (dom_after (visit env acts) d0) = Some h →
        h = sel_value sel)
  ∧ (sel_agua sel = true ↔ toLowerCase (sel_value sel) = js "agua")
  ∧ (sel_suelo sel = true ↔ toLowerCase (sel_value sel) = js "suelo")
  ∧ ¬ (sel_agua sel = true ∧ sel_suelo sel = true).
Proof.
  intros E. destruct (visit_mirror env acts d0 sel E) as (Hh & Ha & Hs).
  split; [exact Hh|].
  rewrite Ha, Hs, !str_eqb_eq.
  split; [done|]. split; [done|].
  intros [-> [=]].
Qed.

Lemma hidden_field_mirrors_select_witness :
  (∀ h, hiddenMedicion
          (dom_after (visit sample_env [SelectTipo (js "Suelo")]) sample_page)
        = Some h → h = js "Suelo")
  ∧ (true = true ↔ toLowerCase (js "Suelo") = js "suelo").
Proof.
  pose proof (hidden_field_mirrors_select sample_env [SelectTipo (js "Suelo")]
                sample_page
                {| sel_value := js "Suelo"; sel_agua := false;
                   sel_suelo := true |} eq_refl) as (H1 & _ & H3 & _).
  split; [exact H1|exact H3].
Defined.

(** *** The log helpers *)

Lemma replace_cons2 c d r :
  replaceBackslashN (c :: d :: r)
  = if (c =? 92) && (d =? 110) then 10 :: replaceBackslashN r
    else c :: replaceBackslashN (d :: r).
Proof. reflexivity. Qed.

Lemma has_cons2 c e t :
  hasBackslashN (c :: e :: t)
  = ((c =? 92) && (e =? 110)) || hasBackslashN (e :: t).
Proof. reflexivity. Qed.

Lemma hasBackslashN_spec s : hasBackslashN s = true ↔ ContainsEscape s.
Proof.
  unfold ContainsEscape. induction s as [|c s IH].
  - split; [done|]. intros (pre & post & E). by destruct pre.
  - destruct s as [|d r].
    + split; [done|]. intros (pre & post & E).
      destruct pre as [|? [|? ?]]; discriminate.
    + rewrite has_cons2, orb_true_iff, andb_true_iff, !N.eqb_eq, IH. split.
      * intros [[-> ->]|(pre & post & E)]; [by exists [], r|].
        exists (c :: pre), post. by rewrite E.
      * intros (pre & post & E). destruct pre as [|x pre]; cbn in E.
        -- left. by injection E as -> ->.
        -- right. injection E as -> E. by exists pre, post.
Qed.

Lemma replace_head d r :
  ∃ e t, replaceBackslashN (d :: r) = e :: t ∧ (e = d ∨ e = 10).
Proof.
  destruct r as [|x r]; [by exists d, []; split; [|left]|].
  rewrite replace_cons2. destruct ((d =? 92) && (x =? 110)).
  - eexists _, _. split; [reflexivity|by right].
  - eexists _, _. split; [reflexivity|by left].
Qed.

Lemma replace_leaves_no_escape s :
  hasBackslashN (replaceBackslashN s) = false.
Proof.
  remember (length s) as n eqn:Hn.
  assert (Hle : (length s ≤ n)%nat) by lia. clear Hn.
  revert s Hle. induction n as [|n IH]; intros [|c [|d r]] Hle;
    cbn [length] in Hle; try reflexivity; try lia.
  rewrite replace_cons2. destruct ((c =? 92) && (d =? 110)) eqn:Ecd.
  - assert (Hr : hasBackslashN (replaceBackslashN r) = false)
      by (apply IH; lia).
    destruct (replaceBackslashN r) as [|e t]; [reflexivity|].
    rewrite has_cons2, Hr. reflexivity.
  - assert (Hr : hasBackslashN (replaceBackslashN (d :: r)) = false)
      by (apply IH; cbn [length]; lia).
    destruct (replace_head d r) as (e & t & Et & He).
    rewrite Et in *. rewrite has_cons2, Hr, orb_false_r.
    destruct He as [->| ->]; [exact Ecd|].
    by rewrite andb_false_r.
Qed.

Lemma replace_without_escape s :
  hasBackslashN s = false → replaceBackslashN s = s.
Proof.
  induction s as [|c s IH]; [done|].
  destruct s as [|d r]; [done|].
  rewrite has_cons2, orb_false_iff, replace_cons2. intros [-> H].
  by rewrite (IH H).
Qed.

(** X17: normalizing the log leaves no backslash followed by n in it, so a
    second normalization changes nothing; and a log without that pair is
    left as it is. *)
Theorem normalize_leaves_no_escape d :
  (∀ v, logArea (normalizeLogNewlines d) = Some v → ¬ ContainsEscape v)
  ∧ normalizeLogNewlines (normalizeLogNewlines d) = normalizeLogNewlines d
  ∧ (∀ v, logArea d = Some v → ¬ ContainsEscape v →
          normalizeLogNewlines d = d).
Proof.
  destruct d as [ts hm ia bp busy ns [v0|] isp nsp ss];
    cbv [normalizeLogNewlines set_logArea logArea tipoSelect hiddenMedicion
         inputArchivo btnProcesar formDatos_busy nombreSpan inputSpectralon
         nombreSpectralon sessionStorage].
  - split; [|split].
    + intros v [= <-]. rewrite <- hasBackslashN_spec.
      by rewrite replace_leaves_no_escape.
    + by rewrite (replace_without_escape _ (replace_leaves_no_escape v0)).
    + intros v [= <-] H. rewrite <- hasBackslashN_spec in H.
      rewrite replace_without_escape; [done|]. by destruct (hasBackslashN v0).
  - split; [|split]; done.
Qed.

Lemma normalize_leaves_no_escape_witness :
  logArea (normalizeLogNewlines
             (set_logArea (Some (js "a\\nb\nc")) sample_page))
  = Some [97; 92; 10; 98; 10; 99]
  ∧ ¬ ContainsEscape [97; 92; 10; 98; 10; 99].
Proof.
  split; [reflexivity|].
  apply (proj1 (normalize_leaves_no_escape
                  (set_logArea (Some (js "a\\nb\nc")) sample_page))).
  reflexivity.
Defined.

(** *** The two revisions of the submit handler *)



(** *** The reference file *)

(** X19: whenever the change handler of the reference input has run, the
    label announces a file exactly when the input holds one; choosing no
    file gives the page that the reset statement for the reference gives;
    and the click on the button, which empties the input without a change
    event, leaves a label that still announces the file. *)
Theorem reference_label_follows_input names d :
  spectralonLabelAgrees (userChoosesSpectralon names d)
  ∧ (∀ lbl, nombreSpectralon d = Some lbl →
            userChoosesSpectralon [] d = resetEffect ResetSpectralon d)
  ∧ (∀ f fs lbl, inputSpectralon d = Some (f :: fs) →
                 nombreSpectralon d = Some lbl → sp_muted lbl = false →
                 ¬ spectralonLabelAgrees (onCambiarSpectralonClick d)).
Proof.
  destruct d as [ts hm ia bp busy ns la isp nsp ss].
  split; [|split].
  - intros files lbl.
    destruct isp as [fs0|], nsp as [l0|], names as [|n names];
      cbn; intros [= <-] E; try discriminate; injection E as <-; cbn; done.
  - intros lbl E. cbn in E. subst nsp. by destruct isp.
  - intros f fs lbl E1 E2 Hm H. cbn in E1, E2. subst isp nsp.
    specialize (H [] lbl eq_refl eq_refl). by apply H.
Qed.

Lemma reference_label_follows_input_witness :
  userChoosesSpectralon [] sample_page
  = resetEffect ResetSpectralon sample_page
  ∧ ¬ spectralonLabelAgrees
        (onCambiarSpectralonClick
           (userChoosesSpectralon [js "ref.txt"] sample_page)).
Proof.
  split.
  - apply (proj1 (proj2 (reference_label_follows_input [] sample_page))
             {| sp_text := default_spectralon; sp_muted := true;
                sp_data_default := None |}).
    reflexivity.
  - apply (proj2 (proj2 (reference_label_follows_input []
                           (userChoosesSpectralon [js "ref.txt"] sample_page)))
             (js "ref.txt") []
             {| sp_text := msg_spectralon_elegido (js "ref.txt");
                sp_muted := false; sp_data_default := None |});
      reflexivity.
Defined.

(** *** What a submission does, counted *)



Lemma truthy_line a c b : truthy (a ++ [c] ++ b) = true.
Proof. by destruct a. Qed.

(** X21: a submission never erases the log: what the log held stays at its
    start. Nothing is added when the submission is refused; when it passes
    the checks, two lines are written, the start and the outcome, and a
    third one when the completion sound throws after the download. *)
Theorem submission_only_appends_to_log env x d v :
  logArea d = Some v →
  ∃ added,
    logArea (dom_after (submitHandler env x) d) = Some (v ++ added)
    ∧ (added = [] ↔ accepted d = false)
    ∧ length (List.filter isLog (trace_of (submitHandler env x) d))
      = (if accepted d then if soundThrows env x then 3 else 2 else 0)%nat.
Proof.
  intros Hv.
  destruct d as [ts hm ia bp busy ns la isp nsp ss]. cbn in Hv. subst la.
  destruct env as [mt [] tm], bp as [b|].
  all: unfold accepted.
  all: destruct (hayTipo _) eqn:H1; [destruct (tieneArchivo _) eqn:H2|];
    cbn [andb]; step_cmd; rewrite H1, ?H2;
    cbv [negb has_playDoneSound soundThrows delivers].
  all: try (exists []; rewrite app_nil_r; destruct ns, mt; cbn;
            repeat split; done).
  all: by_exchange x; rewrite ?truthy_line;
    destruct v as [|c v]; cbn [truthy app];
    (eexists; split; [rewrite <- ?app_assoc; reflexivity|]);
    (split; [split; intros E; cbn [app] in E; discriminate|reflexivity]).
Qed.

Lemma submission_only_appends_to_log_witness :
  ∃ added,
    logArea (dom_after
               (submitHandler sample_env
                  (exchange_of (Fulfilled (response_ok None))))
               (set_logArea (Some (js "antes")) sample_page))
    = Some (js "antes" ++ added)
    ∧ (added = [] ↔ accepted (set_logArea (Some (js "antes")) sample_page)
                    = false).
Proof.
  destruct (submission_only_appends_to_log sample_env
              (exchange_of (Fulfilled (response_ok None)))
              (set_logArea (Some (js "antes")) sample_page)
              (js "antes") eq_refl) as (added & H1 & H2 & _).
  exists added. split; [exact H1|exact H2].
Defined.

(** *** The page after a reset *)

Lemma stepsBefore_cons fails a steps :
  stepsBefore fails (a :: steps)
  = match fails a with
    | Some _ => []
    | None => a :: stepsBefore fails steps
    end.
Proof. reflexivity. Qed.

Lemma stepsBefore_sub fails steps s :
  In s (stepsBefore fails steps) → In s steps.
Proof.
  induction steps as [|a steps IH]; cbn; [done|].
  destruct (fails a); cbn; [done|]. intros [->|H]; [by left|right; auto].
Qed.

Lemma later_steps_keep steps d :
  (∀ s, In s steps → s ≠ ClearStorage ∧ s ≠ ResetTipo) →
  tipoSelect (foldl (fun d step => resetEffect step d) d steps) = tipoSelect d
  ∧ sessionStorage (foldl (fun d step => resetEffect step d) d steps)
    = sessionStorage d
  ∧ fi_disabled <$> inputArchivo (foldl (fun d step => resetEffect step d) d steps)
    = fi_disabled <$> inputArchivo d.
Proof.
  revert d. induction steps as [|a steps IH]; intros d H; [done|].
  cbn [foldl].
  destruct (IH (resetEffect a d)) as (E1 & E2 & E3);
    [intros s Hs; apply H; by right|].
  rewrite E1, E2, E3. destruct (H a) as [N1 N2]; [by left|].
  destruct d as [ts hm ia bp busy ns la isp nsp ss].
  destruct a; try done; cbn.
  - by destruct ia.
  - by destruct ns.
  - by destruct la.
  - by destruct isp, nsp.
Qed.

Lemma submit_without_type env x d :
  hayTipo d = false →
  run (submitHandler env x) d
  = ((d, [EPreventDefault; warnEvent env msg_falta_tipo]), Returned).
Proof.
  intros H. destruct d as [ts hm ia bp busy ns la isp nsp ss].
  step_cmd. rewrite H. reflexivity.
Qed.

(** X22: after a reset in which the storage and the type control were
    cleared, whatever happened to the later statements, no type is chosen
    and the storage is empty, so a submission is refused with the warning
    about the type and makes no request. The reset does not disable the file
    picker: if it was enabled it stays enabled, against the selection
    guard, and it is the click handler that keeps its dialog closed. *)
Theorem reset_page_refuses_submission env x fails d :
  resetsTipo fails →
  hayTipo (dom_after (resetHandler fails) d) = false
  ∧ sessionStorage (dom_after (resetHandler fails) d) = ∅
  ∧ run (submitHandler env x) (dom_after (resetHandler fails) d)
    = ((dom_after (resetHandler fails) d,
        [EPreventDefault; warnEvent env msg_falta_tipo]), Returned)
  ∧ onArchivoClick env (dom_after (resetHandler fails) d)
    = [CPreventDefault; CStopPropagation;
       CWarn (warnEvent env msg_primero_tipo)]
  ∧ (∀ fi, inputArchivo d = Some fi → fi_disabled fi = false →
           ¬ guardHolds (dom_after (resetHandler fails) d)).
Proof.
  intros [F1 F2]. rewrite reset_dom. unfold allSteps.
  rewrite stepsBefore_cons, F1, stepsBefore_cons, F2. cbn [foldl].
  set (rest := stepsBefore fails _).
  set (d1 := resetEffect ResetTipo (resetEffect ClearStorage d)).
  destruct (later_steps_keep rest d1) as (E1 & E2 & E3).
  { intros s Hs. apply stepsBefore_sub in Hs. cbn in Hs.
    intuition (subst; discriminate). }
  set (d2 := foldl _ d1 rest) in *.
  assert (Hh : hayTipo d2 = false).
  { unfold hayTipo. rewrite E1. subst d1.
    destruct d as [ts hm ia bp busy ns la isp nsp ss]. by destruct ts. }
  split; [exact Hh|]. split.
  { rewrite E2. subst d1.
    destruct d as [ts hm ia bp busy ns la isp nsp ss]. by destruct ts. }
  split; [by apply submit_without_type|]. split.
  { unfold onArchivoClick. by rewrite Hh. }
  intros fi Hfi Hdis [Hg _].
  assert (E : fi_disabled <$> inputArchivo d2 = Some false).
  { rewrite E3. subst d1.
    destruct d as [ts hm ia bp busy ns la isp nsp ss]. cbn in Hfi. subst ia.
    destruct ts; cbn; by rewrite Hdis. }
  destruct (inputArchivo d2) as [fi2|] eqn:E4; [|done].
  injection E as E. specialize (Hg fi2 eq_refl).
  rewrite Hh in Hg. cbn in Hg. congruence.
Qed.

Lemma reset_page_refuses_submission_witness :
  hayTipo (dom_after (resetHandler (fun _ => None)) sample_page) = false
  ∧ ¬ guardHolds (dom_after (resetHandler (fun _ => None)) sample_page).
Proof.
  pose proof (reset_page_refuses_submission sample_env
                (exchange_of (Fulfilled (response_ok None)))
                (fun _ => None) sample_page (conj eq_refl eq_refl))
    as (H1 & _ & _ & _ & H5).
  split; [exact H1|].
  apply (H5 {| fi_files := [js "sample.zip"]; fi_disabled := false |});
    reflexivity.
Defined.

End IndexMoreFacts.
